(** * Pacemaker core: executor history cache, fencing device selection,
      transition-engine aborts and the remote executor client.

    A shallow embedding of the C sources
      - daemons/controld/controld_execd.c  (module [Execd])
      - fencing/commands.c                  (module [Fencing])
      - the transition-engine callbacks and utilities (module [TE])
      - the executor client library         (module [LrmdClient])
      - the cluster layer's CPG send queue  (module [Cpg])
      - the fencing client library          (module [StClient])
    together with the properties their specification states about them. *)

From Stdlib Require Import ZArith NArith Ascii String List Lia Bool DecimalString.
From stdpp Require Import base option list gmap strings fin_maps.

Open Scope string_scope.

(** ** C string helpers

    NUL-terminated C strings are [string]; a pointer that may be NULL is an
    [option string]. *)
Module Str.

(** [tolower] in the C locale. *)
Definition tolower (c : ascii) : ascii :=
  let n := nat_of_ascii c in
  if (65 <=? n)%nat && (n <=? 90)%nat then ascii_of_nat (n + 32) else c.

Fixpoint lower (s : string) : string :=
  match s with
  | EmptyString => EmptyString
  | String c r => String (tolower c) (lower r)
  end.

(** [strcmp(a, b) == 0] *)
Definition streq (a b : string) : bool := String.eqb a b.

(** [strcasecmp(a, b) == 0] *)
Definition strcaseeq (a b : string) : bool := String.eqb (lower a) (lower b).

(** [strstr(hay, needle) != NULL] *)
Fixpoint strstr (hay needle : string) : bool :=
  String.prefix needle hay
  || match hay with
     | EmptyString => false
     | String _ r => strstr r needle
     end.

(** [pcmk__str_eq(s1, s2, flags)] for the two flag values the sources use:
    [pcmk__str_none] ([casei = false]) and [pcmk__str_casei].  Two NULL
    pointers are the same object and compare equal; otherwise NULL matches
    nothing. *)
Definition pcmk__str_eq (s1 s2 : option string) (casei : bool) : bool :=
  match s1, s2 with
  | None, None => true
  | Some a, Some b => if casei then strcaseeq a b else streq a b
  | _, _ => false
  end.

(** [pcmk__strcase_any_of(s, ..., NULL)] *)
Definition pcmk__strcase_any_of (s : option string) (l : list string) : bool :=
  match s with
  | None => false
  | Some a => existsb (strcaseeq a) l
  end.

(** [safe_str_eq(a, b)]: case-insensitive comparison, NULL equals nothing
    but the very same pointer. *)
Definition safe_str_eq (a b : option string) : bool := pcmk__str_eq a b true.

(** [crm_str_eq(a, b, use_case)] *)
Definition crm_str_eq (a b : option string) (use_case : bool) : bool :=
  pcmk__str_eq a b (negb use_case).

End Str.

(** ** daemons/controld/controld_execd.c: the resource history cache *)
Module Execd.
Import Str.

(** Names from crm/crm.h and crm/msg_xml.h. *)
Definition CRM_META : string := "CRM_meta".
Definition RSC_NOTIFY : string := "notify".
Definition RSC_STOP : string := "stop".
Definition RSC_STATUS : string := "monitor".
Definition CRMD_ACTION_START : string := "start".
Definition CRMD_ACTION_STOP : string := "stop".
Definition CRMD_ACTION_STATUS : string := "monitor".
Definition XML_ATTR_CRM_VERSION : string := "crm_feature_set".
Definition XML_OP_ATTR_START_DELAY : string := "start-delay".
Definition XML_ATTR_TIMEOUT : string := "timeout".
Definition XML_LRM_ATTR_INTERVAL_MS : string := "interval".

(** [enum op_status] values the history code looks at (crm/services.h). *)
Definition PCMK_LRM_OP_PENDING : Z := (-1)%Z.
Definition PCMK_LRM_OP_DONE : Z := 0%Z.
Definition PCMK_LRM_OP_CANCELLED : Z := 1%Z.

(** [enum lrmd_callback_event] *)
Inductive lrmd_callback_event :=
| lrmd_event_register
| lrmd_event_unregister
| lrmd_event_exec_complete
| lrmd_event_disconnect
| lrmd_event_connect
| lrmd_event_poke
| lrmd_event_new_client.

(** [lrmd_event_data_t]; [interval_ms] is a [guint]. *)
Record lrmd_event_data_t := mk_event {
  type : lrmd_callback_event;
  rsc_id : string;
  op_type : option string;
  user_data : option string;
  call_id : Z;
  timeout : Z;
  interval_ms : N;
  start_delay : Z;
  rsc_deleted : bool;
  rc : Z;
  op_status : Z;
  params : option (gmap string string)
}.

(** [lrmd_rsc_info_t] *)
Record lrmd_rsc_info_t := mk_rsc_info {
  rsc_info_id : string;
  rsc_type : string;
  rsc_standard : string;
  rsc_provider : option string
}.

(** [rsc_history_t] *)
Record rsc_history_t := mk_history {
  id : string;
  rsc : lrmd_rsc_info_t;
  last_callid : Z;
  last : option lrmd_event_data_t;
  failed : option lrmd_event_data_t;
  recurring_op_list : list lrmd_event_data_t;
  stop_params : option (gmap string string)
}.

(** The part of [lrm_state_t] the history code uses. *)
Record lrm_state_t := mk_lrm_state {
  node_name : string;
  resource_history : gmap string rsc_history_t
}.

(** Requests this file sends to the configuration store. *)
Inductive cib_call :=
| controld_delete_resource_history (rsc_id : string) (node : string).

Definition set_last_callid (e : rsc_history_t) (v : Z) : rsc_history_t :=
  mk_history (id e) (rsc e) v (last e) (failed e) (recurring_op_list e) (stop_params e).
Definition set_last (e : rsc_history_t) (v : option lrmd_event_data_t) : rsc_history_t :=
  mk_history (id e) (rsc e) (last_callid e) v (failed e) (recurring_op_list e) (stop_params e).
Definition set_failed (e : rsc_history_t) (v : option lrmd_event_data_t) : rsc_history_t :=
  mk_history (id e) (rsc e) (last_callid e) (last e) v (recurring_op_list e) (stop_params e).
Definition set_recurring_op_list (e : rsc_history_t) (v : list lrmd_event_data_t) : rsc_history_t :=
  mk_history (id e) (rsc e) (last_callid e) (last e) (failed e) v (stop_params e).
Definition set_stop_params (e : rsc_history_t) (v : option (gmap string string)) : rsc_history_t :=
  mk_history (id e) (rsc e) (last_callid e) (last e) (failed e) (recurring_op_list e) v.
Definition set_resource_history (s : lrm_state_t) (h : gmap string rsc_history_t) : lrm_state_t :=
  mk_lrm_state (node_name s) h.

(** A key is a meta attribute when [strstr(key, CRM_META "_")] finds
    something. *)
Definition is_meta_key (key : string) : bool := strstr key (CRM_META ++ "_").

(** [copy_instance_keys], a [GHFunc]: [user_data] is the destination table. *)
Definition copy_instance_keys (key value : string) (user_data : gmap string string)
  : gmap string string :=
  if negb (is_meta_key key) then <[key := value]> user_data else user_data.

(** [copy_meta_keys] *)
Definition copy_meta_keys (key value : string) (user_data : gmap string string)
  : gmap string string :=
  if is_meta_key key then <[key := value]> user_data else user_data.

(** [g_hash_table_foreach(table, func, user_data)] with a destination table
    as user data. *)
Definition g_hash_table_foreach (table : gmap string string)
    (func : string -> string -> gmap string string -> gmap string string)
    (user_data : gmap string string) : gmap string string :=
  map_fold func user_data table.

(** The condition of the loop in [history_remove_recurring_op]. *)
Definition recurring_op_matches (op existing : lrmd_event_data_t) : bool :=
  (interval_ms op =? interval_ms existing)%N
  && pcmk__str_eq (Some (rsc_id op)) (Some (rsc_id existing)) false
  && pcmk__str_eq (op_type op) (op_type existing) true.

(** The loop of [history_remove_recurring_op]: the first matching link is
    deleted and the search stops. *)
Fixpoint remove_first_match (op : lrmd_event_data_t) (l : list lrmd_event_data_t)
  : list lrmd_event_data_t * bool :=
  match l with
  | [] => ([], false)
  | existing :: rest =>
      if recurring_op_matches op existing then (rest, true)
      else let '(rest', found) := remove_first_match op rest in
           (existing :: rest', found)
  end.

Definition history_remove_recurring_op (history : rsc_history_t) (op : lrmd_event_data_t)
  : rsc_history_t * bool :=
  let '(l, found) := remove_first_match op (recurring_op_list history) in
  (set_recurring_op_list history l, found).

Definition history_free_recurring_ops (history : rsc_history_t) : rsc_history_t :=
  set_recurring_op_list history [].

(** [lrmd_copy_event] is a deep copy. *)
Definition lrmd_copy_event (op : lrmd_event_data_t) : lrmd_event_data_t := op.

Section WithLibrary.

(** Functions of libcrmcommon the history code calls: the return code the
    transition key of an event asks for, and the failure test on an event. *)
Variable rsc_op_expected_rc : lrmd_event_data_t -> Z.
Variable did_rsc_op_fail : lrmd_event_data_t -> Z -> bool.

(** The entry [update_history_cache] works on: the one already in the table,
    or a fresh one when the resource is known. *)
Definition history_entry_for (lrm_state : lrm_state_t) (rsc : option lrmd_rsc_info_t)
    (op : lrmd_event_data_t) : option rsc_history_t :=
  match resource_history lrm_state !! rsc_id op with
  | Some entry => Some entry
  | None =>
      match rsc with
      | Some r =>
          Some (mk_history (rsc_id op)
                  (mk_rsc_info (rsc_id op) (rsc_type r) (rsc_standard r) (rsc_provider r))
                  0%Z None None [] None)
      | None => None
      end
  end.

(** First [if] chain of [update_history_cache]; the flag says that the
    function returned from inside it. *)
Definition record_result (entry : rsc_history_t) (op : lrmd_event_data_t)
  : rsc_history_t * bool :=
  let target_rc := rsc_op_expected_rc op in
  if (op_status op =? PCMK_LRM_OP_CANCELLED)%Z then
    if (0 <? interval_ms op)%N then
      (fst (history_remove_recurring_op entry op), true)
    else (entry, false)
  else if did_rsc_op_fail op target_rc then
    (set_failed entry (Some (lrmd_copy_event op)), false)
  else if (interval_ms op =? 0)%N then
    let entry := set_last entry (Some (lrmd_copy_event op)) in
    match params op with
    | Some p =>
        if pcmk__strcase_any_of (op_type op)
             [CRMD_ACTION_START; "reload"; CRMD_ACTION_STATUS]
        then (set_stop_params entry
                (Some (g_hash_table_foreach p copy_instance_keys ∅)), false)
        else (entry, false)
    | None => (entry, false)
    end
  else (entry, false).

(** Second [if] chain of [update_history_cache]. *)
Definition record_recurring (entry : rsc_history_t) (op : lrmd_event_data_t)
  : rsc_history_t :=
  if (0 <? interval_ms op)%N then
    let entry := fst (history_remove_recurring_op entry op) in
    set_recurring_op_list entry (lrmd_copy_event op :: recurring_op_list entry)
  else
    match recurring_op_list entry with
    | _ :: _ =>
        if negb (pcmk__str_eq (op_type op) (Some RSC_STATUS) true)
        then history_free_recurring_ops entry
        else entry
    | [] => entry
    end.

Definition update_history_cache (lrm_state : lrm_state_t)
    (rsc : option lrmd_rsc_info_t) (op : lrmd_event_data_t)
  : lrm_state_t * list cib_call :=
  if rsc_deleted op then
    (lrm_state, [controld_delete_resource_history (rsc_id op) (node_name lrm_state)])
  else if pcmk__str_eq (op_type op) (Some RSC_NOTIFY) true then
    (lrm_state, [])
  else
    match history_entry_for lrm_state rsc op with
    | None => (lrm_state, [])
    | Some entry =>
        let entry := set_last_callid entry (call_id op) in
        let '(entry, returned) := record_result entry op in
        let entry := if returned then entry else record_recurring entry op in
        (set_resource_history lrm_state
           (<[rsc_id op := entry]> (resource_history lrm_state)), [])
    end.

(** What [construct_op] takes from the request XML: the table [xml2list]
    builds from it, its transition key, and the class of its [primitive]
    child. *)
Record rsc_op_xml := mk_rsc_op_xml {
  xml_params : gmap string string;
  xml_transition_key : option string;
  xml_primitive_class : option string
}.

(** Library functions and constants [construct_op] uses. *)
Variable CRM_FEATURE_SET : string.
Variable crm_meta_value : gmap string string -> string -> option string.
Variable crm_parse_int : option string -> string -> Z.
Variable pcmk__guint_from_hash : gmap string string -> string -> N -> option N.
Variable has_fence_params : option string -> bool.
Variable crm_get_msec : string -> Z.

(** [lrmd_new_event] (the client library), a zeroed event with its names and
    interval set. *)
Definition lrmd_new_event (rsc_id : string) (task : option string) (interval_ms : N)
  : lrmd_event_data_t :=
  mk_event lrmd_event_register rsc_id task None 0%Z 0%Z interval_ms 0%Z false 0%Z 0%Z None.

(** The parameter table of a stop: the cached [stop_params] of the history
    entry when there are some, whatever was given otherwise. *)
Definition stop_op_params (lrm_state : option lrm_state_t) (rsc_id : string)
    (params : gmap string string) : gmap string string :=
  let entry :=
    match lrm_state with
    | Some st => resource_history st !! rsc_id
    | None => None
    end in
  match entry with
  | Some e =>
      match stop_params e with
      | Some cached =>
          g_hash_table_foreach cached copy_instance_keys
            (g_hash_table_foreach params copy_meta_keys ∅)
      | None => params
      end
  | None => params
  end.

Definition construct_op (lrm_state : option lrm_state_t) (rsc_op : option rsc_op_xml)
    (rsc_id operation : string) : lrmd_event_data_t :=
  let op := lrmd_new_event rsc_id (Some operation) 0 in
  match rsc_op with
  | None =>
      mk_event lrmd_event_exec_complete (Execd.rsc_id op) (op_type op) None (call_id op)
        0%Z (interval_ms op) 0%Z (rsc_deleted op) (-1)%Z PCMK_LRM_OP_PENDING
        (Some {[ XML_ATTR_CRM_VERSION := CRM_FEATURE_SET ]})
  | Some xml =>
      let params := delete (CRM_META ++ "_op_target_rc") (xml_params xml) in
      let start_delay := crm_parse_int (crm_meta_value params XML_OP_ATTR_START_DELAY) "0" in
      let timeout := crm_parse_int (crm_meta_value params XML_ATTR_TIMEOUT) "0" in
      let interval_ms :=
        match pcmk__guint_from_hash params (CRM_META ++ "_" ++ XML_LRM_ATTR_INTERVAL_MS) 0 with
        | Some v => v
        | None => 0%N
        end in
      let timeout :=
        if has_fence_params (xml_primitive_class xml)
           && pcmk__str_eq (Some operation) (Some CRMD_ACTION_STATUS) true
           && (0 <? interval_ms)%N
        then match params !! "pcmk_monitor_timeout" with
             | Some t => crm_get_msec t
             | None => timeout
             end
        else timeout in
      let op_params :=
        if negb (pcmk__str_eq (Some operation) (Some RSC_STOP) true) then params
        else stop_op_params lrm_state rsc_id params in
      let timeout := if (timeout <=? 0)%Z then Z.of_N interval_ms else timeout in
      let start_delay := if (start_delay <? 0)%Z then 0%Z else start_delay in
      match xml_transition_key xml with
      | None =>
          mk_event lrmd_event_exec_complete (Execd.rsc_id op) (op_type op) None (call_id op)
            timeout interval_ms start_delay (rsc_deleted op) (-1)%Z PCMK_LRM_OP_PENDING
            (Some op_params)
      | Some transition =>
          let interval_ms :=
            if negb (interval_ms =? 0)%N
               && pcmk__strcase_any_of (Some operation) [CRMD_ACTION_START; CRMD_ACTION_STOP]
            then 0%N else interval_ms in
          mk_event lrmd_event_exec_complete (Execd.rsc_id op) (op_type op) (Some transition)
            (call_id op) timeout interval_ms start_delay (rsc_deleted op) (-1)%Z
            PCMK_LRM_OP_PENDING (Some op_params)
      end
  end.

End WithLibrary.

(** *** Statements about the history cache *)

(** A meta attribute, by its name: the key holds [CRM_meta_] somewhere.  Any
    other key is an instance attribute. *)
Definition meta_attribute (key : string) : Prop :=
  exists before after, key = before ++ "CRM_meta_" ++ after.

(** No two positions of a recurring list hold operations that
    [history_remove_recurring_op] would take for one another: same interval,
    same resource id, same task up to case. *)
Definition recurring_unique (l : list lrmd_event_data_t) : Prop :=
  forall i j a b,
    l !! i = Some a -> l !! j = Some b ->
    recurring_op_matches a b = true -> i = j.

Definition history_unique (lrm_state : lrm_state_t) : Prop :=
  forall rsc_id entry,
    resource_history lrm_state !! rsc_id = Some entry ->
    recurring_unique (recurring_op_list entry).

(** The cache after a sequence of operation results, oldest first. *)
Definition run_updates (expected_rc : lrmd_event_data_t -> Z)
    (did_fail : lrmd_event_data_t -> Z -> bool) (lrm_state : lrm_state_t)
    (results : list (option lrmd_rsc_info_t * lrmd_event_data_t)) : lrm_state_t :=
  fold_left (fun st r => fst (update_history_cache expected_rc did_fail st (fst r) (snd r)))
            results lrm_state.

(** [recurring_unique], head first. *)
Fixpoint recurring_distinct (l : list lrmd_event_data_t) : Prop :=
  match l with
  | [] => True
  | a :: r => Forall (fun b => recurring_op_matches a b = false) r /\ recurring_distinct r
  end.

(** Sample inputs. *)
Definition sample_rsc_info : lrmd_rsc_info_t :=
  mk_rsc_info "R1" "mysql" "ocf" (Some "heartbeat").

Definition sample_op (task : string) (interval : N) (p : option (gmap string string))
  : lrmd_event_data_t :=
  mk_event lrmd_event_exec_complete "R1" (Some task) None 7%Z 60000%Z interval 0%Z false
    0%Z PCMK_LRM_OP_DONE p.

Definition sample_expected_rc (op : lrmd_event_data_t) : Z := 0%Z.
Definition sample_did_fail (op : lrmd_event_data_t) (target_rc : Z) : bool :=
  negb (rc op =? target_rc)%Z.

(** Sample library functions, for evaluating [construct_op]. *)
Definition sample_crm_meta_value (p : gmap string string) (name : string) : option string :=
  p !! (CRM_META ++ "_" ++ name).
Definition sample_crm_parse_int (text : option string) (default : string) : Z := 0%Z.
Definition sample_guint_from_hash (p : gmap string string) (key : string) (default : N)
  : option N := Some default.
Definition sample_has_fence_params (class : option string) : bool := false.
Definition sample_crm_get_msec (text : string) : Z := 0%Z.

Definition sample_construct_op :=
  construct_op "3.7.1" sample_crm_meta_value sample_crm_parse_int sample_guint_from_hash
    sample_has_fence_params sample_crm_get_msec.

(** R1 was started with port 3306. *)
Definition sample_started_entry : rsc_history_t :=
  mk_history "R1" sample_rsc_info 7%Z
    (Some (sample_op "start" 0 (Some {[ "port" := "3306" ]}))) None []
    (Some {[ "port" := "3306" ]}).

Definition sample_started_state : lrm_state_t :=
  mk_lrm_state "node1" {[ "R1" := sample_started_entry ]}.

(** A stop request carrying the new configuration, port 3307. *)
Definition sample_stop_request : rsc_op_xml :=
  mk_rsc_op_xml {[ "port" := "3307"; "CRM_meta_timeout" := "20000" ]}
    (Some "4:12:0:7c9e6679-7425-40de-944b-e07fc1f90ae7") (Some "ocf").

(** *** Queries and repairs on the history cache *)

(** [enum ocf_exitcode] and [enum op_status] values, and names, from
    crm/services.h and crm/crm.h. *)
Definition PCMK_OCF_OK : Z := 0%Z.
Definition PCMK_OCF_UNKNOWN_ERROR : Z := 1%Z.
Definition PCMK_OCF_INSUFFICIENT_PRIV : Z := 4%Z.
Definition PCMK_OCF_NOT_CONFIGURED : Z := 6%Z.
Definition PCMK_OCF_NOT_RUNNING : Z := 7%Z.
Definition PCMK_LRM_OP_ERROR : Z := 4%Z.
Definition CRMD_ACTION_MIGRATE : string := "migrate_to".

(** [is_rsc_active] *)
Definition is_rsc_active (lrm_state : lrm_state_t) (rsc_id : string) : bool :=
  match resource_history lrm_state !! rsc_id with
  | None => false
  | Some entry =>
      match last entry with
      | None => false
      | Some l =>
          if (rc l =? PCMK_OCF_OK)%Z && pcmk__str_eq (op_type l) (Some CRMD_ACTION_STOP) true
          then false
          else if (rc l =? PCMK_OCF_OK)%Z
                  && pcmk__str_eq (op_type l) (Some CRMD_ACTION_MIGRATE) true
          then false
          else if (rc l =? PCMK_OCF_NOT_RUNNING)%Z then false
          else if (interval_ms l =? 0)%N && (rc l =? PCMK_OCF_NOT_CONFIGURED)%Z then false
          else true
      end
  end.

(** [last_failed_matches_op].  With an entry and an operation name the
    function reads [entry->failed->op_type] without a test on
    [entry->failed]; [None] stands for that read through a NULL pointer. *)
Definition last_failed_matches_op (entry : option rsc_history_t) (op : option string)
    (interval_ms : N) : option bool :=
  match entry with
  | None => Some false
  | Some e =>
      match op with
      | None => Some true
      | Some o =>
          match failed e with
          | None => None
          | Some f =>
              Some (pcmk__str_eq (Some o) (op_type f) true
                    && (interval_ms =? Execd.interval_ms f)%N)
          end
      end
  end.

(** [pcmk__op_key(rsc_id, task, interval_ms)], kept in parts. *)
Definition op_key_t := (string * string * N)%type.

(** The row [erase_lrm_history_by_id] asks the configuration store to
    remove: node, resource, operation key, and one of the two optional
    restrictions the xpath can carry. *)
Inductive history_selector :=
| By_call_id (call_id : Z)
| By_original_key (orig_op : op_key_t)
| By_id.

Inductive cib_remove :=
| Remove_history (node rsc_id : string) (key : op_key_t) (selector : history_selector).

(** [erase_lrm_history_by_id] *)
Definition erase_lrm_history_by_id (lrm_state : lrm_state_t) (rsc_id : string)
    (key : op_key_t) (orig_op : option op_key_t) (call_id : Z) : list cib_remove :=
  if (0 <? call_id)%Z then
    [Remove_history (node_name lrm_state) rsc_id key (By_call_id call_id)]
  else
    match orig_op with
    | Some orig => [Remove_history (node_name lrm_state) rsc_id key (By_original_key orig)]
    | None => [Remove_history (node_name lrm_state) rsc_id key By_id]
    end.

(** [lrm_clear_last_failure]; [lrm_state] is what [lrm_state_find(node_name)]
    found.  The result is [None] when [last_failed_matches_op] reads through
    a NULL [failed]. *)
Definition lrm_clear_last_failure (lrm_state : option lrm_state_t) (rsc_id : string)
    (operation : option string) (interval_ms : N)
  : option (option lrm_state_t * list cib_remove) :=
  match lrm_state with
  | None => Some (None, [])
  | Some st =>
      let op_key := (rsc_id, "last_failure", 0%N) in
      let orig_op_key := option_map (fun o => (rsc_id, o, interval_ms)) operation in
      let erased := erase_lrm_history_by_id st rsc_id op_key orig_op_key 0 in
      let entry := resource_history st !! rsc_id in
      match last_failed_matches_op entry operation interval_ms with
      | None => None
      | Some true =>
          match entry with
          | Some e =>
              Some (Some (set_resource_history st
                            (<[rsc_id := set_failed e None]> (resource_history st))),
                    erased)
          | None => Some (Some st, erased)
          end
      | Some false => Some (Some st, erased)
      end
  end.

(** [did_lrm_rsc_op_fail]; each [CRM_CHECK] on a NULL argument returns
    FALSE. *)
Definition did_lrm_rsc_op_fail (lrm_state : option lrm_state_t)
    (rsc_id op_type : option string) (interval_ms : N) : bool :=
  match lrm_state, rsc_id, op_type with
  | Some st, Some rsc_id, Some op_type =>
      match resource_history st !! rsc_id with
      | None => false
      | Some entry =>
          match failed entry with
          | None => false
          | Some f =>
              pcmk__str_eq (Some (Execd.rsc_id f)) (Some rsc_id) false
              && pcmk__str_eq (Execd.op_type f) (Some op_type) true
              && (Execd.interval_ms f =? interval_ms)%N
          end
      end
  | _, _, _ => false
  end.

Definition INT_MAX : Z := 2147483647%Z.
Definition INT_MIN : Z := (-2147483648)%Z.

(** [x + 1] on an [int], two's complement. *)
Definition int_succ (x : Z) : Z := if (x =? INT_MAX)%Z then INT_MIN else (x + 1)%Z.

(** [get_fake_call_id] *)
Definition get_fake_call_id (lrm_state : option lrm_state_t) (rsc_id : string) : Z :=
  let call_id := 999999999%Z in
  let entry :=
    match lrm_state with
    | Some st => resource_history st !! rsc_id
    | None => None
    end in
  let call_id :=
    match entry with
    | Some e => int_succ (last_callid e)
    | None => call_id
    end in
  if (call_id <? 0)%Z then 1%Z else call_id.

(** [fake_op_status]; the two time stamps it sets are not part of the
    event record here. *)
Definition fake_op_status (lrm_state : option lrm_state_t) (op : lrmd_event_data_t)
    (op_status : Z) (op_exitcode : Z) : lrmd_event_data_t :=
  mk_event (type op) (rsc_id op) (op_type op) (user_data op)
    (get_fake_call_id lrm_state (rsc_id op)) (timeout op) (interval_ms op)
    (start_delay op) (rsc_deleted op) op_exitcode op_status (params op).

(** [should_preserve_lock]; [controld_shutdown_lock_enabled] is a global of
    the controller.  [None] stands for [strcmp] on a NULL task name. *)
Definition should_preserve_lock (controld_shutdown_lock_enabled : bool)
    (op : lrmd_event_data_t) : option bool :=
  if negb controld_shutdown_lock_enabled then Some false
  else
    match op_type op with
    | None => None
    | Some task =>
        if streq task RSC_STOP && (rc op =? PCMK_OCF_OK)%Z then Some true
        else if streq task RSC_STATUS && (rc op =? PCMK_OCF_NOT_RUNNING)%Z then Some true
        else Some false
    end.

Definition LF : ascii := "010"%char.

(** [unescape_newlines] on the copy of a non-NULL string: [strstr] finds the
    leftmost backslash followed by [n], the two bytes become a newline and a
    space, and the search goes on from there. *)
Fixpoint unescape_newlines_from (s : string) : string :=
  match s with
  | EmptyString => EmptyString
  | String c r =>
      match r with
      | String d r' =>
          if Ascii.eqb c "\"%char && Ascii.eqb d "n"%char
          then String LF (String " "%char (unescape_newlines_from r'))
          else String c (unescape_newlines_from r)
      | EmptyString => String c EmptyString
      end
  end.

Definition unescape_newlines (text : option string) : option string :=
  option_map unescape_newlines_from text.

(** The two-byte pattern [unescape_newlines] looks for. *)
Definition escaped_newline : string := String "\"%char (String "n"%char EmptyString).

(** The entry [update_history_cache] writes back for a result it records. *)
Definition recorded_entry (expected_rc : lrmd_event_data_t -> Z)
    (did_fail : lrmd_event_data_t -> Z -> bool) (e : rsc_history_t)
    (op : lrmd_event_data_t) : rsc_history_t :=
  let e := set_last_callid e (call_id op) in
  let '(e, returned) := record_result expected_rc did_fail e op in
  if returned then e else record_recurring e op.

(** Sample results: a failed monitor, a one-shot stop that succeeded. *)
Definition sample_failed_monitor : lrmd_event_data_t :=
  mk_event lrmd_event_exec_complete "R1" (Some "monitor") None 9%Z 60000%Z 10000 0%Z false
    7%Z PCMK_LRM_OP_DONE None.
Definition sample_stop_done : lrmd_event_data_t :=
  mk_event lrmd_event_exec_complete "R1" (Some "stop") None 11%Z 60000%Z 0 0%Z false
    0%Z PCMK_LRM_OP_DONE None.

(** R1 after its recurring monitor has failed. *)
Definition sample_failed_state : lrm_state_t :=
  mk_lrm_state "node1"
    {[ "R1" := set_failed sample_started_entry (Some sample_failed_monitor) ]}.

(** *** Pending operations and their cancellation *)

Definition pcmk_ok : Z := 0%Z.

(** [active_op_t] (controld_lrm.h), as far as the cancellation code reads
    it; the two bits of [flags] are one field each. *)
Record active_op_t := mk_active_op {
  pending_interval_ms : N;
  pending_call_id : Z;
  flag_remove : bool;          (* active_op_remove *)
  flag_cancelled : bool;       (* active_op_cancelled *)
  pending_rsc_id : string;
  pending_op_type : string;
  pending_op_key : string
}.

Definition set_flag_remove (p : active_op_t) : active_op_t :=
  mk_active_op (pending_interval_ms p) (pending_call_id p) true (flag_cancelled p)
    (pending_rsc_id p) (pending_op_type p) (pending_op_key p).
Definition set_flag_cancelled (p : active_op_t) : active_op_t :=
  mk_active_op (pending_interval_ms p) (pending_call_id p) (flag_remove p) true
    (pending_rsc_id p) (pending_op_type p) (pending_op_key p).

(** What is asked of the executor. *)
Inductive executor_request :=
| Cancel_request (rsc_id op_type : string) (interval_ms : N).

(** ["%d"] *)
Definition format_int (z : Z) : string := NilZero.string_of_int (Z.to_int z).

(** [make_stop_id]: ["%s:%d"] *)
Definition make_stop_id (rsc : string) (call_id : Z) : string :=
  rsc ++ ":" ++ format_int call_id.

(** [g_hash_table_foreach_remove(pending_ops, func, user_data)] where the
    callback works on the table it is called for.  The table is walked in
    the order of [map_fold]; [value] is the value of the node visited, which
    no earlier call has touched.  The result is the table, the user data,
    and the number of nodes removed. *)
Definition foreach_remove_step {U}
    (func : string -> active_op_t -> gmap string active_op_t * U
            -> gmap string active_op_t * U * bool)
    (key : string) (value : active_op_t) (acc : gmap string active_op_t * U * N)
  : gmap string active_op_t * U * N :=
  let '(table, user_data, removed) := acc in
  let '(table, user_data, remove) := func key value (table, user_data) in
  if remove then (delete key table, user_data, N.succ removed)
  else (table, user_data, removed).

Definition g_hash_table_foreach_remove {U} (pending_ops : gmap string active_op_t)
    (func : string -> active_op_t -> gmap string active_op_t * U
            -> gmap string active_op_t * U * bool)
    (user_data : U) : gmap string active_op_t * U * N :=
  map_fold (foreach_remove_step func) (pending_ops, user_data, 0%N) pending_ops.

Section WithExecutor.

(** [lrm_state_cancel(lrm_state, rsc_id, op_type, interval_ms)]: the return
    code of the executor connection, local or remote. *)
Variable lrm_state_cancel : string -> string -> N -> Z.

(** [cancel_op] on the table of pending operations: the table afterwards,
    the requests sent, and the return value, "cancellation is in progress". *)
Definition cancel_op (pending_ops : gmap string active_op_t) (rsc_id : option string)
    (key : option string) (op : Z) (remove : bool)
  : gmap string active_op_t * list executor_request * bool :=
  if (op =? 0)%Z then (pending_ops, [], false)
  else
    match rsc_id with
    | None => (pending_ops, [], false)
    | Some rsc =>
        let key :=
          match key with
          | Some k => k
          | None => make_stop_id rsc op
          end in
        match pending_ops !! key with
        | Some pending =>
            let pending :=
              if remove && negb (flag_remove pending) then set_flag_remove pending
              else pending in
            if flag_cancelled pending then (<[key := pending]> pending_ops, [], false)
            else
              let pending := set_flag_cancelled pending in
              let rc :=
                lrm_state_cancel (pending_rsc_id pending) (pending_op_type pending)
                  (pending_interval_ms pending) in
              (<[key := pending]> pending_ops,
               [Cancel_request (pending_rsc_id pending) (pending_op_type pending)
                  (pending_interval_ms pending)],
               (rc =? pcmk_ok)%Z)
        | None => (pending_ops, [], false)
        end
    end.

(** [struct cancel_data]: what [cancel_action_by_key] reads, and [done]. *)
Record cancel_data := mk_cancel_data {
  cd_done : bool;
  cd_remove : bool;
  cd_key : string;
  cd_rsc : lrmd_rsc_info_t
}.

(** [cancel_action_by_key], a [GHRFunc]; the requests sent so far travel
    with the user data. *)
Definition cancel_action_by_key (key : string) (value : active_op_t)
    (acc : gmap string active_op_t * (cancel_data * list executor_request))
  : gmap string active_op_t * (cancel_data * list executor_request) * bool :=
  let '(table, (data, sent)) := acc in
  if pcmk__str_eq (Some (pending_op_key value)) (Some (cd_key data)) false then
    let data := mk_cancel_data true (cd_remove data) (cd_key data) (cd_rsc data) in
    let '(table, requests, in_progress) :=
      cancel_op table (Some (rsc_info_id (cd_rsc data))) (Some key) (pending_call_id value)
        (cd_remove data) in
    (table, (data, (sent ++ requests)%list), negb in_progress)
  else (table, (data, sent), false).

(** [cancel_op_key] *)
Definition cancel_op_key (pending_ops : gmap string active_op_t)
    (rsc : option lrmd_rsc_info_t) (key : option string) (remove : bool)
  : gmap string active_op_t * list executor_request * bool :=
  match rsc, key with
  | Some rsc, Some key =>
      let data := mk_cancel_data false remove key rsc in
      let '(table, (data, sent), _) :=
        g_hash_table_foreach_remove pending_ops cancel_action_by_key (data, []) in
      (table, sent, cd_done data)
  | _, _ => (pending_ops, [], false)
  end.

(** [stop_recurring_action_by_rsc], a [GHRFunc] *)
Definition stop_recurring_action_by_rsc (rsc : lrmd_rsc_info_t) (key : string)
    (value : active_op_t) (acc : gmap string active_op_t * list executor_request)
  : gmap string active_op_t * list executor_request * bool :=
  let '(table, sent) := acc in
  if negb (pending_interval_ms value =? 0)%N
     && pcmk__str_eq (Some (pending_rsc_id value)) (Some (rsc_info_id rsc)) false
  then
    let '(table, requests, in_progress) :=
      cancel_op table (Some (rsc_info_id rsc)) (Some key) (pending_call_id value) false in
    (table, (sent ++ requests)%list, negb in_progress)
  else (table, sent, false).

(** [stop_recurring_actions], a [GHRFunc] *)
Definition stop_recurring_actions (key : string) (value : active_op_t)
    (acc : gmap string active_op_t * list executor_request)
  : gmap string active_op_t * list executor_request * bool :=
  let '(table, sent) := acc in
  if negb (pending_interval_ms value =? 0)%N then
    let '(table, requests, in_progress) :=
      cancel_op table (Some (pending_rsc_id value)) (Some key) (pending_call_id value)
        false in
    (table, (sent ++ requests)%list, negb in_progress)
  else (table, sent, false).

(** The counting loop of [lrm_state_verify_stopped]: recurring operations
    are left out. *)
Definition count_one_shot (pending_ops : gmap string active_op_t) : N :=
  map_fold (fun _ pending counter =>
              if (pending_interval_ms pending =? 0)%N then N.succ counter else counter)
           0%N pending_ops.

(** The loop over the resource history at the end of
    [lrm_state_verify_stopped]. *)
Definition count_active (lrm_state : lrm_state_t) : N :=
  map_fold (fun _ entry counter =>
              if is_rsc_active lrm_state (id entry) then N.succ counter else counter)
           0%N (resource_history lrm_state).

(** [lrm_state_verify_stopped].  [pending_ops] is that member of
    [lrm_state], which may be NULL; [connected] is
    [lrm_state_is_connected(lrm_state)], [terminate] is [cur_state ==
    S_TERMINATE], [sent_rsc_stop] the bit R_SENT_RSC_STOP of
    [fsa_input_register].  The result is the return value, the table of
    pending operations afterwards, the requests sent to the executor, and the
    number of resources the final [crm_err] reports active (0 when it is not
    reached); the other log lines are left out. *)
Definition lrm_state_verify_stopped (lrm_state : lrm_state_t)
    (pending_ops : option (gmap string active_op_t))
    (connected terminate sent_rsc_stop : bool)
  : bool * option (gmap string active_op_t) * list executor_request * N :=
  let '(pending_ops, requests) :=
    match pending_ops with
    | Some table =>
        if connected then
          let '(table, sent, _) :=
            g_hash_table_foreach_remove table stop_recurring_actions [] in
          (Some table, sent)
        else (Some table, [])
    | None => (None, [])
    end in
  let counter :=
    match pending_ops with
    | Some table => count_one_shot table
    | None => 0%N
    end in
  if (0 <? counter)%N then
    if terminate || negb sent_rsc_stop then (true, pending_ops, requests, 0%N)
    else (false, pending_ops, requests, 0%N)
  else (true, pending_ops, requests, count_active lrm_state).

End WithExecutor.

(** Sample pending operations: a recurring monitor and a start in flight. *)
Definition sample_pending_monitor : active_op_t :=
  mk_active_op 10000 12 false false "R1" "monitor" "R1_monitor_10000".
Definition sample_pending_start : active_op_t :=
  mk_active_op 0 13 false false "R2" "start" "R2_start_0".
Definition sample_pending_ops : gmap string active_op_t :=
  {[ "R1:12" := sample_pending_monitor; "R2:13" := sample_pending_start ]}.
Definition sample_lrm_state_cancel (rsc_id op_type : string) (interval_ms : N) : Z := 0%Z.

(** *** Statements about the sweep of recurring operations *)

(** What one walk of [stop_recurring_actions] over the table makes of a
    pending operation: [None] when its node is removed. *)
Definition swept (lrm_state_cancel : string -> string -> N -> Z) (v : active_op_t)
  : option active_op_t :=
  if (pending_interval_ms v =? 0)%N then Some v
  else if (pending_call_id v =? 0)%Z then None
  else if flag_cancelled v then None
  else if (lrm_state_cancel (pending_rsc_id v) (pending_op_type v) (pending_interval_ms v)
           =? pcmk_ok)%Z
  then Some (set_flag_cancelled v)
  else None.

(** The request that walk sends for a pending operation, if any. *)
Definition sweep_request (v : active_op_t) : list executor_request :=
  if (pending_interval_ms v =? 0)%N then []
  else if (pending_call_id v =? 0)%Z then []
  else if flag_cancelled v then []
  else [Cancel_request (pending_rsc_id v) (pending_op_type v) (pending_interval_ms v)].

(** What [cancel_action_by_key] makes of a pending operation with the key in
    question: [None] when its node is removed. *)
Definition cancelled_by_key (lrm_state_cancel : string -> string -> N -> Z) (remove : bool)
    (v : active_op_t) : option active_op_t :=
  if (pending_call_id v =? 0)%Z then None
  else
    let p := if remove && negb (flag_remove v) then set_flag_remove v else v in
    if flag_cancelled p then None
    else if (lrm_state_cancel (pending_rsc_id p) (pending_op_type p) (pending_interval_ms p)
             =? pcmk_ok)%Z
    then Some (set_flag_cancelled p)
    else None.

End Execd.

(** ** fencing/commands.c: fencing devices and their selection *)
Module Fencing.
Import Str.

(** Names from crm/stonith-ng-internal.h. *)
Definition STONITH_ATTR_HOSTCHECK : string := "pcmk_host_check".
Definition STONITH_ATTR_HOSTLIST : string := "pcmk_host_list".
Definition STONITH_ATTR_HOSTMAP : string := "pcmk_host_map".

(** Return codes of [enum stonith_errors] the dispatch code hands back. *)
Definition stonith_ok : Z := 0%Z.
Definition stonith_pending : Z := (-1)%Z.
Definition st_err_none_available : Z := (-9)%Z.

(** The fields of [async_command_t] that the dispatch path reads or writes.
    [device_list] and [device_next] are two different members. *)
Record async_command_t := mk_cmd {
  cmd_id : Z;
  cmd_action : string;
  cmd_victim : option string;
  cmd_device : option string;
  cmd_device_list : list string;
  cmd_device_next : list string
}.

(** [stonith_device_t].  A [GListPtr] of strings is a list, NULL being the
    empty one; [targets_age] is a [time_t]. *)
Record stonith_device_t := mk_device {
  dev_id : string;
  agent : string;
  priority : Z;
  dev_params : gmap string string;
  aliases : gmap string string;
  targets : list string;
  targets_age : Z;
  pending_ops : list async_command_t
}.

Definition set_targets (d : stonith_device_t) (l : list string) (age : Z) : stonith_device_t :=
  mk_device (dev_id d) (agent d) (priority d) (dev_params d) (aliases d) l age (pending_ops d).
Definition set_pending_ops (d : stonith_device_t) (l : list async_command_t) : stonith_device_t :=
  mk_device (dev_id d) (agent d) (priority d) (dev_params d) (aliases d) (targets d)
    (targets_age d) l.

(** *** [build_port_aliases] *)

Definition NUL : ascii := Ascii.zero.

(** [strlen]: the index of the first NUL. *)
Fixpoint strlen (s : list ascii) : nat :=
  match s with
  | [] => 0
  | c :: r => if Ascii.eqb c NUL then 0 else S (strlen r)
  end.

(** [hostmap[lpc]] for [lpc <= strlen(hostmap)] *)
Definition char_at (s : list ascii) (lpc : nat) : ascii :=
  match s !! lpc with
  | Some c => c
  | None => NUL
  end.

(** The zeroed buffer of [1 + lpc - last] bytes after
    [strncpy(buf, hostmap + last, lpc - last)]. *)
Definition copy_token (hostmap : list ascii) (last lpc : nat) : string :=
  string_of_list_ascii (take (lpc - last) (drop last hostmap)).

Inductive char_class := Assignment | Delimiter | Other.

(** The [switch] of the parsing loop. *)
Definition classify (c : ascii) : char_class :=
  if Ascii.eqb c "=" || Ascii.eqb c ":" then Assignment
  else if Ascii.eqb c NUL || Ascii.eqb c ";" || Ascii.eqb c " " || Ascii.eqb c "009"
  then Delimiter
  else Other.

Record alias_state := mk_alias_state {
  as_name : option string;
  as_last : nat;
  as_aliases : gmap string string;
  as_targets : option (list string);
  as_added : nat;
  as_parse_errors : list nat
}.

(** One turn of the loop body, before the test for the end of the string. *)
Definition alias_step (hostmap : list ascii) (lpc : nat) (st : alias_state) : alias_state :=
  match classify (char_at hostmap lpc) with
  | Assignment =>
      let name :=
        if (as_last st <? lpc)%nat then Some (copy_token hostmap (as_last st) lpc)
        else as_name st in
      mk_alias_state name (lpc + 1) (as_aliases st) (as_targets st) (as_added st)
        (as_parse_errors st)
  | Delimiter =>
      match as_name st with
      | Some name =>
          let value := copy_token hostmap (as_last st) lpc in
          mk_alias_state None (lpc + 1) (<[name := value]> (as_aliases st))
            (option_map (fun t => (t ++ [value])%list) (as_targets st))
            (S (as_added st)) (as_parse_errors st)
      | None =>
          mk_alias_state None (lpc + 1) (as_aliases st) (as_targets st) (as_added st)
            (if (as_last st <? lpc)%nat
             then (as_parse_errors st ++ [(lpc - as_last st)%nat])%list
             else as_parse_errors st)
      end
  | Other => st
  end.

(** [for(; lpc <= max; lpc++)], with [turns] turns left. *)
Fixpoint alias_loop (hostmap : list ascii) (turns lpc : nat) (st : alias_state) : alias_state :=
  match turns with
  | O => st
  | S turns' =>
      let st' := alias_step hostmap lpc st in
      if Ascii.eqb (char_at hostmap lpc) NUL then st'
      else alias_loop hostmap turns' (S lpc) st'
  end.

(** [build_port_aliases(hostmap, targets)]: the alias table, and the list
    behind [targets] when that pointer is given. *)
Definition build_port_aliases (hostmap : option string) (targets : option (list string))
  : gmap string string * option (list string) :=
  match hostmap with
  | None => (∅, targets)
  | Some text =>
      let chars := list_ascii_of_string text in
      let max := strlen chars in
      let st := alias_loop chars (S max) 0 (mk_alias_state None 0 ∅ targets 0 []) in
      (as_aliases st, as_targets st)
  end.

(** *** Host checks *)

(** [string_in_list]: [safe_str_eq] against every element in turn. *)
Definition string_in_list (glist : list string) (item : string) : bool :=
  existsb (fun value => safe_str_eq (Some item) (Some value)) glist.

(** What a synchronous [run_stonith_agent] hands back: its return value,
    the agent's exit code [rc] and the agent's output. *)
Record agent_result := mk_agent_result {
  exec_rc : Z;
  agent_rc : Z;
  agent_output : option string
}.

(** The world outside: agent name, action and victim to a result. *)
Definition agent_runner := string -> string -> option string -> agent_result.

(** One call of [run_stonith_agent]: action and victim. *)
Definition agent_call := (string * option string)%type.

Definition host_check_type (dev : stonith_device_t) : string :=
  match dev_params dev !! STONITH_ATTR_HOSTCHECK with
  | Some check_type => check_type
  | None =>
      match dev_params dev !! STONITH_ATTR_HOSTLIST with
      | Some _ => "static-list"
      | None => "dynamic-list"
      end
  end.

Definition host_alias (dev : stonith_device_t) (host : string) : string :=
  match aliases dev !! host with
  | Some a => a
  | None => host
  end.

Section HostCheck.

(** [parse_host_list] turns the output of an agent's list action into host
    names.  It scans with [sscanf] and a character set whose range runs
    backwards, which the C library is free to read as it likes, so the
    function is taken as given. *)
Variable parse_host_list : option string -> list string.

(** The [dynamic-list] branch of [can_fence_host_with_device]: the device
    afterwards and the agent calls made. *)
Definition refresh_dynamic_list (run : agent_runner) (now : Z) (dev : stonith_device_t)
  : stonith_device_t * list agent_call :=
  if (targets_age dev <? 0)%Z then (dev, [])
  else if match targets dev with [] => true | _ => false end
          || (targets_age dev + 60 <? now)%Z then
    let r := run (agent dev) "list" None in
    if (exec_rc r <? 0)%Z || negb (agent_rc r =? 0)%Z
    then (set_targets dev [] (-1)%Z, [("list", None)])
    else (set_targets dev (parse_host_list (agent_output r)) now, [("list", None)])
  else (dev, []).

(** [can_fence_host_with_device(dev, host)] at time [now]: the device
    afterwards, the answer, and the agent calls made. *)
Definition can_fence_host_with_device (run : agent_runner) (now : Z)
    (dev : option stonith_device_t) (host : option string)
  : option stonith_device_t * bool * list agent_call :=
  match dev with
  | None => (None, false, [])
  | Some dev =>
      match host with
      | None => (Some dev, true, [])
      | Some host =>
          let alias := host_alias dev host in
          let check_type := Some (host_check_type dev) in
          if safe_str_eq check_type (Some "none") then (Some dev, true, [])
          else if safe_str_eq check_type (Some "static-list") then
            (Some dev, string_in_list (targets dev) host, [])
          else if safe_str_eq check_type (Some "dynamic-list") then
            let '(dev', calls) := refresh_dynamic_list run now dev in
            (Some dev', string_in_list (targets dev') alias, calls)
          else if safe_str_eq check_type (Some "status") then
            let r := run (agent dev) "status" (Some host) in
            let can :=
              if negb (exec_rc r =? 0)%Z then false
              else if (agent_rc r =? 1)%Z then false
              else (agent_rc r =? 0)%Z || (agent_rc r =? 2)%Z in
            (Some dev, can, [("status", Some host)])
          else (Some dev, false, [])
      end
  end.

(** A sequence of later checks on one device, each with its own target, time
    and outside world: the device at the end, and per check the answer and
    the agent calls. *)
Fixpoint run_checks (dev : stonith_device_t)
    (checks : list (agent_runner * Z * string))
  : stonith_device_t * list (bool * list agent_call) :=
  match checks with
  | [] => (dev, [])
  | (run, now, host) :: rest =>
      match can_fence_host_with_device run now (Some dev) (Some host) with
      | (Some dev', can, calls) =>
          let '(dev'', answers) := run_checks dev' rest in
          (dev'', (can, calls) :: answers)
      | (None, can, calls) => (dev, [(can, calls)])
      end
  end.

(** [search_devices] over the device table: the table afterwards and the
    capable devices, in the order the table was walked. *)
Fixpoint search_devices (run : agent_runner) (now : Z)
    (device_list : list stonith_device_t) (host : option string)
  : list stonith_device_t * list stonith_device_t :=
  match device_list with
  | [] => ([], [])
  | dev :: rest =>
      let '(dev', can, _) := can_fence_host_with_device run now (Some dev) host in
      let dev' := match dev' with Some d => d | None => dev end in
      let '(rest', capable) := search_devices run now rest host in
      (dev' :: rest', if can then dev' :: capable else capable)
  end.

End HostCheck.

(** *** Dispatch *)

(** [g_list_sort_merge] of GLib: the head of the first list goes first
    unless the comparison is positive. *)
Fixpoint g_list_sort_merge {A} (compare_func : A -> A -> Z) (l1 : list A) : list A -> list A :=
  fix merge_l2 (l2 : list A) : list A :=
    match l1, l2 with
    | [], _ => l2
    | _, [] => l1
    | a :: l1', b :: l2' =>
        if (compare_func a b <=? 0)%Z
        then a :: g_list_sort_merge compare_func l1' l2
        else b :: merge_l2 l2'
    end.

(** [g_list_sort_real] of GLib: a list of two or more elements is cut after
    its first [length / 2] elements, both parts are sorted and merged.
    [depth] bounds the nesting of the calls; the length of the list is
    enough. *)
Fixpoint g_list_sort_real {A} (depth : nat) (glist : list A) (compare_func : A -> A -> Z)
  : list A :=
  match depth with
  | O => glist
  | S depth' =>
      match glist with
      | [] => []
      | [x] => [x]
      | _ =>
          let half := (length glist / 2)%nat in
          g_list_sort_merge compare_func
            (g_list_sort_real depth' (take half glist) compare_func)
            (g_list_sort_real depth' (drop half glist) compare_func)
      end
  end.

Definition g_list_sort {A} (glist : list A) (compare_func : A -> A -> Z) : list A :=
  g_list_sort_real (length glist) glist compare_func.

(** [sort_device_priority(a, b)]: both [dev_a] and [dev_b] are set from [a]. *)
Definition sort_device_priority (a b : stonith_device_t) : Z :=
  let dev_a := a in
  let dev_b := a in
  if (priority dev_a >? priority dev_b)%Z then (-1)%Z
  else if (priority dev_a <? priority dev_b)%Z then 1%Z
  else 0%Z.

(** [schedule_stonith_command] *)
Definition schedule_stonith_command (cmd : async_command_t) (device : stonith_device_t)
  : stonith_device_t :=
  set_pending_ops device (pending_ops device ++ [cmd])%list.

(** [stonith_fence] from the search on, for the command [cmd] built from the
    request: the return code, the capable devices in the order they are kept,
    and the command with the device it was scheduled on, if any. *)
Definition stonith_fence (capable : list stonith_device_t) (cmd : async_command_t)
  : Z * list stonith_device_t * option (async_command_t * stonith_device_t) :=
  match capable with
  | [] => (st_err_none_available, [], None)
  | _ =>
      let capable := g_list_sort capable sort_device_priority in
      match capable with
      | [] => (st_err_none_available, [], None)
      | device :: _ =>
          let cmd :=
            mk_cmd (cmd_id cmd) (cmd_action cmd) (cmd_victim cmd) (Some (dev_id device))
              (if (1 <? length capable)%nat then List.map dev_id capable
               else cmd_device_list cmd)
              (cmd_device_next cmd) in
          (stonith_pending, capable, Some (cmd, schedule_stonith_command cmd device))
      end
  end.

(** The retry decision of [exec_child_done]: on a failure the command moves
    to the head of [device_next], when there is one. *)
Definition exec_child_retry (cmd : async_command_t) (rc : Z)
  : option (string * async_command_t) :=
  if negb (rc =? 0)%Z then
    match cmd_device_next cmd with
    | dev :: rest =>
        Some (dev, mk_cmd (cmd_id cmd) (cmd_action cmd) (cmd_victim cmd) (cmd_device cmd)
                     (cmd_device_list cmd) rest)
    | [] => None
    end
  else None.

(** [sort_device_priority] with [dev_b] read from [b], for comparison. *)
Definition compare_priority_desc (a b : stonith_device_t) : Z :=
  if (priority a >? priority b)%Z then (-1)%Z
  else if (priority a <? priority b)%Z then 1%Z
  else 0%Z.

(** Sample devices: D1 with priority 10, D2 with priority 5. *)
Definition sample_device (name : string) (prio : Z) : stonith_device_t :=
  mk_device name "fence_ipmilan" prio ∅ ∅ [] 0%Z [].
Definition sample_D1 : stonith_device_t := sample_device "D1" 10.
Definition sample_D2 : stonith_device_t := sample_device "D2" 5.

(** The command [create_async_command] builds for "off N2": zeroed, so
    without a device list. *)
Definition sample_cmd : async_command_t := mk_cmd 1 "off" (Some "N2") None [] [].

(** *** Statements about the host checks *)

(** The device's host-check policy is dynamic-list: its [pcmk_host_check]
    parameter says so, in any case of letters, or it has neither that
    parameter nor a [pcmk_host_list]. *)
Definition is_dynamic_list (dev : stonith_device_t) : Prop :=
  match dev_params dev !! "pcmk_host_check" with
  | Some check_type => lower check_type = "dynamic-list"
  | None => dev_params dev !! "pcmk_host_list" = None
  end.

(** A list run that counts as failed. *)
Definition list_failed (r : agent_result) : bool :=
  (exec_rc r <? 0)%Z || negb (agent_rc r =? 0)%Z.

(** The cached list is missing or older than 60 seconds at [now]. *)
Definition list_stale (dev : stonith_device_t) (now : Z) : bool :=
  match targets dev with [] => true | _ => false end || (targets_age dev + 60 <? now)%Z.

(** Sample worlds: an agent whose list action fails, one that lists N2. *)
Definition sample_failing_agent : agent_runner :=
  fun _ _ _ => mk_agent_result 0 1 None.
Definition sample_listing_agent : agent_runner :=
  fun _ _ _ => mk_agent_result 0 0 (Some "N2").
Definition sample_parse_host_list (output : option string) : list string :=
  match output with
  | Some o => [o]
  | None => []
  end.

(** A device that knows node2 under the port name n2. *)
Definition sample_aliased_device : stonith_device_t :=
  mk_device "D3" "fence_ipmilan" 0 ∅ {[ "node2" := "n2" ]} [] 0%Z [].

(** *** Statements about the host map *)

(** What a host map is made of: entries [NAME=VALUE] or [NAME:VALUE], and
    bare tokens (the empty one included), each but the last followed by one
    separator. *)
Inductive map_entry :=
| Pair (name : list ascii) (assign : ascii) (value : list ascii)
| Bare (token : list ascii).

(** A character that is none of the six the parser's [switch] has a case
    for: NUL, [=], [:], [;], the space and the tab. *)
Definition plain (c : ascii) : Prop :=
  c <> NUL /\ c <> "="%char /\ c <> ":"%char /\
  c <> ";"%char /\ c <> " "%char /\ c <> "009"%char.

Definition is_assignment (c : ascii) : Prop := c = "="%char \/ c = ":"%char.

(** Semicolon, space or tab. *)
Definition is_separator (c : ascii) : Prop :=
  c = ";"%char \/ c = " "%char \/ c = "009"%char.

Definition entry_chars (e : map_entry) : list ascii :=
  match e with
  | Pair name assign value => (name ++ assign :: value)%list
  | Bare token => token
  end.

Definition entry_ok (e : map_entry) : Prop :=
  match e with
  | Pair name assign value =>
      name <> [] /\ Forall plain name /\ is_assignment assign /\ Forall plain value
  | Bare token => Forall plain token
  end.

(** The text of a host map. *)
Fixpoint render (entries : list (map_entry * ascii)) (final : map_entry) : list ascii :=
  match entries with
  | [] => entry_chars final
  | (e, sep) :: rest => (entry_chars e ++ sep :: render rest final)%list
  end.

(** What an entry adds to the alias table and to the target list. *)
Definition record_entry (acc : gmap string string * option (list string)) (e : map_entry)
  : gmap string string * option (list string) :=
  match e with
  | Pair name _ value =>
      (<[string_of_list_ascii name := string_of_list_ascii value]> (fst acc),
       option_map (fun t => (t ++ [string_of_list_ascii value])%list) (snd acc))
  | Bare _ => acc
  end.

Definition record_entries (entries : list map_entry)
    (acc : gmap string string * option (list string))
  : gmap string string * option (list string) :=
  fold_left record_entry entries acc.

(** The alias table and target list of a parser state. *)
Definition outcome (st : alias_state) : gmap string string * option (list string) :=
  (as_aliases st, as_targets st).

(** Every entry but the last is well formed and followed by a separator. *)
Definition entries_ok (entries : list (map_entry * ascii)) : Prop :=
  Forall (fun x => entry_ok (fst x) /\ is_separator (snd x)) entries.

(** Sample host map: two pairs, a stray token, a trailing space. *)
Definition sample_entries : list (map_entry * ascii) :=
  [ (Pair (list_ascii_of_string "node1") ":"%char (list_ascii_of_string "1"), ";"%char);
    (Bare (list_ascii_of_string "stray"), " "%char);
    (Pair (list_ascii_of_string "node2") "="%char (list_ascii_of_string "2,3"), " "%char) ].

(** *** The work queue of a device *)

(** A registered device together with its [active_pid] member, which the
    host checks never read. *)
Record device_work := mk_work {
  work_device : stonith_device_t;
  active_pid : Z
}.

(** Where [exec_child_done] sends the reply. *)
Inductive reply_route :=
| Broadcast_notify                (* send_cluster_message(NULL, ...) as T_STONITH_NOTIFY *)
| To_origin (origin : string)     (* send_cluster_message(cmd->origin, ...) *)
| To_local_client.                (* do_local_reply(reply, cmd->client, ...) *)

(** What the queue does that can be seen from outside. *)
Inductive queue_event :=
| Started (cmd : async_command_t)                         (* run_stonith_agent *)
| Replied (cmd : async_command_t) (rc : Z) (route : reply_route)
| Rescheduled (cmd : async_command_t) (device : string)
| Work_triggered (device : string).                       (* mainloop_set_trigger(device->work) *)

Definition set_cmd_device (cmd : async_command_t) (device : option string) : async_command_t :=
  mk_cmd (cmd_id cmd) (cmd_action cmd) (cmd_victim cmd) device (cmd_device_list cmd)
    (cmd_device_next cmd).

(** The actions whose result [exec_child_done] broadcasts. *)
Definition broadcast_action (action : string) : bool :=
  crm_str_eq (Some action) (Some "reboot") true
  || crm_str_eq (Some action) (Some "poweroff") true
  || crm_str_eq (Some action) (Some "poweron") true
  || crm_str_eq (Some action) (Some "off") true
  || crm_str_eq (Some action) (Some "on") true.

Section WorkQueue.

(** Values of [enum stonith_errors] (stonith-ng.h), the [stand_alone] flag
    of the daemon, the [origin] member of a command, and an asynchronous
    [run_stonith_agent]: its return value (the child's pid when positive) and
    the [rc] it stores. *)
Variable st_err_generic st_err_signal st_err_timeout : Z.
Variable stand_alone : bool.
Variable origin_of : async_command_t -> option string.
Variable run_async : stonith_device_t -> async_command_t -> Z * Z.

(** [exec_child_done(proc, status, signum, rc, waslogged)] for the command
    behind [proc]; [timedout] is [proctrack_timedout(proc)].  The device
    table is keyed by device id.  [None] stands for the table lookup with a
    NULL [cmd->device]. *)
Definition exec_child_done (device_list : gmap string device_work) (cmd : async_command_t)
    (signum : Z) (timedout : bool) (rc : Z)
  : option (gmap string device_work * list queue_event) :=
  match cmd_device cmd with
  | None => None
  | Some id =>
      let '(device_list, released) :=
        match device_list !! id with
        | Some device =>
            (<[id := mk_work (work_device device) 0]> device_list, [Work_triggered id])
        | None => (device_list, [])
        end in
      let rc :=
        if negb (signum =? 0)%Z then (if timedout then st_err_timeout else st_err_signal)
        else rc in
      match exec_child_retry cmd rc with
      | Some (dev, cmd) =>
          let device_list :=
            match device_list !! dev with
            | Some device =>
                <[dev := mk_work (schedule_stonith_command cmd (work_device device))
                           (active_pid device)]> device_list
            | None => device_list
            end in
          Some (device_list, (released ++ [Rescheduled cmd dev; Work_triggered dev])%list)
      | None =>
          let rc := if (0 <? rc)%Z then st_err_generic else rc in
          let bcast := broadcast_action (cmd_action cmd) in
          let route :=
            if bcast && negb stand_alone then Broadcast_notify
            else
              match origin_of cmd with
              | Some origin => To_origin origin
              | None => To_local_client
              end in
          Some (device_list, (released ++ [Replied cmd rc route])%list)
      end
  end.

(** [stonith_device_execute(device)] for the device registered as [id]. *)
Definition stonith_device_execute (device_list : gmap string device_work) (id : string)
  : option (gmap string device_work * list queue_event) :=
  match device_list !! id with
  | None => Some (device_list, [])
  | Some device =>
      if negb (active_pid device =? 0)%Z then Some (device_list, [])
      else
        match pending_ops (work_device device) with
        | [] => Some (device_list, [])
        | cmd :: rest =>
            let dev := set_pending_ops (work_device device) rest in
            let cmd := set_cmd_device cmd (Some (dev_id dev)) in
            let '(exec_rc, rc) := run_async dev cmd in
            if (0 <? exec_rc)%Z then
              Some (<[id := mk_work dev exec_rc]> device_list, [Started cmd])
            else
              match exec_child_done (<[id := mk_work dev 0]> device_list) cmd 0 false
                      (if (rc <? 0)%Z then rc else exec_rc) with
              | Some (device_list, events) => Some (device_list, Started cmd :: events)
              | None => None
              end
        end
  end.

(** The main loop around one device: the trigger runs
    [stonith_device_execute]; a child that was started ends with the signal,
    time-out flag and exit code [child_ends] gives for its command, and
    [exec_child_done] is called for it.  [turns] bounds the number of turns. *)
Fixpoint run_device (child_ends : async_command_t -> Z * bool * Z) (turns : nat)
    (device_list : gmap string device_work) (id : string)
  : option (gmap string device_work * list queue_event) :=
  match turns with
  | O => Some (device_list, [])
  | S turns' =>
      match stonith_device_execute device_list id with
      | None => None
      | Some (device_list, events) =>
          let finished :=
            match events with
            | [Started cmd] =>
                let '(signum, timedout, rc) := child_ends cmd in
                exec_child_done device_list cmd signum timedout rc
            | _ => Some (device_list, [])
            end in
          match finished with
          | None => None
          | Some (device_list, events') =>
              match run_device child_ends turns' device_list id with
              | None => None
              | Some (device_list, events'') =>
                  Some (device_list, (events ++ events' ++ events'')%list)
              end
          end
      end
  end.

End WorkQueue.

(** The commands started among some events, in order. *)
Definition started (events : list queue_event) : list async_command_t :=
  omap (fun e => match e with Started cmd => Some cmd | _ => None end) events.

(** The replies among some events, in order. *)
Definition replied (events : list queue_event) : list (async_command_t * Z) :=
  omap (fun e => match e with Replied cmd rc _ => Some (cmd, rc) | _ => None end) events.

(** Sample queue: D1 with two commands waiting, an agent that forks. *)
Definition sample_waiting : list async_command_t :=
  [sample_cmd; mk_cmd 2 "status" (Some "N3") None [] []].
Definition sample_queue : gmap string device_work :=
  {[ "D1" := mk_work (set_pending_ops sample_D1 sample_waiting) 0 ]}.
Definition sample_run_async (dev : stonith_device_t) (cmd : async_command_t) : Z * Z :=
  (4242%Z, 0%Z).
Definition sample_child_ends (cmd : async_command_t) : Z * bool * Z := (0%Z, false, 1%Z).
Definition sample_origin_of (cmd : async_command_t) : option string := None.

End Fencing.

(** ** The transition engine: fencing callbacks, graph trigger and abort *)
Module TE.
Import Str.

(** [enum crmd_fsa_state] (crmd_fsa.h) *)
Inductive crmd_fsa_state :=
| S_IDLE | S_ELECTION | S_INTEGRATION | S_FINALIZE_JOIN | S_NOT_DC
| S_POLICY_ENGINE | S_RECOVERY | S_RELEASE_DC | S_STARTING | S_PENDING
| S_STOPPING | S_TERMINATE | S_TRANSITION_ENGINE | S_HALT | S_ILLEGAL.

(** [enum transition_action] (crm/transition.h) *)
Inductive transition_action := tg_done | tg_stop | tg_restart | tg_shutdown.

(** [action_type_e] *)
Inductive action_type_e := action_type_pseudo | action_type_rsc | action_type_crm.

(** [enum transition_status] *)
Inductive transition_status :=
| transition_active | transition_pending | transition_complete
| transition_stopped | transition_terminated | transition_action_failed
| transition_failed.

Definition INFINITY : Z := 1000000%Z.
Definition CRM_OP_FENCE : string := "stonith".

(** [crm_action_t]: [task] is what [crm_element_value(action->xml,
    XML_LRM_ATTR_TASK)] finds. *)
Record crm_action_t := mk_action {
  action_id : Z;
  action_type : action_type_e;
  action_confirmed : bool;
  action_failed : bool;
  action_task : option string
}.

(** [synapse_t] *)
Record synapse_t := mk_synapse {
  synapse_id : Z;
  synapse_confirmed : bool;
  actions : list crm_action_t
}.

(** [crm_graph_t] *)
Record crm_graph_t := mk_graph {
  graph_id : Z;
  abort_priority : Z;
  completion_action : transition_action;
  complete : bool;
  batch_limit : Z;
  synapses : list synapse_t
}.

(** What the engine asks of the main loop, the controller and the system. *)
Inductive te_effect :=
| Trigger_transition          (* mainloop_set_trigger(transition_trigger) *)
| Trigger_stonith_reconnect   (* mainloop_set_trigger(stonith_reconnect) *)
| Timer_stop                  (* crm_timer_stop(transition_timer) *)
| Timer_start                 (* crm_timer_start(transition_timer) *)
| Fsa_input_I_PE_CALC         (* register_fsa_input(C_FSA_INTERNAL, I_PE_CALC, NULL) *)
| Notify_crmd                 (* notify_crmd(transition_graph) *)
| Log_crit (text : string)    (* crm_crit *)
| Qb_log_fini                 (* qb_log_fini() *)
| Reboot_halt_system.         (* reboot(RB_HALT_SYSTEM) *)

(** The globals of the controller these functions read and write. *)
Record te_state := mk_te {
  fsa_state : crmd_fsa_state;
  am_i_dc : bool;               (* AM_I_DC: R_THE_DC in fsa_input_register *)
  st_required : bool;           (* R_ST_REQUIRED in fsa_input_register *)
  stonith_connected : bool;     (* stonith_api->state != stonith_disconnected *)
  transition_graph : option crm_graph_t;
  fsa_pe_ref : option string;
  transition_timer_period_ms : Z;
  te_client_id : option string;
  fsa_our_uname : option string
}.

Definition set_graph (st : te_state) (g : option crm_graph_t) : te_state :=
  mk_te (fsa_state st) (am_i_dc st) (st_required st) (stonith_connected st) g
    (fsa_pe_ref st) (transition_timer_period_ms st) (te_client_id st) (fsa_our_uname st).
Definition set_fsa_pe_ref (st : te_state) (r : option string) : te_state :=
  mk_te (fsa_state st) (am_i_dc st) (st_required st) (stonith_connected st)
    (transition_graph st) r (transition_timer_period_ms st) (te_client_id st)
    (fsa_our_uname st).
Definition set_stonith_connected (st : te_state) (b : bool) : te_state :=
  mk_te (fsa_state st) (am_i_dc st) (st_required st) b (transition_graph st)
    (fsa_pe_ref st) (transition_timer_period_ms st) (te_client_id st) (fsa_our_uname st).
Definition set_te_client_id (st : te_state) (c : option string) : te_state :=
  mk_te (fsa_state st) (am_i_dc st) (st_required st) (stonith_connected st)
    (transition_graph st) (fsa_pe_ref st) (transition_timer_period_ms st) c
    (fsa_our_uname st).

Definition set_action_failed (a : crm_action_t) : crm_action_t :=
  mk_action (action_id a) (action_type a) (action_confirmed a) true (action_task a).
Definition set_actions (s : synapse_t) (l : list crm_action_t) : synapse_t :=
  mk_synapse (synapse_id s) (synapse_confirmed s) l.
Definition set_synapses (g : crm_graph_t) (l : list synapse_t) : crm_graph_t :=
  mk_graph (graph_id g) (abort_priority g) (completion_action g) (complete g)
    (batch_limit g) l.
Definition set_batch_limit (g : crm_graph_t) (limit : Z) : crm_graph_t :=
  mk_graph (graph_id g) (abort_priority g) (completion_action g) (complete g)
    limit (synapses g).
Definition set_complete (g : crm_graph_t) (c : bool) : crm_graph_t :=
  mk_graph (graph_id g) (abort_priority g) (completion_action g) c
    (batch_limit g) (synapses g).

(** The action behind the [j]-th link of the [i]-th synapse. *)
Definition get_action (g : crm_graph_t) (i j : nat) : option crm_action_t :=
  synapses g !! i ≫= fun s => actions s !! j.

(** A store through the pointer of that link. *)
Definition put_action (g : crm_graph_t) (i j : nat) (a : crm_action_t) : crm_graph_t :=
  match synapses g !! i with
  | Some s => set_synapses g (<[i := set_actions s (<[j := a]> (actions s))]> (synapses g))
  | None => g
  end.

(** The states in which the [switch] on [fsa_state] returns. *)
Definition abort_suppressed (s : crmd_fsa_state) : bool :=
  match s with
  | S_STARTING | S_PENDING | S_NOT_DC | S_HALT | S_ILLEGAL | S_STOPPING | S_TERMINATE => true
  | _ => false
  end.

Definition is_fence_task (a : crm_action_t) : bool :=
  match action_task a with
  | Some task => safe_str_eq (Some task) (Some CRM_OP_FENCE)
  | None => false
  end.

Definition is_crm (a : crm_action_t) : bool :=
  match action_type a with
  | action_type_crm => true
  | _ => false
  end.

Section WithTransitioner.

(** Functions of the transitioner library (lib/transitioner) and of the
    throttling code, which work on the graph the engine hands them. *)
Variable update_graph : crm_graph_t -> crm_action_t -> crm_graph_t.
Variable update_abort_priority :
  crm_graph_t -> Z -> transition_action -> string -> crm_graph_t.
Variable run_graph : crm_graph_t -> transition_status * crm_graph_t.
Variable throttle_get_total_job_limit : Z -> Z.

(** The inner loop of [fail_incompletable_stonith] over the actions of the
    [i]-th synapse, from its [j]-th link on, with [turns] links to go.  The
    graph is changed in place, by the loop and by [update_graph]; the second
    component is [last_action], as the id of that action (its xml is there,
    the task was read from it). *)
Fixpoint fail_synapse_actions (turns : nat) (g : crm_graph_t) (i j : nat)
    (last_action : option Z) : crm_graph_t * option Z :=
  match turns with
  | O => (g, last_action)
  | S turns' =>
      match get_action g i j with
      | None => (g, last_action)
      | Some action =>
          if negb (is_crm action) || action_confirmed action then
            fail_synapse_actions turns' g i (S j) last_action
          else if is_fence_task action then
            let action := set_action_failed action in
            let g := update_graph (put_action g i j action) action in
            fail_synapse_actions turns' g i (S j) (Some (action_id action))
          else fail_synapse_actions turns' g i (S j) last_action
      end
  end.

(** The outer loop, from the [i]-th synapse on. *)
Fixpoint fail_synapses (turns : nat) (g : crm_graph_t) (i : nat)
    (last_action : option Z) : crm_graph_t * option Z :=
  match turns with
  | O => (g, last_action)
  | S turns' =>
      match synapses g !! i with
      | None => (g, last_action)
      | Some synapse =>
          if synapse_confirmed synapse then fail_synapses turns' g (S i) last_action
          else
            let '(g, last_action) :=
              fail_synapse_actions (length (actions synapse)) g i 0 last_action in
            fail_synapses turns' g (S i) last_action
      end
  end.

(** [abort_transition_graph(abort_priority, abort_action, abort_text, reason,
    fn, line)]; [reason] only feeds the log. *)
Definition abort_transition_graph (st : te_state) (priority : Z)
    (abort_action : transition_action) (abort_text : string)
  : te_state * list te_effect :=
  match transition_graph st with
  | None => (st, [])
  | Some graph =>
      if abort_suppressed (fsa_state st) then (st, [])
      else
        let st := set_fsa_pe_ref st None in
        if complete graph then
          if (0 <? transition_timer_period_ms st)%Z then (st, [Timer_stop; Timer_start])
          else (st, [Fsa_input_I_PE_CALC])
        else
          (set_graph st (Some (update_abort_priority graph priority abort_action abort_text)),
           [Trigger_transition])
  end.

(** [fail_incompletable_stonith(transition_graph)] *)
Definition fail_incompletable_stonith (st : te_state) : te_state * list te_effect * bool :=
  match transition_graph st with
  | None => (st, [], false)
  | Some graph =>
      let '(graph, last_action) := fail_synapses (length (synapses graph)) graph 0 None in
      let st := set_graph st (Some graph) in
      match last_action with
      | Some _ =>
          let '(st, effects) := abort_transition_graph st INFINITY tg_restart "Stonith failure" in
          (st, effects, true)
      | None => (st, [], false)
      end
  end.

(** [tengine_stonith_connection_destroy] *)
Definition tengine_stonith_connection_destroy (st : te_state) : te_state * list te_effect :=
  let reconnect :=
    if st_required st then [Log_crit "Fencing daemon connection failed"; Trigger_stonith_reconnect]
    else [] in
  let st := set_stonith_connected st false in
  if am_i_dc st then
    let '(st, effects, _) := fail_incompletable_stonith st in
    (st, (reconnect ++ effects ++ [Trigger_transition])%list)
  else (st, reconnect).

(** [te_graph_trigger] *)
Definition te_graph_trigger (st : te_state) : te_state * list te_effect :=
  match transition_graph st with
  | None => (st, [])
  | Some graph =>
      if abort_suppressed (fsa_state st) then (st, [])
      else
        let finish (g : crm_graph_t) :=
          (set_graph st (Some (set_complete g true)), [Notify_crmd]) in
        if negb (complete graph) then
          let limit := batch_limit graph in
          let '(graph_rc, g) :=
            run_graph (set_batch_limit graph (throttle_get_total_job_limit limit)) in
          let g := set_batch_limit g limit in
          match graph_rc with
          | transition_active | transition_pending => (set_graph st (Some g), [])
          | _ => finish g
          end
        else finish graph
  end.

End WithTransitioner.

(** *** Fencing notifications *)

Definition pcmk_ok : Z := 0%Z.

(** The fields of [stonith_event_t] the notification callback reads. *)
Record stonith_event_t := mk_st_event {
  ev_result : Z;
  ev_target : option string;
  ev_operation : option string;
  ev_executioner : option string;
  ev_origin : option string;
  ev_device : option string;
  ev_client_origin : option string
}.

(** A controller process: running with its globals, halted with the
    machine, or gone with an exit code. *)
Inductive process :=
| Running (st : te_state)
| Halted
| Exited (code : Z).

Section Notify.

(** Whether the build has [RB_HALT_SYSTEM], and whether [reboot] comes back
    (it does so only when it failed). *)
Variable rb_halt_system_defined : bool.
Variable reboot_fails : bool.

(** ["%s.%d"] of [crm_system_name] and [getpid()]. *)
Variable client_id : string.

(** The rest of [tengine_stonith_notify], for a notification that does not
    end the process: fail-count reset, peer cache and CIB updates. *)
Variable notify_peer_fenced : te_state -> stonith_event_t -> te_state * list te_effect.

Definition tengine_stonith_notify (st : te_state) (st_event : option stonith_event_t)
  : process * list te_effect :=
  let st :=
    match te_client_id st with
    | None => set_te_client_id st (Some client_id)
    | Some _ => st
    end in
  match st_event with
  | None => (Running st, [])
  | Some ev =>
      if (ev_result ev =? pcmk_ok)%Z && crm_str_eq (ev_target ev) (fsa_our_uname st) true then
        let effects :=
          ([Log_crit "We were alegedly just fenced"; Qb_log_fini]
           ++ (if rb_halt_system_defined then [Reboot_halt_system] else []))%list in
        if rb_halt_system_defined && negb reboot_fails then (Halted, effects)
        else (Exited 100, effects)
      else
        let '(st, effects) := notify_peer_fenced st ev in
        (Running st, effects)
  end.

(** Notifications delivered one after the other; a process that halted or
    exited takes no more. *)
Fixpoint deliver (p : process) (events : list (option stonith_event_t))
  : process * list te_effect :=
  match p, events with
  | Running st, ev :: rest =>
      let '(p', effects) := tengine_stonith_notify st ev in
      let '(p'', effects') := deliver p' rest in
      (p'', (effects ++ effects')%list)
  | _, _ => (p, [])
  end.

End Notify.

(** *** Statements about the engine *)

(** A fencing action the engine still waits for: of type crm, with the
    fencing task, not confirmed. *)
Definition pending_fence (a : crm_action_t) : bool :=
  is_crm a && negb (action_confirmed a) && is_fence_task a.

(** Some unconfirmed synapse holds a fencing action the engine waits for. *)
Definition has_pending_fence (g : crm_graph_t) : bool :=
  existsb (fun s => negb (synapse_confirmed s) && existsb pending_fence (actions s))
          (synapses g).

(** Every fencing action the engine waits for in an unconfirmed synapse is
    marked failed. *)
Definition pending_fences_failed (g : crm_graph_t) : Prop :=
  forall s a,
    s ∈ synapses g -> synapse_confirmed s = false ->
    a ∈ actions s -> pending_fence a = true ->
    action_failed a = true.

(** What the transitioner may do to an action, a synapse, a graph: set flags,
    never clear them, and leave identities, kinds, tasks and the shape of the
    graph alone. *)
Definition action_progress (a a' : crm_action_t) : Prop :=
  action_id a' = action_id a /\
  action_type a' = action_type a /\
  action_task a' = action_task a /\
  (action_confirmed a = true -> action_confirmed a' = true) /\
  (action_failed a = true -> action_failed a' = true).

Definition synapse_progress (s s' : synapse_t) : Prop :=
  (synapse_confirmed s = true -> synapse_confirmed s' = true) /\
  Forall2 action_progress (actions s) (actions s').

Definition graph_progress (g g' : crm_graph_t) : Prop :=
  complete g' = complete g /\
  Forall2 synapse_progress (synapses g) (synapses g').

(** Modelled from the spec: [update_abort_priority] of the transitioner
    library is not among the sources.  "Updates the graph's abort priority
    monotonically (greater priority wins), records the action". *)
Definition spec_update_abort_priority (g : crm_graph_t) (priority : Z)
    (abort_action : transition_action) (abort_text : string) : crm_graph_t :=
  mk_graph (graph_id g) (Z.max (abort_priority g) priority) abort_action (complete g)
    (batch_limit g) (synapses g).

(** The action at link [j] of synapse [i], if it is a fencing action the
    engine waits for in an unconfirmed synapse, is marked failed. *)
Definition settled (g : crm_graph_t) (i j : nat) : Prop :=
  forall s a,
    synapses g !! i = Some s -> actions s !! j = Some a ->
    synapse_confirmed s = false -> pending_fence a = true ->
    action_failed a = true.

(** Sample transitioner: [update_graph] that confirms nothing further. *)
Definition sample_update_graph (g : crm_graph_t) (a : crm_action_t) : crm_graph_t := g.
Definition sample_run_graph (g : crm_graph_t) : transition_status * crm_graph_t :=
  (transition_active, g).
Definition sample_job_limit (limit : Z) : Z := limit.

(** Scenario S6: graph G with a pending fencing action F on N3, and a
    resource action behind it. *)
Definition sample_graph : crm_graph_t :=
  mk_graph 12 0 tg_done false 30
    [ mk_synapse 0 true [mk_action 1 action_type_rsc true false (Some "monitor")];
      mk_synapse 1 false [mk_action 2 action_type_crm false false (Some "stonith")];
      mk_synapse 2 false [mk_action 3 action_type_rsc false false (Some "start")] ].

Definition sample_te (state : crmd_fsa_state) (dc : bool) (g : crm_graph_t) : te_state :=
  mk_te state dc true true (Some g) (Some "pe-ref-7") 0 (Some "crmd.4242") (Some "node1").

Definition sample_self_fence : stonith_event_t :=
  mk_st_event 0 (Some "node1") (Some "st_notify_fence") (Some "node2") (Some "node2")
    (Some "D1") (Some "crmd.17").

Definition sample_notify_rest (st : te_state) (ev : stonith_event_t)
  : te_state * list te_effect := (st, []).

(** The action behind link [j] of synapse [i] is a fencing action the engine
    waits for: of type crm, with the task stonith (in any case of letters),
    not confirmed, in a synapse that is not confirmed. *)
Definition awaited (g : crm_graph_t) (i j : nat) : Prop :=
  exists s a,
    synapses g !! i = Some s /\ synapse_confirmed s = false /\
    actions s !! j = Some a /\
    action_type a = action_type_crm /\ action_confirmed a = false /\
    exists task, action_task a = Some task /\ lower task = "stonith".

(** The action behind that link is marked failed. *)
Definition failed_at (g : crm_graph_t) (i j : nat) : Prop :=
  exists a, get_action g i j = Some a /\ action_failed a = true.

(** No two actions of the graph have the same id. *)
Definition unique_action_ids (g : crm_graph_t) : Prop :=
  forall i j i' j' a b,
    get_action g i j = Some a -> get_action g i' j' = Some b ->
    action_id a = action_id b -> i = i' /\ j = j'.

(** [update_graph(graph, action)] confirms nothing but actions with the id
    of [action], and a synapse only once all its actions are confirmed. *)
Definition confirms_by_id (update_graph : crm_graph_t -> crm_action_t -> crm_graph_t) : Prop :=
  forall g a i j b b',
    get_action g i j = Some b -> get_action (update_graph g a) i j = Some b' ->
    action_id b <> action_id a -> action_confirmed b' = action_confirmed b.

Definition confirms_whole_synapses
    (update_graph : crm_graph_t -> crm_action_t -> crm_graph_t) : Prop :=
  forall g a i s s',
    synapses g !! i = Some s -> synapses (update_graph g a) !! i = Some s' ->
    synapse_confirmed s = false -> synapse_confirmed s' = true ->
    Forall (fun b => action_confirmed b = true) (actions s').

(** Sample transitioner, after what the library's [update_graph] does to the
    flags: in a synapse that is not confirmed the actions with the given id
    become confirmed, and the synapse with them once all its actions are. *)
Definition confirm_action (id : Z) (a : crm_action_t) : crm_action_t :=
  if (action_id a =? id)%Z
  then mk_action (action_id a) (action_type a) true (action_failed a) (action_task a)
  else a.
Definition confirm_synapse (id : Z) (s : synapse_t) : synapse_t :=
  if synapse_confirmed s then s
  else
    let l := List.map (confirm_action id) (actions s) in
    mk_synapse (synapse_id s) (forallb action_confirmed l) l.
Definition sample_confirming_update_graph (g : crm_graph_t) (a : crm_action_t) : crm_graph_t :=
  set_synapses g (List.map (confirm_synapse (action_id a)) (synapses g)).

(** *** Timers and the connection to the fencer *)

(** [enum timer_reason] *)
Inductive timer_reason := timeout_action | timeout_action_warn | timeout_abort.

(** [crm_action_timer_t], as far as [stop_te_timer] reads it; [source_id]
    is a [guint]. *)
Record crm_action_timer_t := mk_timer {
  source_id : N;
  reason : timer_reason
}.

(** [stop_te_timer]: the timer afterwards, the return value, and the
    sources handed to [g_source_remove]. *)
Definition stop_te_timer (timer : option crm_action_timer_t)
  : option crm_action_timer_t * bool * list N :=
  match timer with
  | None => (None, false, [])
  | Some t =>
      if negb (source_id t =? 0)%N
      then (Some (mk_timer 0 (reason t)), true, [source_id t])
      else (Some t, false, [])
  end.

(** What a call of [te_connect_stonith] did. *)
Record connect_result := mk_connect_result {
  attempts : nat;          (* calls of stonith_api->cmds->connect *)
  seconds_slept : nat;     (* calls of sleep(1) *)
  registered : bool;       (* the two calls of register_notification *)
  reconnect_set : bool     (* mainloop_set_trigger(stonith_reconnect) *)
}.

(** The [for] loop of [te_connect_stonith] with [turns] turns to go, and
    what follows it.  [connect lpc] is the return code of the attempt made
    in turn [lpc]; [user_data] says that the argument is not NULL. *)
Fixpoint connect_loop (connect : nat -> Z) (user_data : bool) (turns lpc slept : nat)
  : connect_result :=
  match turns with
  | O => mk_connect_result lpc slept false false
  | S turns' =>
      let slept := S slept in
      let rc := connect lpc in
      if (rc =? pcmk_ok)%Z then mk_connect_result (S lpc) slept true false
      else if user_data then mk_connect_result (S lpc) slept false true
      else connect_loop connect user_data turns' (S lpc) (S slept)
  end.

(** [te_connect_stonith] *)
Definition te_connect_stonith (st : te_state) (connect : nat -> Z) (user_data : bool)
  : connect_result :=
  if stonith_connected st then mk_connect_result 0 0 false false
  else connect_loop connect user_data 30 0 0.

(** Sample fencer: refuses the first two attempts. *)
Definition sample_connect (lpc : nat) : Z := if (lpc <? 2)%nat then (-107)%Z else 0%Z.

End TE.

(** ** The executor client library: the remote (TLS) transport *)
Module LrmdClient.
Import Str.

Definition INT_MAX : Z := 2147483647%Z.
Definition INT_MIN : Z := (-2147483648)%Z.

(** [x++] on an [int], two's complement. *)
Definition int_incr (x : Z) : Z := if (x =? INT_MAX)%Z then INT_MIN else (x + 1)%Z.

(** [x--] on an [int]. *)
Definition int_decr (x : Z) : Z := if (x =? INT_MIN)%Z then INT_MAX else (x - 1)%Z.

Definition pcmk_ok : Z := 0%Z.
Definition pcmk_rc_ok : Z := 0%Z.
Definition ENOTCONN : Z := 107%Z.

(** [enum pcmk__client_type] *)
Inductive client_type := pcmk__client_ipc | pcmk__client_tls | pcmk__client_unknown.

(** A message of the remote framing: its type, its id, and the call id of
    its payload. *)
Record remote_msg := mk_msg {
  msg_type : option string;      (* F_LRMD_REMOTE_MSG_TYPE *)
  remote_msg_id : Z;             (* F_LRMD_REMOTE_MSG_ID *)
  msg_call_id : Z                (* F_LRMD_CALLID *)
}.

(** What the client does that can be seen from outside. *)
Inductive client_effect :=
| Dispatch (msg : remote_msg)                 (* lrmd_dispatch_internal *)
| Err_outdated_remote_reply (reply_id : Z)    (* "Got outdated Pacemaker Remote reply %d" *)
| Err_outdated_reply (expected got : Z)       (* "Got outdated reply, expected id %d got id %d" *)
| Err_empty_msg_type
| Err_not_a_reply (got : string)
| Err_never_received
| Err_unable_to_receive
| Err_send_failed
| Err_unsupported_connection
| Set_notify_trigger.                         (* mainloop_set_trigger(native->process_notify) *)

(** [lrmd_private_t] and the file's [global_remote_msg_id]. *)
Record lrmd_private_t := mk_native {
  conn_type : client_type;
  tls_session : bool;            (* native->remote->tls_session != NULL *)
  expected_late_replies : Z;
  pending_notify : list remote_msg;
  process_notify : bool;         (* native->process_notify != NULL *)
  global_remote_msg_id : Z
}.

Definition set_late_replies (n : lrmd_private_t) (v : Z) : lrmd_private_t :=
  mk_native (conn_type n) (tls_session n) v (pending_notify n) (process_notify n)
    (global_remote_msg_id n).
Definition set_pending_notify (n : lrmd_private_t) (l : list remote_msg) : lrmd_private_t :=
  mk_native (conn_type n) (tls_session n) (expected_late_replies n) l (process_notify n)
    (global_remote_msg_id n).
Definition set_msg_id (n : lrmd_private_t) (v : Z) : lrmd_private_t :=
  mk_native (conn_type n) (tls_session n) (expected_late_replies n) (pending_notify n)
    (process_notify n) v.

(** [lrmd_tls_disconnect] *)
Definition lrmd_tls_disconnect (n : lrmd_private_t) : lrmd_private_t :=
  mk_native (conn_type n) false (expected_late_replies n) [] (process_notify n)
    (global_remote_msg_id n).

Definition remote_executor_connected (n : lrmd_private_t) : bool := tls_session n.

Definition is_type (m : remote_msg) (t : string) : bool :=
  pcmk__str_eq (msg_type m) (Some t) true.

(** [lrmd_tls_send]; [send_rc] is what [lrmd__remote_send_xml] returns. *)
Definition lrmd_tls_send (n : lrmd_private_t) (send_rc : Z)
  : lrmd_private_t * Z * list client_effect :=
  let id := int_incr (global_remote_msg_id n) in
  let id := if (id <=? 0)%Z then 1%Z else id in
  let n := set_msg_id n id in
  if negb (send_rc =? pcmk_rc_ok)%Z then (lrmd_tls_disconnect n, (- ENOTCONN)%Z, [Err_send_failed])
  else (n, pcmk_ok, []).


(** The [while (xml)] loop of [lrmd_tls_dispatch] over the messages the
    buffer yields. *)
Fixpoint dispatch_messages (n : lrmd_private_t) (msgs : list remote_msg)
  : lrmd_private_t * list client_effect :=
  match msgs with
  | [] => (n, [])
  | xml :: rest =>
      let '(n, effects) :=
        if is_type xml "notify" then (n, [Dispatch xml])
        else if is_type xml "reply" then
          if (0 <? expected_late_replies n)%Z
          then (set_late_replies n (int_decr (expected_late_replies n)), [])
          else (n, [Err_outdated_remote_reply (msg_call_id xml)])
        else (n, []) in
      let '(n, effects') := dispatch_messages n rest in
      (n, (effects ++ effects')%list)
  end.

(** [lrmd_tls_dispatch]: [msgs] are the messages found, [read_rc] the
    outcome of looking for them. *)
Definition lrmd_tls_dispatch (n : lrmd_private_t) (msgs : list remote_msg) (read_rc : Z)
  : lrmd_private_t * Z * list client_effect :=
  if negb (remote_executor_connected n) then (n, 0%Z, [])
  else
    let notifies := List.map Dispatch (pending_notify n) in
    let n := set_pending_notify n [] in
    let '(n, effects) := dispatch_messages n msgs in
    if (read_rc =? ENOTCONN)%Z
    then (lrmd_tls_disconnect n, 0%Z, (notifies ++ effects)%list)
    else (n, 1%Z, (notifies ++ effects)%list).

(** What an attempt to get the next message ends in while a reply is
    awaited. *)
Inductive incoming :=
| Message (xml : remote_msg)
| Timed_out            (* no time left before a message was complete *)
| Nothing_read         (* the read gave no complete message *)
| Lost (xml : remote_msg).  (* a message, but the read said ENOTCONN *)

(** The [while (!xml)] loop of [lrmd_tls_recv_reply]: the reply if one came,
    the [disconnected] flag, and the state. *)
Fixpoint lrmd_tls_recv_reply (n : lrmd_private_t) (expected_reply_id : Z)
    (stream : list incoming)
  : option remote_msg * bool * lrmd_private_t * list client_effect :=
  match stream with
  | [] | Timed_out :: _ => (None, true, n, [Err_never_received])
  | Nothing_read :: _ => (None, true, n, [Err_unable_to_receive])
  | Lost _ :: _ => (None, true, n, [])
  | Message xml :: rest =>
      let continue (n : lrmd_private_t) (effects : list client_effect) :=
        let '(reply, disconnected, n, effects') :=
          lrmd_tls_recv_reply n expected_reply_id rest in
        (reply, disconnected, n, (effects ++ effects')%list) in
      match msg_type xml with
      | None => continue n [Err_empty_msg_type]
      | Some t =>
          if is_type xml "notify" then
            continue (set_pending_notify n (pending_notify n ++ [xml])%list)
                     (if process_notify n then [Set_notify_trigger] else [])
          else if negb (is_type xml "reply") then continue n [Err_not_a_reply t]
          else if negb (remote_msg_id xml =? expected_reply_id)%Z then
            if (0 <? expected_late_replies n)%Z
            then continue (set_late_replies n (int_decr (expected_late_replies n))) []
            else continue n [Err_outdated_reply expected_reply_id (remote_msg_id xml)]
          else (Some xml, false, n, [])
      end
  end.

(** *** Statements about late replies *)




(** Sample connection of scenario S4: one late reply expected, request 17
    the last one sent. *)
Definition sample_native (late : Z) : lrmd_private_t :=
  mk_native pcmk__client_tls true late [] true 17.
Definition sample_reply (id : Z) : remote_msg := mk_msg (Some "reply") id 5.

(** *** Requests that wait for their reply *)

Definition ECOMM : Z := 70%Z.

(** What [lrmd_tls_send_recv] adds to the effects of the functions it
    calls: its own two error lines. *)
Inductive send_recv_effect :=
| Transport (e : client_effect)
| Err_disconnected_waiting (request_id : Z)
| Err_no_reply (request_id : Z).

(** [lrmd_tls_send_recv]; [send_rc] is what [lrmd__remote_send_xml] returns,
    [stream] what the connection yields while the reply is awaited.  The
    result is the state, the return code, the reply handed back, and the
    effects. *)
Definition lrmd_tls_send_recv (n : lrmd_private_t) (send_rc : Z) (stream : list incoming)
  : lrmd_private_t * Z * option remote_msg * list send_recv_effect :=
  if negb (remote_executor_connected n) then (n, (-1)%Z, None, [])
  else
    let '(n, rc, effects) := lrmd_tls_send n send_rc in
    if (rc <? 0)%Z then (n, rc, None, List.map Transport effects)
    else
      let '(xml, disconnected, n, effects') :=
        lrmd_tls_recv_reply n (global_remote_msg_id n) stream in
      let effects := List.map Transport (effects ++ effects')%list in
      if disconnected then
        (lrmd_tls_disconnect n, (- ENOTCONN)%Z, xml,
         (effects ++ [Err_disconnected_waiting (global_remote_msg_id n)])%list)
      else
        match xml with
        | None =>
            (n, (- ECOMM)%Z, xml, (effects ++ [Err_no_reply (global_remote_msg_id n)])%list)
        | Some _ => (n, rc, xml, effects)
        end.

(** [lrmd_poll] on the remote transport: [ready_rc] is what
    [pcmk__remote_ready] returns, [legacy] is [pcmk_rc2legacy]. *)
Definition ETIME : Z := 62%Z.

Definition lrmd_poll (legacy : Z -> Z) (n : lrmd_private_t) (ipc_ready ready_rc : Z)
  : Z * list client_effect :=
  match conn_type n with
  | pcmk__client_ipc => (ipc_ready, [])
  | pcmk__client_tls =>
      match pending_notify n with
      | _ :: _ => (1%Z, [])
      | [] =>
          if (ready_rc =? pcmk_rc_ok)%Z then (1%Z, [])
          else if (ready_rc =? ETIME)%Z then (0%Z, [])
          else (legacy ready_rc, [])
      end
  | pcmk__client_unknown => (0%Z, [Err_unsupported_connection])
  end.

(** Sample traffic: a notification ahead of the reply to request 18. *)
Definition sample_notify : remote_msg := mk_msg (Some "notify") 0 0.

(** Messages that do not end the wait for the reply [id]. *)
Definition passes_by (id : Z) (m : remote_msg) : bool :=
  negb (is_type m "reply" && (remote_msg_id m =? id)%Z).

End LrmdClient.

(** ** The cluster layer: the queue of outgoing CPG messages *)
Module Cpg.

Definition pcmk_ok : Z := 0%Z.

(** [CS_OK] of corosync's [cs_error_t]. *)
Definition CS_OK : Z := 1%Z.

Definition CS_SEND_MAX : nat := 200.

(** A value as an [int], and as a [uint32_t]. *)
Definition to_int (x : Z) : Z := ((x + 2147483648) mod 4294967296 - 2147483648)%Z.
Definition to_uint32 (x : Z) : Z := (x mod 4294967296)%Z.

(** A [struct iovec] to send: its bytes. *)
Definition iovec := string.

(** The file's globals [cs_message_queue] and [cs_message_timer], and the
    static counter of [crm_cs_flush]. *)
Record cs_state := mk_cs {
  cs_message_queue : list iovec;
  cs_message_timer : Z;
  last_sent : Z
}.

Inductive cs_effect :=
| Mcast (iov : iovec) (rc : Z)       (* cpg_mcast_joined of the handle, CPG_TYPE_AGREED, iov, 1 *)
| Timeout_add (delay_ms : Z).        (* g_timeout_add(delay_ms, crm_cs_flush_cb, data) *)

Section Flush.

(** What [cpg_mcast_joined] returns for a message, at the time of the
    call. *)
Variable cpg_mcast_joined : iovec -> Z.

(** The [while] loop of [crm_cs_flush], with [budget] turns left before
    [sent] reaches [CS_SEND_MAX]: the queue, [sent], [rc] and [last_sent]
    after it, and the calls made. *)
Fixpoint send_loop (budget : nat) (queue : list iovec) (sent : nat) (rc : Z) (last : Z)
  : list iovec * nat * Z * Z * list cs_effect :=
  match budget, queue with
  | S budget', iov :: rest =>
      let rc := cpg_mcast_joined iov in
      if negb (rc =? CS_OK)%Z then (queue, sent, rc, last, [Mcast iov rc])
      else
        let '(queue, sent, rc', last, calls) :=
          send_loop budget' rest (S sent) rc (to_uint32 (last + 1)) in
        (queue, sent, rc', last, Mcast iov rc :: calls)
  | _, _ => (queue, sent, rc, last, [])
  end.

(** [crm_cs_flush(data)]: [handle] is [*data], [source] the id
    [g_timeout_add] hands out if it is called.  The log lines are left
    out. *)
Definition crm_cs_flush (handle : Z) (source : Z) (st : cs_state)
  : cs_state * Z * list cs_effect :=
  if (handle =? 0)%Z then (st, pcmk_ok, [])
  else
    let queue_len := to_int (Z.of_nat (length (cs_message_queue st))) in
    if negb (cs_message_timer st =? 0)%Z then (st, pcmk_ok, [])
    else
      let '(queue, sent, rc, last, calls) :=
        send_loop CS_SEND_MAX (cs_message_queue st) 0 0%Z (last_sent st) in
      let queue_len := to_int (queue_len - Z.of_nat sent) in
      match queue with
      | [] => (mk_cs queue (cs_message_timer st) last, rc, calls)
      | _ :: _ =>
          let delay_ms :=
            if negb (rc =? CS_OK)%Z
            then to_uint32 (Z.min 1000 (to_int (Z.of_nat CS_SEND_MAX + to_int (10 * queue_len))))
            else 100%Z in
          (mk_cs queue source last, rc, (calls ++ [Timeout_add delay_ms])%list)
      end.

(** [crm_cs_flush_cb] *)
Definition crm_cs_flush_cb (handle : Z) (source : Z) (st : cs_state)
  : cs_state * list cs_effect :=
  let st := mk_cs (cs_message_queue st) 0 (last_sent st) in
  let '(st, _, calls) := crm_cs_flush handle source st in
  (st, calls).

(** [send_cpg_iov] *)
Definition send_cpg_iov (handle : Z) (source : Z) (iov : iovec) (st : cs_state)
  : cs_state * list cs_effect :=
  let st := mk_cs (cs_message_queue st ++ [iov])%list (cs_message_timer st) (last_sent st) in
  let '(st, _, calls) := crm_cs_flush handle source st in
  (st, calls).

End Flush.

(** What happens to the queue: a message is handed over for sending, or the
    timer of the queue fires.  Each comes with the state of the outside at
    that time: the handle, the answers of [cpg_mcast_joined], and the id the
    next timer gets. *)
Inductive cs_op :=
| Send_iov (iov : iovec)
| Timer_fires.

Definition outside := (Z * (iovec -> Z) * Z)%type.

Fixpoint run_ops (ops : list (cs_op * outside)) (st : cs_state) : cs_state * list cs_effect :=
  match ops with
  | [] => (st, [])
  | (op, (handle, mcast, source)) :: rest =>
      let '(st, calls) :=
        match op with
        | Send_iov iov => send_cpg_iov mcast handle source iov st
        | Timer_fires => crm_cs_flush_cb mcast handle source st
        end in
      let '(st, calls') := run_ops rest st in
      (st, (calls ++ calls')%list)
  end.

(** The messages the cluster accepted, in the order of the calls. *)
Definition accepted (calls : list cs_effect) : list iovec :=
  omap (fun e => match e with
                 | Mcast iov rc => if (rc =? CS_OK)%Z then Some iov else None
                 | Timeout_add _ => None
                 end) calls.

(** The messages handed over for sending, in order. *)
Definition handed_over (ops : list (cs_op * outside)) : list iovec :=
  omap (fun o => match fst o with Send_iov iov => Some iov | Timer_fires => None end) ops.

(** Sample cluster that takes everything but the message "b". *)
Definition sample_mcast (iov : iovec) : Z := if String.eqb iov "b" then 6%Z else CS_OK.
Definition sample_cs : cs_state := mk_cs ["a"; "b"; "c"] 0 41.

End Cpg.

(** ** The fencing client library: the arguments handed to an agent *)
Module StClient.
Import Str.

Definition CRM_META : string := "CRM_meta".

(** Names from crm/stonith-ng-internal.h. *)
Definition STONITH_ATTR_HOSTARG : string := "pcmk_host_argument".
Definition STONITH_ATTR_ARGMAP : string := "pcmk_arg_map".

Definition LF : ascii := "010"%char.

(** [append_arg], a [GHFunc]: [user_data] points to the text [*args], which
    is NULL before the first line.  [sprintf] writes ["%s=%s\n"] behind what
    is there, key and value as they are. *)
Definition append_arg (key value : option string) (args : option string) : option string :=
  match key, value with
  | Some key, Some value =>
      if strstr key "pcmk_" then args
      else if strstr key CRM_META then args
      else if safe_str_eq (Some key) (Some "crm_feature_set") then args
      else Some (default "" args ++ key ++ "=" ++ value ++ String LF "")
  | _, _ => args
  end.

(** [append_const_arg]: [crm_strdup] of a NULL pointer is NULL. *)
Definition append_const_arg (key value : option string) (args : option string)
  : option string :=
  append_arg key value args.

(** [isalpha] and [isspace] in the C locale. *)
Definition isalpha (c : ascii) : bool :=
  let n := nat_of_ascii c in
  ((65 <=? n)%nat && (n <=? 90)%nat) || ((97 <=? n)%nat && (n <=? 122)%nat).
Definition isspace (c : ascii) : bool :=
  let n := nat_of_ascii c in
  (n =? 32)%nat || ((9 <=? n)%nat && (n <=? 13)%nat).

(** [snprintf(buffer, 511, ...)]: at most 510 bytes of the text. *)
Fixpoint truncate (n : nat) (s : string) : string :=
  match n, s with
  | S n', String c r => String c (truncate n' r)
  | _, _ => EmptyString
  end.

Section WithLibrary.

(** [STONITH_ATTR_ACTION_OP] (stonith-ng-internal.h), and [crm_meta_name]
    of libcrmcommon. *)
Variable STONITH_ATTR_ACTION_OP : string.
Variable crm_meta_name : string -> string.

Record map_state := mk_map_state {
  ms_name : option string;
  ms_last : nat;
  ms_args : option string
}.

(** One turn of the loop of [append_host_specific_args]; the flag says that
    the loop was left with [break]. *)
Definition map_step (victim : string) (map : list ascii) (params : gmap string string)
    (lpc : nat) (st : map_state) : map_state * bool :=
  let c := Fencing.char_at map lpc in
  if isalpha c then (st, false)
  else if Ascii.eqb c "=" || Ascii.eqb c ":" then
    (mk_map_state (Some (Fencing.copy_token map (ms_last st) lpc)) (lpc + 1) (ms_args st),
     false)
  else if Ascii.eqb c Fencing.NUL || Ascii.eqb c "," || isspace c then
    let param := Fencing.copy_token map (ms_last st) lpc in
    let last := (lpc + 1)%nat in
    match ms_name st with
    | None => (mk_map_state None last (ms_args st), false)
    | Some name =>
        let value :=
          if safe_str_eq (Some param) (Some "uname") then Some victim
          else params !! crm_meta_name param in
        let args :=
          match value with
          | Some v => append_const_arg (Some name) (Some v) (ms_args st)
          | None => ms_args st
          end in
        (mk_map_state None last args, Ascii.eqb c Fencing.NUL)
    end
  else (st, false).

(** [for (; lpc < max + 1; lpc++)], with [turns] turns left. *)
Fixpoint map_loop (victim : string) (map : list ascii) (params : gmap string string)
    (turns lpc : nat) (st : map_state) : map_state :=
  match turns with
  | O => st
  | S turns' =>
      let '(st', stop) := map_step victim map params lpc st in
      if stop then st' else map_loop victim map params turns' (S lpc) st'
  end.

(** [append_host_specific_args] *)
Definition append_host_specific_args (victim : string) (map : option string)
    (params : gmap string string) (args : option string) : option string :=
  match map with
  | None => append_const_arg (Some "port") (Some victim) args
  | Some map =>
      let chars := list_ascii_of_string map in
      let max := Fencing.strlen chars in
      ms_args (map_loop victim chars params (max + 1) 0 (mk_map_state None 0 args))
  end.

(** [make_args]; the action is not NULL.  The result is the text handed to
    the agent on its standard input, NULL when nothing was written. *)
Definition make_args (action : string) (victim : option string)
    (device_args port_map : option (gmap string string)) : option string :=
  let arg_list :=
    match device_args with
    | Some d => map_fold (fun key value args => append_arg (Some key) (Some value) args) None d
    | None => None
    end in
  let value :=
    match device_args with
    | Some d => d !! truncate 510 ("pcmk_" ++ action ++ "_action")
    | None => None
    end in
  let value :=
    match value, device_args with
    | None, Some d => d !! truncate 510 ("pcmk_" ++ action ++ "_cmd")
    | _, _ => value
    end in
  let action :=
    match value with
    | Some v => v
    | None => action
    end in
  let arg_list := append_const_arg (Some STONITH_ATTR_ACTION_OP) (Some action) arg_list in
  match victim, device_args with
  | Some victim, Some d =>
      let alias :=
        match port_map with
        | Some m => match m !! victim with Some a => a | None => victim end
        | None => victim
        end in
      let arg_list := append_const_arg (Some "nodename") (Some victim) arg_list in
      let '(param, value, arg_list) :=
        match d !! STONITH_ATTR_HOSTARG with
        | None =>
            match d !! STONITH_ATTR_ARGMAP with
            | None => (Some "port", d !! "port", arg_list)
            | Some map => (None, Some map, append_host_specific_args alias (Some map) d arg_list)
            end
        | Some param =>
            if safe_str_eq (Some param) (Some "none") then (Some param, Some param, arg_list)
            else (Some param, d !! param, arg_list)
        end in
      match value with
      | None => append_const_arg param (Some alias) arg_list
      | Some v =>
          if safe_str_eq (Some v) (Some "dynamic")
          then append_const_arg param (Some alias) arg_list
          else arg_list
      end
  | _, _ => arg_list
  end.

End WithLibrary.

(** *** Statements about the text *)

(** The text has the byte [c] somewhere. *)
Fixpoint has_char (c : ascii) (s : string) : bool :=
  match s with
  | EmptyString => false
  | String d r => Ascii.eqb d c || has_char c r
  end.

(** A string without line feed, and a name: without line feed and [=]. *)
Definition one_line (s : string) : Prop := has_char LF s = false.

(** The lines of a text, as an agent reads them from its standard input:
    each ends before a line feed; what follows the last line feed is a line
    when it is not empty. *)
Fixpoint text_lines (s : string) : list string :=
  match s with
  | EmptyString => []
  | String c r =>
      if Ascii.eqb c LF then EmptyString :: text_lines r
      else match text_lines r with
           | [] => [String c EmptyString]
           | line :: rest => String c line :: rest
           end
  end.






(** A text that is empty or ends with a line feed, as everything
    [append_arg] leaves behind. *)
Definition terminated (s : string) : Prop :=
  s = "" \/ exists t, s = t ++ String LF "".


(** Sample device: an IPMI device with a host map and an action override. *)
Definition sample_crm_meta_name (param : string) : string := CRM_META ++ "_" ++ param.
Definition sample_device_args : gmap string string :=
  {[ "ipaddr" := "10.0.0.7"; "pcmk_reboot_action" := "cycle"; "port" := "3";
     "pcmk_host_list" := "node1 node2"; "crm_feature_set" := "3.0.5" ]}.
Definition sample_port_map : gmap string string := {[ "node2" := "2" ]}.

End StClient.

(** * Properties *)

(** ** Facts about the string helpers *)
Module StrFacts.
Import Str.

Lemma streq_true a b : streq a b = true <-> a = b.
Proof. unfold streq. apply String.eqb_eq. Qed.

Lemma streq_refl a : streq a a = true.
Proof. apply streq_true. reflexivity. Qed.

Lemma strcaseeq_refl a : strcaseeq a a = true.
Proof. unfold strcaseeq. apply String.eqb_refl. Qed.

Lemma strcaseeq_sym a b : strcaseeq a b = strcaseeq b a.
Proof. unfold strcaseeq. apply String.eqb_sym. Qed.

Lemma strcaseeq_trans a b c :
  strcaseeq a b = true -> strcaseeq b c = true -> strcaseeq a c = true.
Proof.
  unfold strcaseeq. rewrite !String.eqb_eq. congruence.
Qed.

(** [String.prefix] and [strstr] by what they find. *)
Lemma prefix_spec needle hay :
  String.prefix needle hay = true <-> exists rest, hay = needle ++ rest.
Proof.
  revert needle. induction hay as [|d hay IH]; intros [|c needle]; simpl.
  - split; [intros _; exists ""; reflexivity | reflexivity].
  - split; [discriminate | intros (rest & [=])].
  - split; [intros _; exists (String d hay); reflexivity | reflexivity].
  - destruct (ascii_dec c d) as [->|Hne].
    + rewrite IH. split; intros (rest & H); exists rest.
      * rewrite H. reflexivity.
      * injection H as ->. reflexivity.
    + split; [discriminate|]. intros (rest & [= H _]). congruence.
Qed.

Lemma strstr_spec hay needle :
  strstr hay needle = true <-> exists before after, hay = before ++ needle ++ after.
Proof.
  induction hay as [|c hay IH]; cbn [strstr].
  - rewrite orb_false_r, prefix_spec. split.
    + intros (rest & H). exists "", rest. exact H.
    + intros ([|d before] & after & H); [exists after; exact H | discriminate].
  - rewrite orb_true_iff, IH, prefix_spec. split.
    + intros [(rest & H) | (before & after & H)].
      * exists "", rest. exact H.
      * exists (String c before), after. rewrite H. reflexivity.
    + intros ([|d before] & after & H).
      * left. exists after. exact H.
      * right. injection H as -> H. exists before, after. exact H.
Qed.

Lemma pcmk__str_eq_refl s ci : pcmk__str_eq s s ci = true.
Proof.
  destruct s as [a|]; simpl; [|reflexivity].
  destruct ci; [apply strcaseeq_refl | apply streq_refl].
Qed.

Lemma pcmk__str_eq_sym s1 s2 ci : pcmk__str_eq s1 s2 ci = pcmk__str_eq s2 s1 ci.
Proof.
  destruct s1, s2; simpl; try reflexivity.
  destruct ci; [apply strcaseeq_sym | apply String.eqb_sym].
Qed.

Lemma pcmk__str_eq_trans s1 s2 s3 ci :
  pcmk__str_eq s1 s2 ci = true -> pcmk__str_eq s2 s3 ci = true ->
  pcmk__str_eq s1 s3 ci = true.
Proof.
  destruct s1, s2, s3; simpl; try congruence.
  destruct ci.
  - apply strcaseeq_trans.
  - unfold streq. rewrite !String.eqb_eq. congruence.
Qed.

End StrFacts.

(** ** The resource history cache *)
Module ExecdFacts.
Import Str StrFacts Execd.


Lemma recurring_op_matches_refl a : recurring_op_matches a a = true.
Proof.
  unfold recurring_op_matches.
  rewrite N.eqb_refl, !pcmk__str_eq_refl. reflexivity.
Qed.

(** Operations with the same resource id, task and interval match. *)
Lemma same_triple_matches a b :
  rsc_id a = rsc_id b -> op_type a = op_type b -> interval_ms a = interval_ms b ->
  recurring_op_matches a b = true.
Proof.
  intros Hr Ht Hi. unfold recurring_op_matches.
  rewrite Hr, Ht, Hi, N.eqb_refl, !pcmk__str_eq_refl. reflexivity.
Qed.

Lemma recurring_op_matches_sym a b :
  recurring_op_matches a b = recurring_op_matches b a.
Proof.
  unfold recurring_op_matches.
  rewrite (N.eqb_sym (interval_ms a)).
  rewrite (pcmk__str_eq_sym (Some (rsc_id a))), (pcmk__str_eq_sym (op_type a)).
  reflexivity.
Qed.

Lemma recurring_op_matches_trans a b c :
  recurring_op_matches a b = true -> recurring_op_matches b c = true ->
  recurring_op_matches a c = true.
Proof.
  unfold recurring_op_matches. rewrite !andb_true_iff, !N.eqb_eq.
  intros [[Hi Hr] Ht] [[Hi' Hr'] Ht']. repeat split.
  - congruence.
  - eapply pcmk__str_eq_trans; eassumption.
  - eapply pcmk__str_eq_trans; eassumption.
Qed.

Lemma recurring_distinct_unique l : recurring_distinct l <-> recurring_unique l.
Proof.
  induction l as [|x l IH]; simpl.
  - split; [|tauto]. intros _ i j a b Hi. rewrite lookup_nil in Hi. discriminate.
  - split.
    + intros [Hx Hl] i j a b Hi Hj Hm.
      rewrite Forall_forall in Hx.
      destruct i as [|i], j as [|j]; simpl in *.
      * reflexivity.
      * injection Hi as ->. apply list_elem_of_lookup_2 in Hj.
        rewrite (Hx _ Hj) in Hm. discriminate.
      * injection Hj as ->. apply list_elem_of_lookup_2 in Hi.
        rewrite recurring_op_matches_sym, (Hx _ Hi) in Hm. discriminate.
      * f_equal. apply IH in Hl. eapply Hl; eassumption.
    + intros Hu. split.
      * rewrite Forall_forall. intros b Hb.
        apply list_elem_of_lookup_1 in Hb as [j Hj].
        destruct (recurring_op_matches x b) eqn:Hm; [|reflexivity].
        specialize (Hu 0%nat (S j) x b eq_refl Hj Hm). discriminate.
      * apply IH. intros i j a b Hi Hj Hm.
        specialize (Hu (S i) (S j) a b Hi Hj Hm). congruence.
Qed.

Lemma remove_first_match_incl op l b :
  b ∈ fst (remove_first_match op l) -> b ∈ l.
Proof.
  induction l as [|x l IH]; simpl; [tauto|].
  destruct (recurring_op_matches op x).
  - simpl. rewrite elem_of_cons. tauto.
  - destruct (remove_first_match op l) as [l' f]. simpl in *.
    rewrite !elem_of_cons. intros [->|Hb]; [tauto | right; apply IH, Hb].
Qed.

Lemma remove_first_match_distinct op l :
  recurring_distinct l -> recurring_distinct (fst (remove_first_match op l)).
Proof.
  induction l as [|x l IH]; simpl; [tauto|].
  intros [Hx Hl]. destruct (recurring_op_matches op x); [exact Hl|].
  specialize (IH Hl). pose proof (remove_first_match_incl op l) as Hincl.
  destruct (remove_first_match op l) as [l' f]. simpl in *.
  split; [|exact IH].
  rewrite Forall_forall in *. intros b Hb. apply Hx, Hincl, Hb.
Qed.

(** Once no two entries match each other, deleting the first match of [op]
    deletes every match of [op]. *)
Lemma remove_first_match_filter op l :
  recurring_distinct l ->
  fst (remove_first_match op l)
  = List.filter (fun e => negb (recurring_op_matches op e)) l.
Proof.
  induction l as [|x l IH]; simpl; [reflexivity|].
  intros [Hx Hl]. destruct (recurring_op_matches op x) eqn:Hm; simpl.
  - symmetry. apply forallb_filter_id. rewrite forallb_forall.
    rewrite Forall_forall in Hx. intros b Hb. apply list_elem_of_In in Hb.
    destruct (recurring_op_matches op b) eqn:Hb'; [|reflexivity].
    rewrite recurring_op_matches_sym in Hm.
    pose proof (Hx _ Hb) as Hxb.
    rewrite (recurring_op_matches_trans _ _ _ Hm Hb') in Hxb. discriminate.
  - rewrite <- (IH Hl). destruct (remove_first_match op l). reflexivity.
Qed.

Lemma remove_first_match_clears op l :
  recurring_distinct l ->
  Forall (fun b => recurring_op_matches op b = false) (fst (remove_first_match op l)).
Proof.
  intros Hl. rewrite (remove_first_match_filter op l Hl).
  rewrite Forall_forall. intros b Hb. apply list_elem_of_In, filter_In in Hb as [_ Hb].
  destruct (recurring_op_matches op b); [discriminate | reflexivity].
Qed.

Lemma history_remove_recurring_op_list entry op :
  recurring_op_list (fst (history_remove_recurring_op entry op))
  = fst (remove_first_match op (recurring_op_list entry)).
Proof.
  unfold history_remove_recurring_op.
  destruct (remove_first_match op (recurring_op_list entry)). reflexivity.
Qed.


Lemma foreach_copy_instance_keys_lookup (table acc : gmap string string) key :
  g_hash_table_foreach table copy_instance_keys acc !! key
  = if is_meta_key key then acc !! key
    else match table !! key with Some v => Some v | None => acc !! key end.
Proof.
  unfold g_hash_table_foreach.
  apply (map_fold_weak_ind
           (fun r (m : gmap string string) =>
              r !! key = if is_meta_key key then acc !! key
                         else match m !! key with Some v => Some v | None => acc !! key end)).
  - rewrite lookup_empty. destruct (is_meta_key key); reflexivity.
  - intros i x m r Hi IH. unfold copy_instance_keys.
    destruct (decide (i = key)) as [->|Hne].
    + rewrite lookup_insert_eq. destruct (is_meta_key key); simpl.
      * exact IH.
      * apply lookup_insert_eq.
    + rewrite (lookup_insert_ne m) by exact Hne.
      destruct (negb (is_meta_key i)); [rewrite lookup_insert_ne by exact Hne|]; exact IH.
Qed.

Lemma foreach_copy_meta_keys_lookup (table acc : gmap string string) key :
  g_hash_table_foreach table copy_meta_keys acc !! key
  = if is_meta_key key
    then match table !! key with Some v => Some v | None => acc !! key end
    else acc !! key.
Proof.
  unfold g_hash_table_foreach.
  apply (map_fold_weak_ind
           (fun r (m : gmap string string) =>
              r !! key = if is_meta_key key
                         then match m !! key with Some v => Some v | None => acc !! key end
                         else acc !! key)).
  - rewrite lookup_empty. destruct (is_meta_key key); reflexivity.
  - intros i x m r Hi IH. unfold copy_meta_keys.
    destruct (decide (i = key)) as [->|Hne].
    + rewrite lookup_insert_eq. destruct (is_meta_key key); simpl.
      * apply lookup_insert_eq.
      * exact IH.
    + rewrite (lookup_insert_ne m) by exact Hne.
      destruct (is_meta_key i); [rewrite lookup_insert_ne by exact Hne|]; exact IH.
Qed.

(** With cached stop parameters the table of a stop has the meta attributes
    of the request and the instance attributes of the cache. *)
Lemma stop_op_params_cached lrm_state rsc_id requested entry cached key :
  resource_history lrm_state !! rsc_id = Some entry ->
  stop_params entry = Some cached ->
  stop_op_params (Some lrm_state) rsc_id requested !! key
  = if is_meta_key key then requested !! key else cached !! key.
Proof.
  intros He Hc. unfold stop_op_params. rewrite He, Hc.
  rewrite foreach_copy_instance_keys_lookup, foreach_copy_meta_keys_lookup.
  rewrite lookup_empty.
  destruct (is_meta_key key).
  - destruct (requested !! key); reflexivity.
  - destruct (cached !! key); reflexivity.
Qed.

Lemma stop_op_params_uncached lrm_state rsc_id requested :
  (forall entry, resource_history lrm_state !! rsc_id = Some entry ->
                 stop_params entry = None) ->
  stop_op_params (Some lrm_state) rsc_id requested = requested.
Proof.
  intros Hn. unfold stop_op_params.
  destruct (resource_history lrm_state !! rsc_id) as [e|]; [|reflexivity].
  rewrite (Hn e eq_refl). reflexivity.
Qed.

Lemma strcaseeq_lower a b : strcaseeq a b = true -> lower a = lower b.
Proof. unfold strcaseeq. apply String.eqb_eq. Qed.

(** start, reload and monitor are not notify. *)
Lemma capturing_task_not_notify task :
  pcmk__strcase_any_of task [CRMD_ACTION_START; "reload"; CRMD_ACTION_STATUS] = true ->
  pcmk__str_eq task (Some RSC_NOTIFY) true = false.
Proof.
  destruct task as [t|]; simpl; [|discriminate].
  rewrite !orb_true_iff. unfold strcaseeq at 4.
  intros [H|[H|[H|H]]]; try discriminate;
    apply strcaseeq_lower in H; rewrite H; reflexivity.
Qed.

Section History.

Variable expected_rc : lrmd_event_data_t -> Z.
Variable did_fail : lrmd_event_data_t -> Z -> bool.

Local Abbreviation update := (update_history_cache expected_rc did_fail).

(** C10: a notify result that does not report a deletion leaves the whole
    history cache as it was, and asks nothing of the configuration store. *)
Theorem notify_leaves_history_unchanged lrm_state rsc op :
  rsc_deleted op = false ->
  pcmk__str_eq (op_type op) (Some RSC_NOTIFY) true = true ->
  update lrm_state rsc op = (lrm_state, []).
Proof.
  intros Hdel Hnotify. unfold update_history_cache.
  rewrite Hdel, Hnotify. reflexivity.
Qed.

Lemma record_result_recurring entry op :
  recurring_op_list (fst (record_result expected_rc did_fail entry op))
  = if (op_status op =? PCMK_LRM_OP_CANCELLED)%Z && (0 <? interval_ms op)%N
    then fst (remove_first_match op (recurring_op_list entry))
    else recurring_op_list entry.
Proof.
  unfold record_result.
  destruct (op_status op =? PCMK_LRM_OP_CANCELLED)%Z; simpl.
  - destruct (0 <? interval_ms op)%N; simpl; [|reflexivity].
    apply history_remove_recurring_op_list.
  - destruct (did_fail op (expected_rc op)); [reflexivity|].
    destruct (interval_ms op =? 0)%N; [|reflexivity].
    destruct (params op); [|reflexivity].
    destruct (pcmk__strcase_any_of _ _); reflexivity.
Qed.

Lemma record_recurring_distinct entry op :
  recurring_distinct (recurring_op_list entry) ->
  recurring_distinct (recurring_op_list (record_recurring entry op)).
Proof.
  intros Hd. unfold record_recurring.
  destruct (0 <? interval_ms op)%N.
  - simpl. rewrite history_remove_recurring_op_list. split.
    + apply remove_first_match_clears, Hd.
    + apply remove_first_match_distinct, Hd.
  - destruct (recurring_op_list entry) eqn:Hl; [rewrite Hl; exact I|].
    destruct (negb _); [exact I | rewrite Hl; exact Hd].
Qed.

Lemma update_entry_distinct entry op :
  recurring_distinct (recurring_op_list entry) ->
  recurring_distinct
    (recurring_op_list
       (let '(e, returned) :=
          record_result expected_rc did_fail (set_last_callid entry (call_id op)) op in
        if returned then e else record_recurring e op)).
Proof.
  intros Hd.
  pose proof (record_result_recurring (set_last_callid entry (call_id op)) op) as Hr.
  destruct (record_result _ _ _ op) as [e returned]. simpl in Hr.
  assert (recurring_distinct (recurring_op_list e)) as He.
  { rewrite Hr. destruct (_ && _); [apply remove_first_match_distinct|]; exact Hd. }
  destruct returned; [exact He | apply record_recurring_distinct, He].
Qed.

Lemma history_entry_for_distinct lrm_state rsc op entry :
  history_unique lrm_state ->
  history_entry_for lrm_state rsc op = Some entry ->
  recurring_distinct (recurring_op_list entry).
Proof.
  intros Hu. unfold history_entry_for.
  destruct (resource_history lrm_state !! rsc_id op) as [e|] eqn:He.
  - intros [= <-]. apply recurring_distinct_unique. eapply Hu, He.
  - destruct rsc; [|discriminate]. intros [= <-]. exact I.
Qed.

Lemma update_history_cache_unique lrm_state rsc op :
  history_unique lrm_state -> history_unique (fst (update lrm_state rsc op)).
Proof.
  intros Hu. unfold update_history_cache.
  destruct (rsc_deleted op); [exact Hu|].
  destruct (pcmk__str_eq _ _ _); [exact Hu|].
  destruct (history_entry_for lrm_state rsc op) as [entry|] eqn:He; [|exact Hu].
  pose proof (update_entry_distinct entry op (history_entry_for_distinct _ _ _ _ Hu He)) as Hd.
  destruct (record_result _ _ _ op) as [e returned]. simpl.
  intros k entry'. simpl. rewrite lookup_insert. case_decide.
  - intros [= <-]. apply recurring_distinct_unique, Hd.
  - apply Hu.
Qed.

Lemma run_updates_unique lrm_state results :
  history_unique lrm_state ->
  history_unique (run_updates expected_rc did_fail lrm_state results).
Proof.
  revert lrm_state. induction results as [|r results IH]; intros st Hu; simpl.
  - exact Hu.
  - apply IH, update_history_cache_unique, Hu.
Qed.

(** C7: starting from an empty cache, after any sequence of operation
    results and one more, no entry holds two recurring operations with the
    same resource id, task (up to case, so all the more letter for letter)
    and interval; and recording a
    recurring result that was not cancelled leaves the new operation in front
    of the old list without anything that has its key. *)
Theorem recurring_ops_unique node results rsc op :
  let st := run_updates expected_rc did_fail (mk_lrm_state node ∅) results in
  let st' := fst (update st rsc op) in
  history_unique st' /\
  (forall id entry i j a b,
     resource_history st' !! id = Some entry ->
     recurring_op_list entry !! i = Some a ->
     recurring_op_list entry !! j = Some b ->
     rsc_id a = rsc_id b -> op_type a = op_type b -> interval_ms a = interval_ms b ->
     i = j) /\
  (forall entry,
     history_entry_for st rsc op = Some entry ->
     rsc_deleted op = false ->
     pcmk__str_eq (op_type op) (Some RSC_NOTIFY) true = false ->
     (0 < interval_ms op)%N ->
     op_status op <> PCMK_LRM_OP_CANCELLED ->
     exists entry',
       resource_history st' !! rsc_id op = Some entry' /\
       recurring_op_list entry'
       = op :: List.filter (fun e => negb (recurring_op_matches op e))
                           (recurring_op_list entry)).
Proof.
  intros st st'.
  assert (history_unique st) as Hst.
  { apply run_updates_unique. intros k e. simpl. rewrite lookup_empty. discriminate. }
  split; [apply update_history_cache_unique, Hst|]. split.
  { intros id entry i j a b He Hi Hj Hrsc Htype Hinterval.
    apply (update_history_cache_unique st rsc op Hst id entry He i j a b Hi Hj).
    apply same_triple_matches; assumption. }
  intros entry He Hdel Hnotify Hint Hstatus.
  pose proof (history_entry_for_distinct _ _ _ _ Hst He) as Hd.
  subst st'. unfold update_history_cache. rewrite Hdel, Hnotify, He.
  pose proof (record_result_recurring (set_last_callid entry (call_id op)) op) as Hr.
  assert (snd (record_result expected_rc did_fail (set_last_callid entry (call_id op)) op)
          = false) as Hret.
  { unfold record_result.
    destruct (Z.eqb_spec (op_status op) PCMK_LRM_OP_CANCELLED); [contradiction|].
    destruct (did_fail _ _); [reflexivity|].
    destruct (interval_ms op =? 0)%N; [|reflexivity].
    destruct (params op); [|reflexivity].
    destruct (pcmk__strcase_any_of _ _); reflexivity. }
  destruct (record_result _ _ _ op) as [e returned]. simpl in Hr, Hret. subst returned.
  simpl. eexists. split; [apply lookup_insert_eq|].
  unfold record_recurring. apply N.ltb_lt in Hint. rewrite Hint. simpl.
  rewrite history_remove_recurring_op_list, Hr.
  destruct (Z.eqb_spec (op_status op) PCMK_LRM_OP_CANCELLED); [contradiction|]. simpl.
  rewrite remove_first_match_filter by exact Hd. reflexivity.
Qed.

End History.

Lemma notify_leaves_history_unchanged_witness :
  let st := mk_lrm_state "node1" ∅ in
  update_history_cache sample_expected_rc sample_did_fail st (Some sample_rsc_info)
    (sample_op "Notify" 0 None) = (st, []).
Proof.
  intros st.
  apply (notify_leaves_history_unchanged sample_expected_rc sample_did_fail st
           (Some sample_rsc_info) (sample_op "Notify" 0 None)); reflexivity.
Defined.

Section Construct.

Variable expected_rc : lrmd_event_data_t -> Z.
Variable did_fail : lrmd_event_data_t -> Z -> bool.
Variable CRM_FEATURE_SET : string.
Variable crm_meta_value : gmap string string -> string -> option string.
Variable crm_parse_int : option string -> string -> Z.
Variable pcmk__guint_from_hash : gmap string string -> string -> N -> option N.
Variable has_fence_params : option string -> bool.
Variable crm_get_msec : string -> Z.

Local Abbreviation update := (update_history_cache expected_rc did_fail).
Local Abbreviation construct :=
  (construct_op CRM_FEATURE_SET crm_meta_value crm_parse_int pcmk__guint_from_hash
     has_fence_params crm_get_msec).

Lemma construct_op_stop_params lrm_state xml rsc_id operation :
  pcmk__str_eq (Some operation) (Some RSC_STOP) true = true ->
  params (construct lrm_state (Some xml) rsc_id operation)
  = Some (stop_op_params lrm_state rsc_id
            (delete (CRM_META ++ "_op_target_rc") (xml_params xml))).
Proof.
  intros Hstop. unfold construct_op. rewrite Hstop. simpl negb. cbv iota.
  destruct (xml_transition_key xml); reflexivity.
Qed.

(** What a successful one-shot start, reload or monitor with a parameter
    table leaves in the entry of its resource. *)
Lemma update_history_cache_captures lrm_state rsc op p entry :
  rsc_deleted op = false ->
  history_entry_for lrm_state rsc op = Some entry ->
  pcmk__strcase_any_of (op_type op) [CRMD_ACTION_START; "reload"; CRMD_ACTION_STATUS] = true ->
  interval_ms op = 0%N ->
  op_status op <> PCMK_LRM_OP_CANCELLED ->
  did_fail op (expected_rc op) = false ->
  params op = Some p ->
  exists entry',
    resource_history (fst (update lrm_state rsc op)) !! rsc_id op = Some entry' /\
    stop_params entry' = Some (g_hash_table_foreach p copy_instance_keys ∅).
Proof.
  intros Hdel He Htask Hint Hstatus Hok Hp.
  unfold update_history_cache.
  rewrite Hdel, (capturing_task_not_notify _ Htask), He.
  unfold record_result.
  destruct (Z.eqb_spec (op_status op) PCMK_LRM_OP_CANCELLED); [contradiction|].
  rewrite Hok, Hint, Hp, Htask. simpl.
  eexists. split; [apply lookup_insert_eq|].
  unfold record_recurring. rewrite Hint. simpl.
  destruct (recurring_op_list entry); [reflexivity|].
  destruct (negb _); reflexivity.
Qed.

Lemma history_remove_keeps_stop_params e op :
  stop_params (fst (history_remove_recurring_op e op)) = stop_params e.
Proof.
  unfold history_remove_recurring_op.
  destruct (remove_first_match op (recurring_op_list e)). reflexivity.
Qed.

Lemma record_recurring_keeps_stop_params e op :
  stop_params (record_recurring e op) = stop_params e.
Proof.
  unfold record_recurring. destruct (0 <? interval_ms op)%N.
  - simpl. apply history_remove_keeps_stop_params.
  - destruct (recurring_op_list e); [reflexivity|]. destruct (negb _); reflexivity.
Qed.

(** A result without a parameter table leaves the cached parameters of every
    resource as they were. *)
Lemma update_history_cache_without_params lrm_state rsc op key :
  params op = None ->
  (resource_history (fst (update lrm_state rsc op)) !! key) ≫= stop_params
  = (resource_history lrm_state !! key) ≫= stop_params.
Proof.
  intros Hp. unfold update_history_cache.
  destruct (rsc_deleted op); [reflexivity|].
  destruct (pcmk__str_eq _ _ _); [reflexivity|].
  destruct (history_entry_for lrm_state rsc op) as [entry|] eqn:He; [|reflexivity].
  destruct (record_result expected_rc did_fail (set_last_callid entry (call_id op)) op)
    as [e1 returned] eqn:Hrec.
  assert (stop_params e1 = stop_params entry) as H1.
  { unfold record_result in Hrec. rewrite Hp in Hrec.
    destruct (op_status op =? PCMK_LRM_OP_CANCELLED)%Z.
    - destruct (0 <? interval_ms op)%N; injection Hrec as <- _;
        [rewrite history_remove_keeps_stop_params; reflexivity | reflexivity].
    - destruct (did_fail op (expected_rc op)); [injection Hrec as <- _; reflexivity|].
      destruct (interval_ms op =? 0)%N; injection Hrec as <- _; reflexivity. }
  assert (stop_params (if returned then e1 else record_recurring e1 op) = stop_params entry)
    as H2.
  { destruct returned; [exact H1|]. rewrite record_recurring_keeps_stop_params. exact H1. }
  cbn [fst resource_history set_resource_history].
  destruct (decide (key = Execd.rsc_id op)) as [->|Hne].
  - rewrite lookup_insert_eq. cbn [mbind option_bind]. rewrite H2.
    unfold history_entry_for in He.
    destruct (resource_history lrm_state !! Execd.rsc_id op) as [e|].
    + injection He as ->. reflexivity.
    + destruct rsc; [injection He as <-; reflexivity | discriminate].
  - rewrite lookup_insert_ne by congruence. reflexivity.
Qed.

Lemma is_meta_key_spec key : is_meta_key key = true <-> meta_attribute key.
Proof. unfold is_meta_key, meta_attribute. apply strstr_spec. Qed.

(** Reading a table key by key, meta attributes from one side and instance
    attributes from the other. *)
Lemma by_kind (p meta instance : gmap string string) key :
  p !! key = (if is_meta_key key then meta !! key else instance !! key) ->
  (meta_attribute key -> p !! key = meta !! key) /\
  (~ meta_attribute key -> p !! key = instance !! key).
Proof.
  intros ->. destruct (is_meta_key key) eqn:Hk.
  - apply is_meta_key_spec in Hk. split; [reflexivity | contradiction].
  - split; [|reflexivity]. intros Hm. apply is_meta_key_spec in Hm. congruence.
Qed.

(** C1, as the code has it: a stop built from a request takes its instance
    attributes from the cached [stop_params] of the resource's entry and only
    its meta attributes from the request; without cached parameters, or
    without a cache to look in, it takes the request's table; and a
    successful one-shot start, reload or monitor
    that carries a parameter table and is recorded caches exactly the
    instance attributes of that table, which the next stop built from a
    request then uses; a result without a parameter table leaves the cached
    parameters of every resource as they were. *)
Theorem stop_uses_cached_stop_params lrm_state xml rsc_id operation :
  lower operation = "stop" ->
  let requested := delete "CRM_meta_op_target_rc" (xml_params xml) in
  (forall entry cached,
     resource_history lrm_state !! rsc_id = Some entry ->
     stop_params entry = Some cached ->
     exists p,
       params (construct (Some lrm_state) (Some xml) rsc_id operation) = Some p /\
       forall key,
         (meta_attribute key -> p !! key = requested !! key) /\
         (~ meta_attribute key -> p !! key = cached !! key))
  /\
  ((forall entry, resource_history lrm_state !! rsc_id = Some entry ->
                  stop_params entry = None) ->
   params (construct (Some lrm_state) (Some xml) rsc_id operation) = Some requested)
  /\
  params (construct None (Some xml) rsc_id operation) = Some requested
  /\
  (forall rsc op task p,
     rsc_deleted op = false ->
     is_Some (resource_history lrm_state !! rsc_id) \/ is_Some rsc ->
     op_type op = Some task ->
     In (lower task) ["start"; "reload"; "monitor"] ->
     interval_ms op = 0%N ->
     op_status op <> PCMK_LRM_OP_CANCELLED ->
     did_fail op (expected_rc op) = false ->
     params op = Some p ->
     Execd.rsc_id op = rsc_id ->
     let lrm_state' := fst (update lrm_state rsc op) in
     exists entry' captured p',
       resource_history lrm_state' !! rsc_id = Some entry' /\
       stop_params entry' = Some captured /\
       (forall key,
          (meta_attribute key -> captured !! key = None) /\
          (~ meta_attribute key -> captured !! key = p !! key)) /\
       params (construct (Some lrm_state') (Some xml) rsc_id operation) = Some p' /\
       (forall key,
          (meta_attribute key -> p' !! key = requested !! key) /\
          (~ meta_attribute key -> p' !! key = p !! key)))
  /\
  (forall rsc op key,
     params op = None ->
     (resource_history (fst (update lrm_state rsc op)) !! key) ≫= stop_params
     = (resource_history lrm_state !! key) ≫= stop_params).
Proof.
  intros Hlower requested.
  assert (pcmk__str_eq (Some operation) (Some RSC_STOP) true = true) as Hstop.
  { simpl. unfold strcaseeq. rewrite Hlower. reflexivity. }
  split; [|split; [|split; [|split]]].
  5:{ intros rsc op key. apply update_history_cache_without_params. }
  - intros entry cached He Hc. eexists. split.
    + apply construct_op_stop_params, Hstop.
    + intros key. apply by_kind, (stop_op_params_cached _ _ _ _ _ _ He Hc).
  - intros Hn. rewrite construct_op_stop_params by exact Hstop.
    rewrite stop_op_params_uncached by exact Hn. reflexivity.
  - rewrite construct_op_stop_params by exact Hstop. reflexivity.
  - intros rsc op task p Hdel Hknown Htype Hin Hint Hstatus Hok Hp Hid lrm_state'.
    assert (pcmk__strcase_any_of (op_type op)
              [CRMD_ACTION_START; "reload"; CRMD_ACTION_STATUS] = true) as Htask.
    { rewrite Htype. simpl. unfold strcaseeq. rewrite !orb_true_iff, !String.eqb_eq.
      simpl in Hin. intuition. }
    assert (exists entry, history_entry_for lrm_state rsc op = Some entry) as [entry He].
    { unfold history_entry_for. rewrite Hid.
      destruct (resource_history lrm_state !! rsc_id) as [e|]; [eauto|].
      destruct Hknown as [[e [=]]|[r ->]]. eauto. }
    destruct (update_history_cache_captures _ _ _ _ _ Hdel He Htask Hint Hstatus Hok Hp)
      as (entry' & He' & Hc').
    rewrite Hid in He'. fold lrm_state' in He'.
    assert (forall key, g_hash_table_foreach p copy_instance_keys ∅ !! key
                        = if is_meta_key key then (∅ : gmap string string) !! key
                          else p !! key) as Hcap.
    { intros key. rewrite foreach_copy_instance_keys_lookup, lookup_empty.
      destruct (is_meta_key key); [reflexivity|]. destruct (p !! key); reflexivity. }
    exists entry', (g_hash_table_foreach p copy_instance_keys ∅). eexists.
    split; [exact He'|]. split; [exact Hc'|]. split.
    { intros key. destruct (by_kind _ _ _ _ (Hcap key)) as [Hm Hi].
      split; [|exact Hi]. intros H. rewrite (Hm H). apply lookup_empty. }
    split.
    + apply construct_op_stop_params, Hstop.
    + intros key. apply by_kind.
      rewrite (stop_op_params_cached _ _ _ _ _ _ He' Hc'), Hcap.
      destruct (is_meta_key key); reflexivity.
Qed.

(** Whatever [construct_op] builds carries a parameter table. *)
Lemma construct_op_has_params lrm_state rsc_op rsc_id operation :
  is_Some (params (construct lrm_state rsc_op rsc_id operation)).
Proof.
  unfold construct_op. destruct rsc_op as [xml|]; [|eexists; reflexivity].
  destruct (xml_transition_key xml); eexists; reflexivity.
Qed.

End Construct.

Lemma not_meta_port : ~ meta_attribute "port".
Proof. intros H. apply is_meta_key_spec in H. discriminate H. Qed.

Lemma meta_timeout : meta_attribute "CRM_meta_timeout".
Proof. exists "", "timeout". reflexivity. Qed.

(** Scenario S5: R1 was started with port 3306, the configuration now says
    3307; the stop is built with 3306 and with the request's meta attributes.
    And from an empty cache: once the start with port 3306 is recorded, the
    stop built from the same request carries 3306. *)
Lemma stop_uses_cached_stop_params_witness :
  (exists p,
     params (sample_construct_op (Some sample_started_state) (Some sample_stop_request)
               "R1" "stop") = Some p /\
     p !! "port" = Some "3306" /\
     p !! "CRM_meta_timeout" = Some "20000") /\
  (let started :=
     fst (update_history_cache sample_expected_rc sample_did_fail (mk_lrm_state "node1" ∅)
            (Some sample_rsc_info)
            (sample_op "start" 0 (Some {[ "port" := "3306"; "CRM_meta_timeout" := "90000" ]}))) in
   exists entry' p',
     resource_history started !! "R1" = Some entry' /\
     stop_params entry' = Some {[ "port" := "3306" ]} /\
     params (sample_construct_op (Some started) (Some sample_stop_request) "R1" "stop")
     = Some p' /\
     p' !! "port" = Some "3306" /\
     p' !! "CRM_meta_timeout" = Some "20000").
Proof.
  split.
  - destruct (stop_uses_cached_stop_params sample_expected_rc sample_did_fail
                "3.7.1" sample_crm_meta_value
                sample_crm_parse_int sample_guint_from_hash sample_has_fence_params
                sample_crm_get_msec sample_started_state sample_stop_request "R1" "stop"
                eq_refl) as [Hcached _].
    destruct (Hcached sample_started_entry {[ "port" := "3306" ]} eq_refl eq_refl)
      as (p & Hp & Hkeys).
    exists p. split; [exact Hp|]. split.
    + rewrite (proj2 (Hkeys "port")); [reflexivity | apply not_meta_port].
    + rewrite (proj1 (Hkeys "CRM_meta_timeout")); [reflexivity | apply meta_timeout].
  - intros started.
    destruct (stop_uses_cached_stop_params sample_expected_rc sample_did_fail
                "3.7.1" sample_crm_meta_value
                sample_crm_parse_int sample_guint_from_hash sample_has_fence_params
                sample_crm_get_msec (mk_lrm_state "node1" ∅) sample_stop_request "R1" "stop"
                eq_refl) as (_ & _ & _ & Hcapture & _).
    destruct (Hcapture (Some sample_rsc_info)
                (sample_op "start" 0 (Some {[ "port" := "3306"; "CRM_meta_timeout" := "90000" ]}))
                "start" {[ "port" := "3306"; "CRM_meta_timeout" := "90000" ]}
                eq_refl (or_intror (ex_intro _ sample_rsc_info eq_refl)) eq_refl
                (or_introl eq_refl) eq_refl ltac:(discriminate) eq_refl eq_refl eq_refl)
      as (entry' & captured & p' & He & Hc & Hcap & Hp & Hkeys).
    exists entry', p'. split; [exact He|]. split.
    + clear Hc Hcap Hp Hkeys. vm_compute in He. injection He as <-.
      vm_compute. reflexivity.
    + split; [exact Hp|]. split.
      * rewrite (proj2 (Hkeys "port")); [reflexivity | apply not_meta_port].
      * rewrite (proj1 (Hkeys "CRM_meta_timeout")); [reflexivity | apply meta_timeout].
Defined.

(** C1 as stated fails for a result without a parameter table.  R1 was
    started with port 3306 and is started again with success, the result
    carrying no table: the cached parameters stay those of the first start.
    On an empty cache such a start is recorded as the last operation but
    caches nothing, and the stop built from a request that says 3307 then
    carries 3307. *)
Lemma start_without_params_caches_nothing :
  (let restarted :=
     fst (update_history_cache sample_expected_rc sample_did_fail sample_started_state
            (Some sample_rsc_info) (sample_op "start" 0 None)) in
   (resource_history restarted !! "R1") ≫= stop_params = Some {[ "port" := "3306" ]}) /\
  (let started :=
     fst (update_history_cache sample_expected_rc sample_did_fail (mk_lrm_state "node1" ∅)
            (Some sample_rsc_info) (sample_op "start" 0 None)) in
   (resource_history started !! "R1") ≫= last = Some (sample_op "start" 0 None) /\
   (resource_history started !! "R1") ≫= stop_params = None /\
   params (sample_construct_op (Some started) (Some sample_stop_request) "R1" "stop")
     ≫= (fun p => p !! "port") = Some "3307").
Proof. vm_compute. repeat split; reflexivity. Qed.

(** *** What a recorded result changes in an entry *)

Lemma remove_first_match_fields e op :
  let e' := fst (history_remove_recurring_op e op) in
  last e' = last e /\ failed e' = failed e /\ stop_params e' = stop_params e
  /\ last_callid e' = last_callid e.
Proof.
  unfold history_remove_recurring_op.
  destruct (remove_first_match op (recurring_op_list e)) as [l found]. simpl. tauto.
Qed.

Section Recorded.

Variable expected_rc : lrmd_event_data_t -> Z.
Variable did_fail : lrmd_event_data_t -> Z -> bool.

Local Abbreviation update := (update_history_cache expected_rc did_fail).
Local Abbreviation record := (record_result expected_rc did_fail).

Local Abbreviation recorded_entry := (Execd.recorded_entry expected_rc did_fail).

Lemma update_history_cache_recorded st rsc op e :
  rsc_deleted op = false ->
  pcmk__str_eq (op_type op) (Some RSC_NOTIFY) true = false ->
  history_entry_for st rsc op = Some e ->
  update st rsc op
  = (set_resource_history st (<[rsc_id op := recorded_entry e op]> (resource_history st)), []).
Proof.
  intros Hd Hn He. unfold update_history_cache, recorded_entry.
  rewrite Hd, Hn, He.
  destruct (record (set_last_callid e (call_id op)) op) as [e1 returned].
  reflexivity.
Qed.

Lemma update_history_cache_skipped st rsc op :
  rsc_deleted op = true
  \/ pcmk__str_eq (op_type op) (Some RSC_NOTIFY) true = true
  \/ history_entry_for st rsc op = None ->
  fst (update st rsc op) = st.
Proof.
  unfold update_history_cache. intros [H|[H|H]].
  - rewrite H. reflexivity.
  - destruct (rsc_deleted op); [reflexivity|]. rewrite H. reflexivity.
  - destruct (rsc_deleted op); [reflexivity|].
    destruct (pcmk__str_eq _ _ _); [reflexivity|]. rewrite H. reflexivity.
Qed.

Lemma record_recurring_fields e op :
  last (record_recurring e op) = last e
  /\ failed (record_recurring e op) = failed e
  /\ stop_params (record_recurring e op) = stop_params e
  /\ last_callid (record_recurring e op) = last_callid e.
Proof.
  unfold record_recurring.
  destruct (0 <? interval_ms op)%N.
  - pose proof (remove_first_match_fields e op) as H. simpl in *. tauto.
  - destruct (recurring_op_list e); [tauto|].
    destruct (negb _); simpl; tauto.
Qed.

Lemma recorded_entry_last_callid e op : last_callid (recorded_entry e op) = call_id op.
Proof.
  unfold recorded_entry, record_result.
  set (e0 := set_last_callid e (call_id op)).
  assert (H0 : last_callid e0 = call_id op) by reflexivity.
  destruct (op_status op =? PCMK_LRM_OP_CANCELLED)%Z.
  - destruct (0 <? interval_ms op)%N.
    + pose proof (remove_first_match_fields e0 op) as H. simpl in H.
      destruct H as (_ & _ & _ & H). congruence.
    + destruct (record_recurring_fields e0 op) as (_ & _ & _ & H). congruence.
  - destruct (did_fail op (expected_rc op)).
    + destruct (record_recurring_fields (set_failed e0 (Some (lrmd_copy_event op))) op)
        as (_ & _ & _ & H). rewrite H. reflexivity.
    + destruct (interval_ms op =? 0)%N.
      * destruct (params op) as [p|].
        -- destruct (pcmk__strcase_any_of _ _).
           ++ match goal with |- last_callid (record_recurring ?x _) = _ =>
                destruct (record_recurring_fields x op) as (_ & _ & _ & H) end.
              rewrite H. reflexivity.
           ++ match goal with |- last_callid (record_recurring ?x _) = _ =>
                destruct (record_recurring_fields x op) as (_ & _ & _ & H) end.
              rewrite H. reflexivity.
        -- match goal with |- last_callid (record_recurring ?x _) = _ =>
             destruct (record_recurring_fields x op) as (_ & _ & _ & H) end.
           rewrite H. reflexivity.
      * destruct (record_recurring_fields e0 op) as (_ & _ & _ & H). congruence.
Qed.

(** [last] moves only for a result that is not cancelled, did not fail and
    is not recurring. *)
Lemma recorded_entry_last e op :
  last (recorded_entry e op)
  = if (op_status op =? PCMK_LRM_OP_CANCELLED)%Z then last e
    else if did_fail op (expected_rc op) then last e
    else if (interval_ms op =? 0)%N then Some op
    else last e.
Proof.
  unfold recorded_entry, record_result.
  set (e0 := set_last_callid e (call_id op)).
  assert (H0 : last e0 = last e) by reflexivity.
  destruct (op_status op =? PCMK_LRM_OP_CANCELLED)%Z.
  - destruct (0 <? interval_ms op)%N.
    + pose proof (remove_first_match_fields e0 op) as H. simpl in H.
      destruct H as (H & _). congruence.
    + destruct (record_recurring_fields e0 op) as (H & _). congruence.
  - destruct (did_fail op (expected_rc op)).
    + destruct (record_recurring_fields (set_failed e0 (Some (lrmd_copy_event op))) op)
        as (H & _). rewrite H. reflexivity.
    + destruct (interval_ms op =? 0)%N.
      * destruct (params op) as [p|].
        -- destruct (pcmk__strcase_any_of _ _);
             match goal with |- last (record_recurring ?x _) = _ =>
               destruct (record_recurring_fields x op) as (H & _) end;
             rewrite H; reflexivity.
        -- match goal with |- last (record_recurring ?x _) = _ =>
             destruct (record_recurring_fields x op) as (H & _) end.
           rewrite H. reflexivity.
      * destruct (record_recurring_fields e0 op) as (H & _). congruence.
Qed.

(** [failed] moves only for a result that failed and is not cancelled. *)
Lemma recorded_entry_failed e op :
  failed (recorded_entry e op)
  = if (op_status op =? PCMK_LRM_OP_CANCELLED)%Z then failed e
    else if did_fail op (expected_rc op) then Some op
    else failed e.
Proof.
  unfold recorded_entry, record_result.
  set (e0 := set_last_callid e (call_id op)).
  assert (H0 : failed e0 = failed e) by reflexivity.
  destruct (op_status op =? PCMK_LRM_OP_CANCELLED)%Z.
  - destruct (0 <? interval_ms op)%N.
    + pose proof (remove_first_match_fields e0 op) as H. simpl in H.
      destruct H as (_ & H & _). congruence.
    + destruct (record_recurring_fields e0 op) as (_ & H & _). congruence.
  - destruct (did_fail op (expected_rc op)).
    + destruct (record_recurring_fields (set_failed e0 (Some (lrmd_copy_event op))) op)
        as (_ & H & _). rewrite H. reflexivity.
    + destruct (interval_ms op =? 0)%N.
      * destruct (params op) as [p|].
        -- destruct (pcmk__strcase_any_of _ _);
             match goal with |- failed (record_recurring ?x _) = _ =>
               destruct (record_recurring_fields x op) as (_ & H & _) end;
             rewrite H; reflexivity.
        -- match goal with |- failed (record_recurring ?x _) = _ =>
             destruct (record_recurring_fields x op) as (_ & H & _) end.
           rewrite H. reflexivity.
      * destruct (record_recurring_fields e0 op) as (_ & H & _). congruence.
Qed.

(** A fresh entry has neither a last nor a failed result. *)
Lemma history_entry_for_fresh st rsc op e :
  resource_history st !! rsc_id op = None ->
  history_entry_for st rsc op = Some e ->
  last e = None /\ failed e = None /\ recurring_op_list e = [].
Proof.
  unfold history_entry_for. intros ->. destruct rsc; [|discriminate].
  intros [= <-]. simpl. tauto.
Qed.

Lemma history_entry_for_known st rsc op e :
  resource_history st !! rsc_id op = Some e -> history_entry_for st rsc op = Some e.
Proof. unfold history_entry_for. intros ->. reflexivity. Qed.


Lemma is_rsc_active_last st st' r :
  (resource_history st' !! r ≫= last) = (resource_history st !! r ≫= last) ->
  is_rsc_active st' r = is_rsc_active st r.
Proof.
  unfold is_rsc_active. intros H.
  destruct (resource_history st' !! r) as [e'|], (resource_history st !! r) as [e|];
    simpl in H.
  - rewrite H. reflexivity.
  - rewrite H. reflexivity.
  - rewrite <- H. reflexivity.
  - reflexivity.
Qed.

(** X1.  [update_history_cache] changes what [is_rsc_active] says about a
    resource only when it records a result of that very resource which is
    not cancelled, did not fail and is not recurring: for every other
    resource, and for a cancelled, failed or recurring result, the answer is
    the one given before. *)
Theorem unrecorded_results_keep_activity st rsc op r :
  r <> rsc_id op
  \/ op_status op = PCMK_LRM_OP_CANCELLED
  \/ did_fail op (expected_rc op) = true
  \/ (0 < interval_ms op)%N ->
  is_rsc_active (fst (update st rsc op)) r = is_rsc_active st r.
Proof.
  intros H.
  destruct (rsc_deleted op) eqn:Hd;
    [rewrite update_history_cache_skipped by auto; reflexivity|].
  destruct (pcmk__str_eq (op_type op) (Some RSC_NOTIFY) true) eqn:Hn;
    [rewrite update_history_cache_skipped by auto; reflexivity|].
  destruct (history_entry_for st rsc op) as [e|] eqn:He;
    [|rewrite update_history_cache_skipped by auto; reflexivity].
  rewrite (update_history_cache_recorded _ _ _ _ Hd Hn He). simpl.
  apply is_rsc_active_last. simpl.
  destruct (decide (r = rsc_id op)) as [->|Hne].
  - rewrite lookup_insert_eq. simpl.
    assert (Hl : last (recorded_entry e op) = last e).
    { rewrite recorded_entry_last.
      destruct H as [H|[H|[H|H]]].
      - congruence.
      - rewrite H. reflexivity.
      - rewrite H. destruct (_ =? _)%Z; reflexivity.
      - assert (Hz : (interval_ms op =? 0)%N = false) by (apply N.eqb_neq; lia).
        rewrite Hz. destruct (_ =? _)%Z; [reflexivity|].
        destruct (did_fail _ _); reflexivity. }
    rewrite Hl.
    destruct (resource_history st !! rsc_id op) as [e0|] eqn:H0.
    + rewrite (history_entry_for_known _ rsc _ _ H0) in He. injection He as ->. reflexivity.
    + destruct (history_entry_for_fresh _ _ _ _ H0 He) as (-> & _). reflexivity.
  - rewrite lookup_insert_ne by congruence. reflexivity.
Qed.

Lemma recorded_lookup st rsc op e :
  rsc_deleted op = false ->
  pcmk__str_eq (op_type op) (Some RSC_NOTIFY) true = false ->
  history_entry_for st rsc op = Some e ->
  resource_history (fst (update st rsc op)) !! rsc_id op = Some (recorded_entry e op).
Proof.
  intros Hd Hn He. rewrite (update_history_cache_recorded _ _ _ _ Hd Hn He). simpl.
  apply lookup_insert_eq.
Qed.

(** X2.  A result for which [should_preserve_lock] answers yes (a stop that
    returned OK, a monitor that found the resource not running), once
    [update_history_cache] has recorded it as the last result of its
    resource, makes [is_rsc_active] answer no for that resource. *)
Theorem preserved_lock_means_inactive enabled st rsc op e :
  should_preserve_lock enabled op = Some true ->
  rsc_deleted op = false ->
  op_status op <> PCMK_LRM_OP_CANCELLED ->
  did_fail op (expected_rc op) = false ->
  interval_ms op = 0%N ->
  history_entry_for st rsc op = Some e ->
  is_rsc_active (fst (update st rsc op)) (rsc_id op) = false.
Proof.
  intros Hlock Hd Hc Hf Hi He.
  unfold should_preserve_lock in Hlock.
  destruct enabled; [simpl in Hlock|discriminate].
  destruct (op_type op) as [task|] eqn:Ht; [|discriminate].
  assert (Hn : pcmk__str_eq (op_type op) (Some RSC_NOTIFY) true = false).
  { rewrite Ht.
    destruct (streq task RSC_STOP) eqn:Hs.
    - apply streq_true in Hs. subst task. reflexivity.
    - destruct (streq task RSC_STATUS) eqn:Hm; [|discriminate].
      apply streq_true in Hm. subst task. reflexivity. }
  unfold is_rsc_active. rewrite (recorded_lookup _ _ _ _ Hd Hn He).
  rewrite recorded_entry_last, Hf, Hi.
  assert (Hc' : (op_status op =? PCMK_LRM_OP_CANCELLED)%Z = false) by (apply Z.eqb_neq; exact Hc).
  rewrite Hc'. simpl. rewrite Ht.
  destruct (streq task RSC_STOP) eqn:Hs.
  - apply streq_true in Hs. subst task.
    destruct (rc op =? PCMK_OCF_OK)%Z eqn:Hrc.
    + reflexivity.
    + simpl in Hlock. destruct (rc op =? PCMK_OCF_NOT_RUNNING)%Z; discriminate.
  - simpl in Hlock.
    destruct (streq task RSC_STATUS) eqn:Hm; [|discriminate].
    simpl in Hlock.
    destruct (rc op =? PCMK_OCF_NOT_RUNNING)%Z eqn:Hrc; [|discriminate].
    apply Z.eqb_eq in Hrc. rewrite Hrc. simpl.
    apply streq_true in Hm. subst task. reflexivity.
Qed.

(** X3.  After [update_history_cache] has recorded a failed result that was
    not cancelled, [did_lrm_rsc_op_fail] finds it under the resource, task
    and interval of that result. *)
Theorem recorded_failure_is_found st rsc op e task :
  rsc_deleted op = false ->
  op_type op = Some task ->
  pcmk__str_eq (Some task) (Some RSC_NOTIFY) true = false ->
  op_status op <> PCMK_LRM_OP_CANCELLED ->
  did_fail op (expected_rc op) = true ->
  history_entry_for st rsc op = Some e ->
  did_lrm_rsc_op_fail (Some (fst (update st rsc op))) (Some (rsc_id op)) (Some task)
    (interval_ms op) = true.
Proof.
  intros Hd Ht Hn Hc Hf He. rewrite <- Ht in Hn.
  unfold did_lrm_rsc_op_fail. rewrite (recorded_lookup _ _ _ _ Hd Hn He).
  rewrite recorded_entry_failed, Hf.
  assert (Hc' : (op_status op =? PCMK_LRM_OP_CANCELLED)%Z = false) by (apply Z.eqb_neq; exact Hc).
  rewrite Hc', Ht, N.eqb_refl, !pcmk__str_eq_refl. reflexivity.
Qed.

(** X4.  A result that did not fail, or was cancelled, leaves every answer
    of [did_lrm_rsc_op_fail] as it was: a later success does not take a
    recorded failure away. *)
Theorem success_keeps_recorded_failure st rsc op q task interval :
  op_status op = PCMK_LRM_OP_CANCELLED \/ did_fail op (expected_rc op) = false ->
  did_lrm_rsc_op_fail (Some (fst (update st rsc op))) q task interval
  = did_lrm_rsc_op_fail (Some st) q task interval.
Proof.
  intros H.
  destruct (rsc_deleted op) eqn:Hd;
    [rewrite update_history_cache_skipped by auto; reflexivity|].
  destruct (pcmk__str_eq (op_type op) (Some RSC_NOTIFY) true) eqn:Hn;
    [rewrite update_history_cache_skipped by auto; reflexivity|].
  destruct (history_entry_for st rsc op) as [e|] eqn:He;
    [|rewrite update_history_cache_skipped by auto; reflexivity].
  rewrite (update_history_cache_recorded _ _ _ _ Hd Hn He). simpl.
  unfold did_lrm_rsc_op_fail. destruct q as [q|]; [|reflexivity].
  destruct task as [task|]; [|reflexivity]. simpl.
  destruct (decide (q = rsc_id op)) as [->|Hne].
  - rewrite lookup_insert_eq.
    assert (Hl : failed (recorded_entry e op) = failed e).
    { rewrite recorded_entry_failed. destruct H as [H|H]; rewrite H.
      - reflexivity.
      - destruct (_ =? _)%Z; reflexivity. }
    rewrite Hl.
    destruct (resource_history st !! rsc_id op) as [e0|] eqn:H0.
    + rewrite (history_entry_for_known _ rsc _ _ H0) in He. injection He as ->. reflexivity.
    + destruct (history_entry_for_fresh _ _ _ _ H0 He) as (_ & -> & _). reflexivity.
  - rewrite lookup_insert_ne by congruence. reflexivity.
Qed.

(** X5.  The call id [get_fake_call_id] makes up for a resource right after
    [update_history_cache] has recorded a result of that resource is the
    call id of that result plus one, whatever the result was. *)
Theorem fake_call_id_follows_recorded st rsc op e :
  rsc_deleted op = false ->
  pcmk__str_eq (op_type op) (Some RSC_NOTIFY) true = false ->
  history_entry_for st rsc op = Some e ->
  (-1 <= call_id op < INT_MAX)%Z ->
  get_fake_call_id (Some (fst (update st rsc op))) (rsc_id op) = (call_id op + 1)%Z.
Proof.
  intros Hd Hn He Hc. unfold get_fake_call_id.
  rewrite (recorded_lookup _ _ _ _ Hd Hn He), recorded_entry_last_callid.
  unfold int_succ.
  destruct (call_id op =? INT_MAX)%Z eqn:Hm; [apply Z.eqb_eq in Hm; lia|].
  destruct (call_id op + 1 <? 0)%Z eqn:Hneg; [apply Z.ltb_lt in Hneg; lia|].
  reflexivity.
Qed.


End Recorded.

(** *** Clearing the last failure *)

(** X7.  [lrm_clear_last_failure] without an operation name always goes
    through: afterwards [did_lrm_rsc_op_fail] answers no for the resource,
    whatever task and interval it is asked about, while the replies of
    [is_rsc_active] and [get_fake_call_id] and the entries of the other
    resources are what they were.  The one request to the configuration
    store removes the resource's last_failure row on that node. *)
Theorem cleared_failure_is_gone st rsc_id interval :
  exists st',
    lrm_clear_last_failure (Some st) rsc_id None interval
    = Some (Some st', [Remove_history (node_name st) rsc_id (rsc_id, "last_failure", 0%N) By_id])
    /\ (forall task i, did_lrm_rsc_op_fail (Some st') (Some rsc_id) task i = false)
    /\ (forall r, is_rsc_active st' r = is_rsc_active st r)
    /\ (forall r, get_fake_call_id (Some st') r = get_fake_call_id (Some st) r)
    /\ (forall r, r <> rsc_id -> resource_history st' !! r = resource_history st !! r).
Proof.
  unfold lrm_clear_last_failure, last_failed_matches_op, erase_lrm_history_by_id. simpl.
  destruct (resource_history st !! rsc_id) as [e|] eqn:He.
  - eexists. split; [reflexivity|]. simpl. repeat split.
    + intros task i. unfold did_lrm_rsc_op_fail. simpl.
      destruct task; [|reflexivity]. rewrite lookup_insert_eq. reflexivity.
    + intros r. apply is_rsc_active_last. simpl.
      destruct (decide (r = rsc_id)) as [->|Hne].
      * rewrite lookup_insert_eq, He. reflexivity.
      * rewrite lookup_insert_ne by congruence. reflexivity.
    + intros r. unfold get_fake_call_id. simpl.
      destruct (decide (r = rsc_id)) as [->|Hne].
      * rewrite lookup_insert_eq, He. reflexivity.
      * rewrite lookup_insert_ne by congruence. reflexivity.
    + intros r Hne. rewrite lookup_insert_ne by congruence. reflexivity.
  - exists st. split; [reflexivity|]. repeat split.
    intros task i. unfold did_lrm_rsc_op_fail. destruct task; [|reflexivity].
    rewrite He. reflexivity.
Qed.

(** X8.  [lrm_clear_last_failure] with an operation name reads the recorded
    failure without testing that there is one: the call goes wrong (a read
    through the NULL [entry->failed]) exactly when the resource has a
    history entry without a recorded failure. *)
Theorem filtered_clear_needs_a_failure st rsc_id operation interval :
  lrm_clear_last_failure (Some st) rsc_id (Some operation) interval = None
  <-> exists e, resource_history st !! rsc_id = Some e /\ failed e = None.
Proof.
  unfold lrm_clear_last_failure, last_failed_matches_op.
  destruct (resource_history st !! rsc_id) as [e|] eqn:He.
  - destruct (failed e) as [f|] eqn:Hf.
    + split.
      * destruct (_ && _); discriminate.
      * intros (e' & [= <-] & Hf'). congruence.
    + split; [|reflexivity]. intros _. exists e. auto.
  - split; [discriminate|]. intros (e & H & _). discriminate.
Qed.

(** X9.  A failure that [did_lrm_rsc_op_fail] finds for a task and an
    interval is taken away by [lrm_clear_last_failure] called with that task
    and interval: the call goes through and [did_lrm_rsc_op_fail] then
    answers no for the resource. *)
Theorem found_failure_can_be_cleared st rsc_id task interval :
  did_lrm_rsc_op_fail (Some st) (Some rsc_id) (Some task) interval = true ->
  exists st' erased,
    lrm_clear_last_failure (Some st) rsc_id (Some task) interval = Some (Some st', erased)
    /\ forall task' interval',
         did_lrm_rsc_op_fail (Some st') (Some rsc_id) task' interval' = false.
Proof.
  unfold did_lrm_rsc_op_fail, lrm_clear_last_failure, last_failed_matches_op.
  destruct (resource_history st !! rsc_id) as [e|] eqn:He; [|discriminate].
  destruct (failed e) as [f|] eqn:Hf; [|discriminate].
  rewrite !andb_true_iff. intros [[_ Ht] Hi].
  rewrite pcmk__str_eq_sym, Ht, N.eqb_sym, Hi. simpl.
  do 2 eexists. split; [reflexivity|].
  intros task' interval'. simpl. destruct task'; [|reflexivity].
  rewrite lookup_insert_eq. reflexivity.
Qed.

(** *** [unescape_newlines] *)

Lemma unescape_newlines_from_two c d r :
  unescape_newlines_from (String c (String d r))
  = if Ascii.eqb c "\" && Ascii.eqb d "n"
    then String LF (String " " (unescape_newlines_from r))
    else String c (unescape_newlines_from (String d r)).
Proof. reflexivity. Qed.

Lemma unescape_newlines_from_one c :
  unescape_newlines_from (String c EmptyString) = String c EmptyString.
Proof. reflexivity. Qed.

Lemma unescape_newlines_from_length s :
  String.length (unescape_newlines_from s) = String.length s.
Proof.
  assert (H : forall n s, (String.length s <= n)%nat ->
            String.length (unescape_newlines_from s) = String.length s).
  { clear s. induction n as [|n IH]; intros s Hn.
    - destruct s; [reflexivity|simpl in Hn; lia].
    - destruct s as [|c [|d r']]; try reflexivity.
      rewrite unescape_newlines_from_two.
      cbn [String.length] in Hn.
      destruct (Ascii.eqb c "\" && Ascii.eqb d "n"); cbn [String.length].
      + rewrite IH by lia. reflexivity.
      + rewrite IH by (cbn [String.length]; lia). reflexivity. }
  apply (H (String.length s)). lia.
Qed.

Lemma prefix_escaped_newline c d x :
  String.prefix escaped_newline (String c (String d x))
  = Ascii.eqb c "\" && Ascii.eqb d "n".
Proof.
  unfold escaped_newline. cbn [String.prefix].
  destruct (ascii_dec "\" c) as [<-|Hc].
  - destruct (ascii_dec "n" d) as [<-|Hd]; [destruct x; reflexivity|].
    simpl. symmetry. apply Ascii.eqb_neq. congruence.
  - symmetry. apply andb_false_iff. left. apply Ascii.eqb_neq. congruence.
Qed.

Lemma prefix_escaped_newline_short c :
  String.prefix escaped_newline (String c EmptyString) = false.
Proof.
  unfold escaped_newline. cbn [String.prefix]. destruct (ascii_dec "\" c); reflexivity.
Qed.

Lemma prefix_escaped_newline_other c x :
  Ascii.eqb c "\" = false -> String.prefix escaped_newline (String c x) = false.
Proof.
  intros Hc. destruct x as [|d x].
  - apply prefix_escaped_newline_short.
  - rewrite prefix_escaped_newline, Hc. reflexivity.
Qed.

(** The first byte of the result is the first byte of the text, unless the
    text starts with the pattern. *)
Lemma unescape_newlines_from_head c r :
  exists r',
    unescape_newlines_from (String c r)
    = String (if String.prefix escaped_newline (String c r) then LF else c) r'.
Proof.
  destruct r as [|d r'].
  - rewrite unescape_newlines_from_one, prefix_escaped_newline_short. eexists. reflexivity.
  - rewrite unescape_newlines_from_two, prefix_escaped_newline.
    destruct (Ascii.eqb c "\" && Ascii.eqb d "n"); eexists; reflexivity.
Qed.

Lemma unescape_newlines_from_clean n :
  forall s, (String.length s <= n)%nat ->
    strstr (unescape_newlines_from s) escaped_newline = false.
Proof.
  induction n as [|n IH]; intros s Hn.
  - destruct s; [reflexivity|simpl in Hn; lia].
  - destruct s as [|c [|d r']].
    + reflexivity.
    + rewrite unescape_newlines_from_one. cbn [strstr].
      rewrite prefix_escaped_newline_short. reflexivity.
    + rewrite unescape_newlines_from_two. cbn [String.length] in Hn.
      destruct (Ascii.eqb c "\" && Ascii.eqb d "n") eqn:Hp.
      * cbn [strstr].
        rewrite !prefix_escaped_newline_other by reflexivity.
        simpl. apply IH. lia.
      * cbn [strstr]. rewrite (IH (String d r')) by (cbn [String.length]; lia).
        rewrite orb_false_r.
        destruct (unescape_newlines_from_head d r') as [x Hx]. rewrite Hx.
        rewrite prefix_escaped_newline.
        destruct (Ascii.eqb c "\") eqn:Hc; [|reflexivity]. cbn [andb] in Hp |- *.
        destruct (String.prefix escaped_newline (String d r')); [reflexivity|exact Hp].
Qed.

Lemma unescape_newlines_from_fixed n :
  forall s, (String.length s <= n)%nat ->
    strstr s escaped_newline = false -> unescape_newlines_from s = s.
Proof.
  induction n as [|n IH]; intros s Hn Hs.
  - destruct s; [reflexivity|simpl in Hn; lia].
  - destruct s as [|c [|d r']]; try reflexivity.
    cbn [strstr] in Hs. rewrite prefix_escaped_newline in Hs.
    apply orb_false_iff in Hs as [Hp Hs].
    rewrite unescape_newlines_from_two, Hp. f_equal.
    cbn [String.length] in Hn.
    apply IH; [cbn [String.length]; lia|].
    cbn [strstr]. exact Hs.
Qed.

(** X10.  [unescape_newlines] gives back a string of the same length in
    which the two-byte pattern backslash-n occurs nowhere; applied to its
    own result it changes nothing. *)
Theorem unescape_newlines_leaves_no_escape s :
  exists s',
    unescape_newlines (Some s) = Some s'
    /\ String.length s' = String.length s
    /\ strstr s' escaped_newline = false
    /\ unescape_newlines (Some s') = Some s'.
Proof.
  exists (unescape_newlines_from s). split; [reflexivity|].
  split; [apply unescape_newlines_from_length|].
  assert (H : strstr (unescape_newlines_from s) escaped_newline = false)
    by (apply (unescape_newlines_from_clean (String.length s)); lia).
  split; [exact H|].
  simpl. f_equal. apply (unescape_newlines_from_fixed (String.length (unescape_newlines_from s))).
  - lia.
  - exact H.
Qed.

Lemma unrecorded_results_keep_activity_witness :
  is_rsc_active
    (fst (update_history_cache sample_expected_rc sample_did_fail sample_started_state
            (Some sample_rsc_info) sample_failed_monitor)) "R1"
  = is_rsc_active sample_started_state "R1".
Proof.
  apply (unrecorded_results_keep_activity sample_expected_rc sample_did_fail
           sample_started_state (Some sample_rsc_info) sample_failed_monitor "R1").
  right. right. left. reflexivity.
Defined.

Lemma preserved_lock_means_inactive_witness :
  is_rsc_active
    (fst (update_history_cache sample_expected_rc sample_did_fail sample_started_state
            (Some sample_rsc_info) sample_stop_done)) "R1" = false.
Proof.
  apply (preserved_lock_means_inactive sample_expected_rc sample_did_fail true
           sample_started_state (Some sample_rsc_info) sample_stop_done
           sample_started_entry); try reflexivity.
  discriminate.
Defined.

Lemma recorded_failure_is_found_witness :
  did_lrm_rsc_op_fail
    (Some (fst (update_history_cache sample_expected_rc sample_did_fail
                  sample_started_state (Some sample_rsc_info) sample_failed_monitor)))
    (Some "R1") (Some "monitor") 10000 = true.
Proof.
  apply (recorded_failure_is_found sample_expected_rc sample_did_fail sample_started_state
           (Some sample_rsc_info) sample_failed_monitor sample_started_entry "monitor");
    try reflexivity.
  discriminate.
Defined.

Lemma success_keeps_recorded_failure_witness :
  did_lrm_rsc_op_fail
    (Some (fst (update_history_cache sample_expected_rc sample_did_fail
                  sample_failed_state (Some sample_rsc_info) sample_stop_done)))
    (Some "R1") (Some "monitor") 10000
  = did_lrm_rsc_op_fail (Some sample_failed_state) (Some "R1") (Some "monitor") 10000.
Proof.
  apply (success_keeps_recorded_failure sample_expected_rc sample_did_fail
           sample_failed_state (Some sample_rsc_info) sample_stop_done).
  right. reflexivity.
Defined.

Lemma fake_call_id_follows_recorded_witness :
  get_fake_call_id
    (Some (fst (update_history_cache sample_expected_rc sample_did_fail
                  sample_started_state (Some sample_rsc_info) sample_failed_monitor)))
    "R1" = 10%Z.
Proof.
  apply (fake_call_id_follows_recorded sample_expected_rc sample_did_fail
           sample_started_state (Some sample_rsc_info) sample_failed_monitor
           sample_started_entry); try reflexivity.
  split; [intros H; vm_compute in H; discriminate H|reflexivity].
Defined.


Lemma found_failure_can_be_cleared_witness :
  exists st' erased,
    lrm_clear_last_failure (Some sample_failed_state) "R1" (Some "Monitor") 10000
    = Some (Some st', erased)
    /\ forall task' interval',
         did_lrm_rsc_op_fail (Some st') (Some "R1") task' interval' = false.
Proof.
  apply (found_failure_can_be_cleared sample_failed_state "R1" "Monitor" 10000).
  reflexivity.
Defined.

(** *** Cancelling pending operations *)

Section Cancel.

Variable lrm_state_cancel : string -> string -> N -> Z.

Local Abbreviation cancel_op := (Execd.cancel_op lrm_state_cancel).
Local Abbreviation stop_recurring_actions := (Execd.stop_recurring_actions lrm_state_cancel).
Local Abbreviation swept := (Execd.swept lrm_state_cancel).
Local Abbreviation sweep m :=
  (g_hash_table_foreach_remove (U := list executor_request) m stop_recurring_actions []).

(** X11.  [cancel_op] asks the executor at most once per pending operation:
    called again for the same operation, whatever the [remove] flags, it
    sends no request and reports that no cancellation is in progress. *)
Theorem second_cancel_sends_nothing pending_ops rsc_id key op remove remove' :
  let first := cancel_op pending_ops rsc_id key op remove in
  let second := cancel_op (fst (fst first)) rsc_id key op remove' in
  snd (fst second) = [] /\ snd second = false.
Proof.
  cbv zeta. unfold Execd.cancel_op.
  destruct (op =? 0)%Z; [simpl; auto|].
  destruct rsc_id as [rsc|]; [|simpl; auto].
  set (k := match key with Some k => k | None => make_stop_id rsc op end).
  destruct (pending_ops !! k) as [pending|] eqn:Hp.
  - set (p1 := if remove && negb (flag_remove pending) then set_flag_remove pending
               else pending).
    assert (Hc : forall x, flag_cancelled x = true ->
              flag_cancelled (if remove' && negb (flag_remove x) then set_flag_remove x
                              else x) = true).
    { intros x Hx. destruct (remove' && negb (flag_remove x)); [exact Hx|exact Hx]. }
    destruct (flag_cancelled p1) eqn:H1; simpl.
    + rewrite lookup_insert_eq, (Hc _ H1). simpl. auto.
    + rewrite lookup_insert_eq, Hc by reflexivity. simpl. auto.
  - simpl. rewrite Hp. simpl. auto.
Qed.

(** One node of the walk. *)
Lemma sweep_step table sent removed key v :
  table !! key = Some v ->
  exists table' removed',
    foreach_remove_step stop_recurring_actions key v (table, sent, removed)
    = (table', (sent ++ sweep_request v)%list, removed')
    /\ table' !! key = swept v
    /\ forall k, k <> key -> table' !! k = table !! k.
Proof.
  intros Hv.
  unfold foreach_remove_step, Execd.stop_recurring_actions, Execd.swept, sweep_request.
  destruct (pending_interval_ms v =? 0)%N eqn:Hi; simpl.
  - do 2 eexists. rewrite app_nil_r. split; [reflexivity|]. auto.
  - unfold Execd.cancel_op.
    destruct (pending_call_id v =? 0)%Z eqn:Hc; simpl.
    + do 2 eexists. rewrite app_nil_r. split; [reflexivity|]. split.
      * apply lookup_delete_eq.
      * intros k Hk. apply lookup_delete_ne. congruence.
    + rewrite Hv. simpl.
      destruct (flag_cancelled v) eqn:Hf; simpl.
      * do 2 eexists. rewrite app_nil_r. split; [reflexivity|]. split.
        -- apply lookup_delete_eq.
        -- intros k Hk. rewrite lookup_delete_ne, lookup_insert_ne by congruence.
           reflexivity.
      * destruct (lrm_state_cancel _ _ _ =? pcmk_ok)%Z; simpl.
        -- do 2 eexists. split; [reflexivity|]. split.
           ++ apply lookup_insert_eq.
           ++ intros k Hk. apply lookup_insert_ne. congruence.
        -- do 2 eexists. split; [reflexivity|]. split.
           ++ apply lookup_delete_eq.
           ++ intros k Hk. rewrite lookup_delete_ne, lookup_insert_ne by congruence.
              reflexivity.
Qed.

(** The walk over the nodes [m] of a table that starts as [start]. *)
Lemma sweep_from start m :
  (forall k v, m !! k = Some v -> start !! k = Some v) ->
  let r := map_fold (foreach_remove_step stop_recurring_actions) (start, [], 0%N) m in
  (forall k, fst (fst r) !! k
             = match m !! k with Some v => swept v | None => start !! k end)
  /\ (forall q, q ∈ snd (fst r) <-> exists k v, m !! k = Some v /\ q ∈ sweep_request v).
Proof.
  cbv zeta.
  apply (map_fold_weak_ind
    (fun r m =>
       (forall k v, m !! k = Some v -> start !! k = Some v) ->
       (forall k, fst (fst r) !! k
                  = match m !! k with Some v => swept v | None => start !! k end)
       /\ (forall q, q ∈ snd (fst r)
                     <-> exists k v, m !! k = Some v /\ q ∈ sweep_request v))).
  - intros _. split.
    + intros k. rewrite lookup_empty. reflexivity.
    + intros q. simpl. split.
      * intros H. apply elem_of_nil in H. destruct H.
      * intros (k & v & H & _). rewrite lookup_empty in H. discriminate.
  - intros i x m' [[table sent] removed] Hi IH Hsub.
    assert (Hsub' : forall k v, m' !! k = Some v -> start !! k = Some v).
    { intros k v Hk. apply Hsub. rewrite lookup_insert_ne; [exact Hk|].
      intros ->. congruence. }
    destruct (IH Hsub') as [IHt IHs]. simpl in IHt, IHs.
    assert (Hx : table !! i = Some x).
    { rewrite IHt, Hi. apply Hsub. apply lookup_insert_eq. }
    destruct (sweep_step table sent removed i x Hx) as (table' & removed' & -> & Hk & Hne).
    simpl. split.
    + intros k. destruct (decide (k = i)) as [->|Hki].
      * rewrite lookup_insert_eq. exact Hk.
      * rewrite lookup_insert_ne by congruence. rewrite Hne by exact Hki. apply IHt.
    + intros q. rewrite elem_of_app, IHs. split.
      * intros [(k & v & Hkv & Hq)|Hq].
        -- exists k, v. split; [|exact Hq]. rewrite lookup_insert_ne; [exact Hkv|].
           intros ->. congruence.
        -- exists i, x. split; [apply lookup_insert_eq|exact Hq].
      * intros (k & v & Hkv & Hq). destruct (decide (k = i)) as [->|Hki].
        -- rewrite lookup_insert_eq in Hkv. injection Hkv as ->. right. exact Hq.
        -- rewrite lookup_insert_ne in Hkv by congruence. left. exists k, v. auto.
Qed.

Lemma sweep_lookup m k : fst (fst (sweep m)) !! k = m !! k ≫= swept.
Proof.
  destruct (sweep_from m m) as [H _]; [auto|].
  unfold g_hash_table_foreach_remove. rewrite H.
  destruct (m !! k); reflexivity.
Qed.

Lemma sweep_requests m q :
  q ∈ snd (fst (sweep m)) <-> exists k v, m !! k = Some v /\ q ∈ sweep_request v.
Proof.
  destruct (sweep_from m m) as [_ H]; [auto|]. apply H.
Qed.

Lemma swept_one_shot v v' :
  swept v = Some v' ->
  pending_interval_ms v' = pending_interval_ms v
  /\ (pending_interval_ms v = 0%N -> v' = v)
  /\ (pending_interval_ms v <> 0%N ->
      flag_cancelled v = false /\ flag_cancelled v' = true
      /\ lrm_state_cancel (pending_rsc_id v) (pending_op_type v) (pending_interval_ms v)
         = pcmk_ok).
Proof.
  unfold Execd.swept.
  destruct (pending_interval_ms v =? 0)%N eqn:Hi.
  - intros [= <-]. apply N.eqb_eq in Hi. repeat split; congruence.
  - apply N.eqb_neq in Hi.
    destruct (pending_call_id v =? 0)%Z; [discriminate|].
    destruct (flag_cancelled v) eqn:Hf; [discriminate|].
    destruct (_ =? pcmk_ok)%Z eqn:Hrc; [|discriminate].
    intros [= <-]. apply Z.eqb_eq in Hrc. simpl. repeat split; congruence.
Qed.

(** X12.  One walk of [stop_recurring_actions] over the pending operations
    leaves every operation that is not recurring as it was; a recurring
    operation is still in the table afterwards only if it was not flagged
    cancelled before, is flagged now, and the executor accepted the request;
    nothing is added; and the requests sent are those for the recurring
    operations that were not flagged cancelled (and have a call id). *)
Theorem sweep_cancels_recurring pending_ops :
  let walk := g_hash_table_foreach_remove pending_ops stop_recurring_actions [] in
  let table := fst (fst walk) in
  let sent := snd (fst walk) in
  (forall k v, pending_ops !! k = Some v -> pending_interval_ms v = 0%N ->
     table !! k = Some v)
  /\ (forall k v', table !! k = Some v' -> pending_interval_ms v' <> 0%N ->
        flag_cancelled v' = true
        /\ exists v, pending_ops !! k = Some v /\ flag_cancelled v = false
             /\ lrm_state_cancel (pending_rsc_id v) (pending_op_type v)
                  (pending_interval_ms v) = pcmk_ok)
  /\ (forall k, pending_ops !! k = None -> table !! k = None)
  /\ (forall q, q ∈ sent <->
        exists k v, pending_ops !! k = Some v /\ pending_interval_ms v <> 0%N
          /\ pending_call_id v <> 0%Z /\ flag_cancelled v = false
          /\ q = Cancel_request (pending_rsc_id v) (pending_op_type v)
                   (pending_interval_ms v)).
Proof.
  cbv zeta. split; [|split; [|split]].
  - intros k v Hk Hi. rewrite sweep_lookup, Hk. simpl. unfold Execd.swept.
    rewrite Hi. reflexivity.
  - intros k v' H H0. rewrite sweep_lookup in H.
    destruct (pending_ops !! k) as [v|]; [|discriminate]. simpl in H.
    destruct (swept_one_shot _ _ H) as (Hi & _ & Hr).
    rewrite Hi in H0. destruct (Hr H0) as (Hf & Hc & Hrc).
    split; [exact Hc|]. exists v. auto.
  - intros k Hk. rewrite sweep_lookup, Hk. reflexivity.
  - intros q. rewrite sweep_requests. split.
    + intros (k & v & Hk & Hq). exists k, v.
      unfold sweep_request in Hq.
      destruct (pending_interval_ms v =? 0)%N eqn:Hi;
        [apply elem_of_nil in Hq; destruct Hq|].
      destruct (pending_call_id v =? 0)%Z eqn:Hc;
        [apply elem_of_nil in Hq; destruct Hq|].
      destruct (flag_cancelled v) eqn:Hf; [apply elem_of_nil in Hq; destruct Hq|].
      apply list_elem_of_singleton in Hq.
      apply N.eqb_neq in Hi. apply Z.eqb_neq in Hc. auto.
    + intros (k & v & Hk & Hi & Hc & Hf & ->). exists k, v.
      split; [exact Hk|]. unfold sweep_request.
      apply N.eqb_neq in Hi. apply Z.eqb_neq in Hc. rewrite Hi, Hc, Hf.
      apply list_elem_of_singleton. reflexivity.
Qed.

(** X13.  A second walk right after the first sends no request at all and
    takes every recurring operation out of the table: what is left are the
    operations that are not recurring, as they were at the start. *)
Theorem second_sweep_leaves_one_shot pending_ops :
  let first := g_hash_table_foreach_remove pending_ops stop_recurring_actions [] in
  let second := g_hash_table_foreach_remove (fst (fst first)) stop_recurring_actions [] in
  let table := fst (fst second) in
  let sent := snd (fst second) in
  sent = []
  /\ forall k v, table !! k = Some v
       <-> pending_ops !! k = Some v /\ pending_interval_ms v = 0%N.
Proof.
  cbv zeta. split.
  - apply elem_of_nil_inv. intros q Hq. apply sweep_requests in Hq.
    destruct Hq as (k & v & Hk & Hq).
    rewrite sweep_lookup in Hk.
    destruct (pending_ops !! k) as [v0|]; [|discriminate]. simpl in Hk.
    destruct (swept_one_shot _ _ Hk) as (Hi & _ & Hr).
    unfold sweep_request in Hq.
    destruct (pending_interval_ms v =? 0)%N eqn:Hz; [apply elem_of_nil in Hq; exact Hq|].
    apply N.eqb_neq in Hz. rewrite Hi in Hz. destruct (Hr Hz) as (_ & Hc & _).
    rewrite Hc in Hq. destruct (pending_call_id v =? 0)%Z; apply elem_of_nil in Hq; exact Hq.
  - intros k v. rewrite !sweep_lookup. split.
    + destruct (pending_ops !! k) as [v0|]; [|discriminate]. simpl.
      destruct (swept v0) as [v1|] eqn:H0; [|discriminate]. simpl. intros H1.
      destruct (swept_one_shot _ _ H0) as (Hi0 & Hz0 & Hr0).
      destruct (swept_one_shot _ _ H1) as (Hi1 & Hz1 & Hr1).
      destruct (N.eq_dec (pending_interval_ms v0) 0%N) as [Hz|Hnz].
      * pose proof (Hz0 Hz) as ->. pose proof (Hz1 Hz) as ->. auto.
      * destruct (Hr0 Hnz) as (_ & Hc & _).
        rewrite <- Hi0 in Hnz. destruct (Hr1 Hnz) as (Hc' & _). congruence.
    + intros [-> Hi]. simpl. unfold Execd.swept. rewrite Hi. simpl. rewrite Hi. reflexivity.
Qed.

Lemma count_one_shot_positive m :
  (0 < count_one_shot m)%N <-> exists k v, m !! k = Some v /\ pending_interval_ms v = 0%N.
Proof.
  unfold count_one_shot.
  apply (map_fold_weak_ind
    (fun (n : N) m => (0 < n)%N
        <-> exists k v, m !! k = Some v /\ pending_interval_ms v = 0%N)).
  - split; [lia|]. intros (k & v & H & _). rewrite lookup_empty in H. discriminate.
  - intros i x m' n Hi IH.
    destruct (pending_interval_ms x =? 0)%N eqn:Hx.
    + apply N.eqb_eq in Hx. split; [|lia]. intros _. exists i, x.
      split; [apply lookup_insert_eq|exact Hx].
    + apply N.eqb_neq in Hx. rewrite IH. split.
      * intros (k & v & Hk & Hv). exists k, v. split; [|exact Hv].
        rewrite lookup_insert_ne; [exact Hk|]. intros ->. congruence.
      * intros (k & v & Hk & Hv). destruct (decide (k = i)) as [->|Hne].
        -- rewrite lookup_insert_eq in Hk. injection Hk as ->. contradiction.
        -- rewrite lookup_insert_ne in Hk by congruence. exists k, v. auto.
Qed.

(** X14.  [lrm_state_verify_stopped] answers FALSE exactly when the state is
    not S_TERMINATE, the stop of all resources has been sent
    (R_SENT_RSC_STOP), and an operation that is not recurring is pending.
    Recurring operations and resources still active never make it say
    FALSE. *)
Theorem verify_stopped_waits_for_one_shot lrm_state pending_ops connected terminate
    sent_rsc_stop :
  fst (fst (fst (lrm_state_verify_stopped lrm_state_cancel lrm_state pending_ops connected
                   terminate sent_rsc_stop))) = false
  <-> terminate = false /\ sent_rsc_stop = true
      /\ exists table k v,
           pending_ops = Some table /\ table !! k = Some v
           /\ pending_interval_ms v = 0%N.
Proof.
  unfold lrm_state_verify_stopped.
  assert (Hsw : forall table,
            (0 < count_one_shot (fst (fst (sweep table))))%N
            <-> (0 < count_one_shot table)%N).
  { intros table. rewrite !count_one_shot_positive. split.
    - intros (k & v & Hk & Hv). rewrite sweep_lookup in Hk.
      destruct (table !! k) as [v0|] eqn:H0; [|discriminate]. simpl in Hk.
      destruct (swept_one_shot _ _ Hk) as (Hi & Hz & _).
      exists k, v0. split; [exact H0|]. congruence.
    - intros (k & v & Hk & Hv). exists k, v. split; [|exact Hv].
      rewrite sweep_lookup, Hk. simpl. unfold Execd.swept. rewrite Hv. reflexivity. }
  destruct pending_ops as [table|].
  - assert (Hcount : forall t : gmap string active_op_t,
              ((0 < count_one_shot t)%N <-> (0 < count_one_shot table)%N) ->
              forall sent : list executor_request,
              fst (fst (fst
                (if (0 <? count_one_shot t)%N
                 then if terminate || negb sent_rsc_stop
                      then (true, Some t, sent, 0%N) else (false, Some t, sent, 0%N)
                 else (true, Some t, sent, count_active lrm_state)))) = false
              <-> terminate = false /\ sent_rsc_stop = true
                  /\ exists table0 k v, Some table = Some table0 /\ table0 !! k = Some v
                       /\ pending_interval_ms v = 0%N).
    { intros t Ht sent.
      destruct (0 <? count_one_shot t)%N eqn:Hc.
      - apply N.ltb_lt in Hc. apply Ht in Hc. apply count_one_shot_positive in Hc.
        destruct Hc as (k & v & Hk & Hv).
        destruct terminate, sent_rsc_stop; simpl.
        * split; [discriminate|]. intros (? & _). discriminate.
        * split; [discriminate|]. intros (? & _). discriminate.
        * split; [|reflexivity]. intros _. split; [reflexivity|].
          split; [reflexivity|]. exists table, k, v. auto.
        * split; [discriminate|]. intros (_ & ? & _). discriminate.
      - apply N.ltb_ge in Hc. simpl. split; [discriminate|].
        intros (_ & _ & table0 & k & v & [= <-] & Hk & Hv).
        assert (0 < count_one_shot table)%N
          by (apply count_one_shot_positive; exists k, v; auto).
        apply Ht in H. lia. }
    destruct connected.
    + destruct (g_hash_table_foreach_remove table stop_recurring_actions [])
        as [[t sent] removed] eqn:Hs.
      apply Hcount. specialize (Hsw table). rewrite Hs in Hsw. exact Hsw.
    + apply Hcount. reflexivity.
  - simpl. split; [discriminate|]. intros (_ & _ & t & k & v & H & _). discriminate.
Qed.

End Cancel.

(** *** Cancelling by operation key *)

Section CancelByKey.

Variable lrm_state_cancel : string -> string -> N -> Z.

Local Abbreviation cancel_action_by_key := (Execd.cancel_action_by_key lrm_state_cancel).
Local Abbreviation cancel_op_key := (Execd.cancel_op_key lrm_state_cancel).
Local Abbreviation cancelled_by_key := (Execd.cancelled_by_key lrm_state_cancel).

(** One node of the walk of [cancel_op_key]. *)
Lemma by_key_step table data sent removed key v :
  table !! key = Some v ->
  let hit := pcmk__str_eq (Some (pending_op_key v)) (Some (cd_key data)) false in
  exists table' sent' removed',
    foreach_remove_step cancel_action_by_key key v (table, (data, sent), removed)
    = (table',
       (mk_cancel_data (cd_done data || hit) (cd_remove data) (cd_key data) (cd_rsc data),
        sent'), removed')
    /\ table' !! key = (if hit then cancelled_by_key (cd_remove data) v else Some v)
    /\ forall k, k <> key -> table' !! k = table !! k.
Proof.
  intros Hv. cbv zeta.
  unfold foreach_remove_step, Execd.cancel_action_by_key, Execd.cancelled_by_key.
  destruct (pcmk__str_eq (Some (pending_op_key v)) (Some (cd_key data)) false).
  - rewrite orb_true_r. unfold Execd.cancel_op. cbn [cd_remove cd_rsc cd_key].
    destruct (pending_call_id v =? 0)%Z; simpl.
    + do 3 eexists. split; [reflexivity|]. split.
      * apply lookup_delete_eq.
      * intros k Hk. apply lookup_delete_ne. congruence.
    + rewrite Hv. simpl.
      set (p := if cd_remove data && negb (flag_remove v) then set_flag_remove v else v).
      destruct (flag_cancelled p); simpl.
      * do 3 eexists. split; [reflexivity|]. split.
        -- apply lookup_delete_eq.
        -- intros k Hk. rewrite lookup_delete_ne, lookup_insert_ne by congruence.
           reflexivity.
      * destruct (lrm_state_cancel _ _ _ =? pcmk_ok)%Z; simpl.
        -- do 3 eexists. split; [reflexivity|]. split.
           ++ apply lookup_insert_eq.
           ++ intros k Hk. apply lookup_insert_ne. congruence.
        -- do 3 eexists. split; [reflexivity|]. split.
           ++ apply lookup_delete_eq.
           ++ intros k Hk. rewrite lookup_delete_ne, lookup_insert_ne by congruence.
              reflexivity.
  - rewrite orb_false_r. destruct data. simpl.
    do 3 eexists. split; [reflexivity|]. auto.
Qed.

Lemma by_key_from start data m :
  (forall k v, m !! k = Some v -> start !! k = Some v) ->
  cd_done data = false ->
  let r := map_fold (foreach_remove_step cancel_action_by_key)
             (start, (data, []), 0%N) m in
  let data' := fst (snd (fst r)) in
  (forall k, fst (fst r) !! k
             = match m !! k with
               | Some v =>
                   if pcmk__str_eq (Some (pending_op_key v)) (Some (cd_key data)) false
                   then cancelled_by_key (cd_remove data) v else Some v
               | None => start !! k
               end)
  /\ cd_key data' = cd_key data /\ cd_remove data' = cd_remove data
  /\ (cd_done data' = true
      <-> exists k v, m !! k = Some v
            /\ pcmk__str_eq (Some (pending_op_key v)) (Some (cd_key data)) false = true).
Proof.
  intros Hsub Hdone. cbv zeta. revert Hsub.
  apply (map_fold_weak_ind
    (fun r m =>
       (forall k v, m !! k = Some v -> start !! k = Some v) ->
       (forall k, fst (fst r) !! k
                  = match m !! k with
                    | Some v =>
                        if pcmk__str_eq (Some (pending_op_key v)) (Some (cd_key data)) false
                        then cancelled_by_key (cd_remove data) v else Some v
                    | None => start !! k
                    end)
       /\ cd_key (fst (snd (fst r))) = cd_key data
       /\ cd_remove (fst (snd (fst r))) = cd_remove data
       /\ (cd_done (fst (snd (fst r))) = true
           <-> exists k v, m !! k = Some v
                 /\ pcmk__str_eq (Some (pending_op_key v)) (Some (cd_key data)) false
                    = true))).
  - intros _. simpl. split; [intros k; rewrite lookup_empty; reflexivity|].
    split; [reflexivity|]. split; [reflexivity|]. rewrite Hdone. split; [discriminate|].
    intros (k & v & H & _). rewrite lookup_empty in H. discriminate.
  - intros i x m' [[table [d sent]] removed] Hi IH Hsub.
    assert (Hsub' : forall k v, m' !! k = Some v -> start !! k = Some v).
    { intros k v Hk. apply Hsub. rewrite lookup_insert_ne; [exact Hk|].
      intros ->. congruence. }
    destruct (IH Hsub') as (IHt & IHk & IHr & IHd). simpl in IHt, IHk, IHr, IHd.
    assert (Hx : table !! i = Some x).
    { rewrite IHt, Hi. apply Hsub. apply lookup_insert_eq. }
    destruct (by_key_step table d sent removed i x Hx)
      as (table' & sent' & removed' & Heq & Hk & Hne).
    cbv zeta in Heq, Hk. rewrite Heq. simpl. rewrite IHk, IHr in *.
    split; [|split; [reflexivity|split; [reflexivity|]]].
    + intros k. destruct (decide (k = i)) as [->|Hki].
      * rewrite lookup_insert_eq. exact Hk.
      * rewrite lookup_insert_ne by congruence. rewrite Hne by exact Hki. apply IHt.
    + rewrite orb_true_iff, IHd. split.
      * intros [(k & v & Hkv & Hhit)|Hhit].
        -- exists k, v. split; [|exact Hhit]. rewrite lookup_insert_ne; [exact Hkv|].
           intros ->. congruence.
        -- exists i, x. split; [apply lookup_insert_eq|exact Hhit].
      * intros (k & v & Hkv & Hhit). destruct (decide (k = i)) as [->|Hki].
        -- rewrite lookup_insert_eq in Hkv. injection Hkv as ->. right. exact Hhit.
        -- rewrite lookup_insert_ne in Hkv by congruence. left. exists k, v. auto.
Qed.

(** X29.  [cancel_op_key] answers TRUE exactly when some pending operation
    has the given operation key, whether or not a cancellation could be
    started.  Pending operations with another key are left as they were; one
    with the key is still in the table afterwards only if it was not flagged
    cancelled before and the executor accepted the request, and then it is
    flagged cancelled, and flagged for removal if that was asked. *)
Theorem cancel_op_key_by_key pending_ops rsc key remove :
  let r := cancel_op_key pending_ops (Some rsc) (Some key) remove in
  let table := fst (fst r) in
  (snd r = true <-> exists k v, pending_ops !! k = Some v /\ pending_op_key v = key)
  /\ (forall k v, pending_ops !! k = Some v -> pending_op_key v <> key ->
        table !! k = Some v)
  /\ (forall k v', table !! k = Some v' -> pending_op_key v' = key ->
        flag_cancelled v' = true
        /\ (remove = true -> flag_remove v' = true)
        /\ exists v, pending_ops !! k = Some v /\ flag_cancelled v = false
             /\ lrm_state_cancel (pending_rsc_id v) (pending_op_type v)
                  (pending_interval_ms v) = pcmk_ok)
  /\ (forall k, pending_ops !! k = None -> table !! k = None).
Proof.
  cbv zeta. unfold Execd.cancel_op_key, g_hash_table_foreach_remove.
  destruct (by_key_from pending_ops (mk_cancel_data false remove key rsc) pending_ops)
    as (Ht & _ & _ & Hd); [auto|reflexivity|].
  cbv zeta in Ht, Hd. cbn [cd_key cd_remove] in Ht, Hd.
  destruct (map_fold _ _ pending_ops) as [[table [data sent]] removed].
  simpl in Ht, Hd |- *.
  split; [|split; [|split]].
  - rewrite Hd. split; intros (k & v & Hk & Hv); exists k, v; (split; [exact Hk|]);
      apply streq_true; exact Hv.
  - intros k v Hk Hne. rewrite Ht, Hk.
    destruct (streq (pending_op_key v) key) eqn:Hhit; [|reflexivity].
    apply streq_true in Hhit. contradiction.
  - intros k v' Hk Hkey. rewrite Ht in Hk.
    destruct (pending_ops !! k) as [v|]; [|discriminate].
    destruct (streq (pending_op_key v) key) eqn:Hhit.
    + unfold Execd.cancelled_by_key in Hk.
      destruct (pending_call_id v =? 0)%Z; [discriminate|].
      set (p := if remove && negb (flag_remove v) then set_flag_remove v else v) in *.
      destruct (flag_cancelled p) eqn:Hc; [discriminate|].
      destruct (_ =? pcmk_ok)%Z eqn:Hrc; [|discriminate].
      injection Hk as <-. apply Z.eqb_eq in Hrc.
      split; [reflexivity|]. split.
      * intros ->. unfold p. simpl. destruct (flag_remove v) eqn:Hr; simpl; auto.
      * exists v. split; [reflexivity|]. split.
        -- unfold p in Hc. destruct (remove && negb (flag_remove v)); exact Hc.
        -- unfold p in Hrc. destruct (remove && negb (flag_remove v)); exact Hrc.
    + injection Hk as <-. apply streq_true in Hkey. congruence.
  - intros k Hk. rewrite Ht, Hk. reflexivity.
Qed.

End CancelByKey.

(** *** Stopping the recurring operations of one resource *)

Section StopByResource.

Variable lrm_state_cancel : string -> string -> N -> Z.
Variable rsc : lrmd_rsc_info_t.

Local Abbreviation by_rsc := (Execd.stop_recurring_action_by_rsc lrm_state_cancel rsc).
Local Abbreviation swept := (Execd.swept lrm_state_cancel).

(** The operation belongs to the resource. *)
Local Abbreviation of_rsc v :=
  (pcmk__str_eq (Some (pending_rsc_id v)) (Some (rsc_info_id rsc)) false).

Lemma by_rsc_step table sent removed key v :
  table !! key = Some v ->
  exists table' removed',
    foreach_remove_step by_rsc key v (table, sent, removed)
    = (table', (sent ++ (if of_rsc v then sweep_request v else []))%list, removed')
    /\ table' !! key = (if of_rsc v then swept v else Some v)
    /\ forall k, k <> key -> table' !! k = table !! k.
Proof.
  intros Hv.
  unfold foreach_remove_step, Execd.stop_recurring_action_by_rsc, Execd.swept, sweep_request.
  destruct (pending_interval_ms v =? 0)%N eqn:Hi; cbn [negb andb].
  - do 2 eexists. split.
    + destruct (of_rsc v); rewrite app_nil_r; reflexivity.
    + destruct (of_rsc v); auto.
  - destruct (of_rsc v) eqn:Hr.
    + assert (Hid : pending_rsc_id v = rsc_info_id rsc) by (apply streq_true; exact Hr).
      unfold Execd.cancel_op.
      destruct (pending_call_id v =? 0)%Z eqn:Hc; simpl.
      * do 2 eexists. rewrite app_nil_r. split; [reflexivity|]. split.
        -- apply lookup_delete_eq.
        -- intros k Hk. apply lookup_delete_ne. congruence.
      * rewrite Hv. simpl.
        destruct (flag_cancelled v) eqn:Hf; simpl.
        -- do 2 eexists. rewrite app_nil_r. split; [reflexivity|]. split.
           ++ apply lookup_delete_eq.
           ++ intros k Hk. rewrite lookup_delete_ne, lookup_insert_ne by congruence.
              reflexivity.
        -- destruct (lrm_state_cancel _ _ _ =? pcmk_ok)%Z; simpl.
           ++ do 2 eexists. split; [reflexivity|]. split.
              ** apply lookup_insert_eq.
              ** intros k Hk. apply lookup_insert_ne. congruence.
           ++ do 2 eexists. split; [reflexivity|]. split.
              ** apply lookup_delete_eq.
              ** intros k Hk. rewrite lookup_delete_ne, lookup_insert_ne by congruence.
                 reflexivity.
    + do 2 eexists. rewrite app_nil_r. split; [reflexivity|]. auto.
Qed.

Lemma by_rsc_from start m :
  (forall k v, m !! k = Some v -> start !! k = Some v) ->
  let r := map_fold (foreach_remove_step by_rsc) (start, [], 0%N) m in
  (forall k, fst (fst r) !! k
             = match m !! k with
               | Some v => if of_rsc v then swept v else Some v
               | None => start !! k
               end)
  /\ (forall q, q ∈ snd (fst r) ->
        exists k v, m !! k = Some v /\ of_rsc v = true /\ q ∈ sweep_request v).
Proof.
  cbv zeta.
  apply (map_fold_weak_ind
    (fun r m =>
       (forall k v, m !! k = Some v -> start !! k = Some v) ->
       (forall k, fst (fst r) !! k
                  = match m !! k with
                    | Some v => if of_rsc v then swept v else Some v
                    | None => start !! k
                    end)
       /\ (forall q, q ∈ snd (fst r) ->
             exists k v, m !! k = Some v /\ of_rsc v = true /\ q ∈ sweep_request v))).
  - intros _. split.
    + intros k. rewrite lookup_empty. reflexivity.
    + intros q H. apply elem_of_nil in H. destruct H.
  - intros i x m' [[table sent] removed] Hi IH Hsub.
    assert (Hsub' : forall k v, m' !! k = Some v -> start !! k = Some v).
    { intros k v Hk. apply Hsub. rewrite lookup_insert_ne; [exact Hk|].
      intros ->. congruence. }
    destruct (IH Hsub') as [IHt IHs]. simpl in IHt, IHs.
    assert (Hx : table !! i = Some x).
    { rewrite IHt, Hi. apply Hsub. apply lookup_insert_eq. }
    destruct (by_rsc_step table sent removed i x Hx) as (table' & removed' & -> & Hk & Hne).
    simpl. split.
    + intros k. destruct (decide (k = i)) as [->|Hki].
      * rewrite lookup_insert_eq. exact Hk.
      * rewrite lookup_insert_ne by congruence. rewrite Hne by exact Hki. apply IHt.
    + intros q Hq. apply elem_of_app in Hq as [Hq|Hq].
      * destruct (IHs q Hq) as (k & v & Hkv & Hr & Hin).
        exists k, v. split; [|auto]. rewrite lookup_insert_ne; [exact Hkv|].
        intros ->. congruence.
      * exists i, x.
        change (of_rsc x) with (streq (pending_rsc_id x) (rsc_info_id rsc)) in *.
        destruct (streq (pending_rsc_id x) (rsc_info_id rsc)) eqn:Hr.
        -- split; [apply lookup_insert_eq|split; [reflexivity|exact Hq]].
        -- apply elem_of_nil in Hq. destruct Hq.
Qed.

(** X30.  Stopping the recurring operations of a resource (the walk with
    [stop_recurring_action_by_rsc]) is local to them: pending operations of
    other resources, and operations of this resource that are not recurring,
    are left as they were; a recurring operation of the resource that is
    still in the table is flagged cancelled; and every request sent asks the
    executor to cancel a recurring operation of this resource. *)
Theorem stop_recurring_by_rsc_is_local pending_ops :
  let r := g_hash_table_foreach_remove pending_ops
             (stop_recurring_action_by_rsc lrm_state_cancel rsc) [] in
  let table := fst (fst r) in
  (forall k v, pending_ops !! k = Some v ->
     pending_rsc_id v <> rsc_info_id rsc \/ pending_interval_ms v = 0%N ->
     table !! k = Some v)
  /\ (forall k v', table !! k = Some v' ->
        pending_rsc_id v' = rsc_info_id rsc -> pending_interval_ms v' <> 0%N ->
        flag_cancelled v' = true)
  /\ (forall q, q ∈ snd (fst r) ->
        exists op_type interval_ms,
          q = Cancel_request (rsc_info_id rsc) op_type interval_ms
          /\ interval_ms <> 0%N).
Proof.
  cbv zeta. unfold g_hash_table_foreach_remove.
  destruct (by_rsc_from pending_ops pending_ops) as [Ht Hs]; [auto|].
  cbv zeta in Ht, Hs.
  split; [|split].
  - intros k v Hk Hor. rewrite Ht, Hk.
    destruct (of_rsc v) eqn:Hr; [|reflexivity].
    apply streq_true in Hr. destruct Hor as [Hne|Hz]; [contradiction|].
    unfold Execd.swept. rewrite Hz. reflexivity.
  - intros k v' Hk Hid Hi. rewrite Ht in Hk.
    destruct (pending_ops !! k) as [v|]; [|discriminate].
    destruct (of_rsc v) eqn:Hr.
    + destruct (swept_one_shot _ _ _ Hk) as (Heq & _ & Hrec).
      rewrite Heq in Hi. destruct (Hrec Hi) as (_ & Hc & _). exact Hc.
    + injection Hk as <-.
      assert (of_rsc v = true) by (apply streq_true; exact Hid). congruence.
  - intros q Hq. destruct (Hs q Hq) as (k & v & Hk & Hr & Hin).
    apply streq_true in Hr. unfold sweep_request in Hin.
    destruct (pending_interval_ms v =? 0)%N eqn:Hi; [apply elem_of_nil in Hin; destruct Hin|].
    destruct (pending_call_id v =? 0)%Z; [apply elem_of_nil in Hin; destruct Hin|].
    destruct (flag_cancelled v); [apply elem_of_nil in Hin; destruct Hin|].
    apply list_elem_of_singleton in Hin. subst q. rewrite Hr.
    apply N.eqb_neq in Hi. eauto.
Qed.

End StopByResource.

End ExecdFacts.

(** ** Fencing device selection *)
Module FencingFacts.
Import Str StrFacts Fencing.

Lemma sort_device_priority_zero a b : sort_device_priority a b = 0%Z.
Proof.
  unfold sort_device_priority.
  destruct (Z.gtb_spec (priority a) (priority a)); [lia|].
  destruct (Z.ltb_spec (priority a) (priority a)); [lia|reflexivity].
Qed.

(** Merging under a comparison that is never positive is concatenation. *)
Lemma g_list_sort_merge_never_positive {A} (cmp : A -> A -> Z) (l1 l2 : list A) :
  (forall a b, (cmp a b <= 0)%Z) ->
  g_list_sort_merge cmp l1 l2 = (l1 ++ l2)%list.
Proof.
  intros Hcmp. revert l2. induction l1 as [|a l1 IH]; intros l2.
  - destruct l2; reflexivity.
  - destruct l2 as [|b l2].
    + simpl. rewrite app_nil_r. reflexivity.
    + simpl. destruct (Z.leb_spec (cmp a b) 0) as [_|Hgt].
      * f_equal. apply IH.
      * specialize (Hcmp a b). lia.
Qed.

Lemma g_list_sort_real_never_positive {A} (cmp : A -> A -> Z) depth (l : list A) :
  (forall a b, (cmp a b <= 0)%Z) ->
  g_list_sort_real depth l cmp = l.
Proof.
  intros Hcmp. revert l. induction depth as [|depth IH]; intros l; [reflexivity|].
  simpl. destruct l as [|x [|y l]]; try reflexivity.
  rewrite !IH, g_list_sort_merge_never_positive by exact Hcmp.
  apply take_drop.
Qed.

(** Any depth from the length of the list on gives the same result. *)
Lemma g_list_sort_real_depth {A} (cmp : A -> A -> Z) d : forall d' (l : list A),
  (length l <= d)%nat -> (length l <= d')%nat ->
  g_list_sort_real d l cmp = g_list_sort_real d' l cmp.
Proof.
  induction d as [|d IH]; intros d' l Hd Hd'.
  - destruct l; [|simpl in Hd; lia]. destruct d'; reflexivity.
  - destruct d' as [|d'].
    + destruct l; [reflexivity | simpl in Hd'; lia].
    + destruct l as [|x [|y l]]; try reflexivity.
      cbn [g_list_sort_real].
      set (half := (length (x :: y :: l) / 2)%nat).
      assert (1 <= half < length (x :: y :: l))%nat as Hhalf.
      { subst half. cbn [length].
        split; [apply Nat.div_le_lower_bound; lia | apply Nat.div_lt; lia]. }
      rewrite (IH d' (take half (x :: y :: l))), (IH d' (drop half (x :: y :: l)));
        rewrite ?length_take, ?length_drop; try lia.
      reflexivity.
Qed.

(** C2 on the code: [sort_device_priority] compares its first argument with
    itself, so [g_list_sort] hands the capable devices back in the order the
    search found them.  With D2 (priority 5) found before D1 (priority 10)
    the fence is dispatched to D2, [device_next] stays empty so that a
    failure falls back on nothing, while comparing [a] with [b] puts D1
    first. *)
Theorem priority_sort_keeps_search_order :
  (forall capable, g_list_sort capable sort_device_priority = capable) /\
  (let '(rc, order, scheduled) := stonith_fence [sample_D2; sample_D1] sample_cmd in
   rc = stonith_pending /\
   List.map dev_id order = ["D2"; "D1"] /\
   List.map priority order = [5%Z; 10%Z] /\
   (scheduled ≫= (fun s => cmd_device (fst s))) = Some "D2" /\
   (scheduled ≫= (fun s => exec_child_retry (fst s) 1)) = None) /\
  List.map dev_id (g_list_sort [sample_D2; sample_D1] compare_priority_desc) = ["D1"; "D2"].
Proof.
  split; [|split].
  - intros capable. apply g_list_sort_real_never_positive.
    intros a b. rewrite sort_device_priority_zero. lia.
  - vm_compute. repeat split; reflexivity.
  - vm_compute. reflexivity.
Qed.

Lemma safe_str_eq_lower a b :
  safe_str_eq (Some a) (Some b) = true -> lower a = lower b.
Proof. simpl. unfold strcaseeq. apply String.eqb_eq. Qed.

(** The policy the code computes for such a device. *)
Lemma dynamic_list_policy dev :
  is_dynamic_list dev ->
  safe_str_eq (Some (host_check_type dev)) (Some "dynamic-list") = true.
Proof.
  unfold is_dynamic_list, host_check_type, STONITH_ATTR_HOSTCHECK, STONITH_ATTR_HOSTLIST.
  destruct (dev_params dev !! "pcmk_host_check") as [check_type|].
  - intros H. simpl. unfold strcaseeq. rewrite H. reflexivity.
  - intros ->. reflexivity.
Qed.

Lemma dynamic_list_not_none dev :
  is_dynamic_list dev -> safe_str_eq (Some (host_check_type dev)) (Some "none") = false.
Proof.
  intros H. apply dynamic_list_policy, safe_str_eq_lower in H.
  simpl. unfold strcaseeq. rewrite H. reflexivity.
Qed.

Lemma dynamic_list_not_static dev :
  is_dynamic_list dev ->
  safe_str_eq (Some (host_check_type dev)) (Some "static-list") = false.
Proof.
  intros H. apply dynamic_list_policy, safe_str_eq_lower in H.
  simpl. unfold strcaseeq. rewrite H. reflexivity.
Qed.

(** [string_in_list] finds an item exactly when some element of the list is
    the item up to the case of its letters. *)
Lemma string_in_list_spec glist item :
  string_in_list glist item = true <->
  exists value, In value glist /\ lower value = lower item.
Proof.
  unfold string_in_list. rewrite existsb_exists.
  split; intros (value & Hin & Heq); exists value; (split; [exact Hin|]).
  - symmetry. apply safe_str_eq_lower, Heq.
  - simpl. unfold strcaseeq. apply String.eqb_eq. symmetry. exact Heq.
Qed.

(** [host_alias] is the entry of the device's alias table for the host, and
    the host itself where the table has none. *)
Lemma host_alias_spec dev host :
  host_alias dev host = default host (aliases dev !! host).
Proof. unfold host_alias. destruct (aliases dev !! host); reflexivity. Qed.

Section HostCheckFacts.

Variable parse_host_list : option string -> list string.

Local Abbreviation can_fence := (can_fence_host_with_device parse_host_list).
Local Abbreviation refresh := (refresh_dynamic_list parse_host_list).

Lemma can_fence_dynamic run now dev host :
  is_dynamic_list dev ->
  can_fence run now (Some dev) (Some host)
  = (Some (fst (refresh run now dev)),
     string_in_list (targets (fst (refresh run now dev))) (host_alias dev host),
     snd (refresh run now dev)).
Proof.
  intros Hdyn. unfold can_fence_host_with_device.
  rewrite (dynamic_list_not_none dev Hdyn), (dynamic_list_not_static dev Hdyn),
    (dynamic_list_policy dev Hdyn).
  destruct (refresh run now dev). reflexivity.
Qed.

Lemma refresh_keeps_params run now dev :
  dev_params (fst (refresh run now dev)) = dev_params dev.
Proof.
  unfold refresh_dynamic_list.
  destruct (targets_age dev <? 0)%Z; [reflexivity|].
  destruct (_ || _); [|reflexivity].
  destruct (_ || _); reflexivity.
Qed.

(** A device whose list queries are disabled and whose list is empty keeps
    answering no, runs nothing and does not change. *)
Lemma disabled_stays_disabled dev checks :
  is_dynamic_list dev ->
  (targets_age dev < 0)%Z ->
  targets dev = [] ->
  run_checks parse_host_list dev checks
  = (dev, List.map (fun _ => (false, [])) checks).
Proof.
  intros Hdyn Hage Htargets. induction checks as [|[[run now] host] checks IH].
  - reflexivity.
  - cbn [run_checks]. rewrite (can_fence_dynamic run now dev host Hdyn).
    unfold refresh_dynamic_list.
    destruct (Z.ltb_spec (targets_age dev) 0); [|lia]. simpl.
    rewrite IH, Htargets. reflexivity.
Qed.

(** C4: for a device with the dynamic-list policy and a target [host], the
    answer is yes exactly when the cached list, as the call leaves it, holds
    the target's alias (the entry of the alias table for the target, the
    target itself without one) up to the case of letters; the agent's list
    action runs exactly when queries are not disabled and the list is missing
    or older than 60 seconds, and refreshes list and age; when that run fails
    queries are disabled, the answer is no, and every later check on the
    device answers no, runs no agent and leaves the device as it is. *)
Theorem dynamic_list_host_check run now dev host :
  is_dynamic_list dev ->
  let result := can_fence run now (Some dev) (Some host) in
  let r := run (agent dev) "list" None in
  let alias := default host (aliases dev !! host) in
  exists dev',
    fst (fst result) = Some dev' /\
    (snd (fst result) = true <->
     exists value, In value (targets dev') /\ lower value = lower alias) /\
    snd result
    = (if (0 <=? targets_age dev)%Z && list_stale dev now then [("list", None)] else []) /\
    (snd result = [] -> dev' = dev) /\
    (snd result <> [] -> list_failed r = false ->
       targets dev' = parse_host_list (agent_output r) /\ targets_age dev' = now) /\
    (snd result <> [] -> list_failed r = true ->
       targets dev' = [] /\ targets_age dev' = (-1)%Z /\ snd (fst result) = false /\
       forall checks,
         run_checks parse_host_list dev' checks
         = (dev', List.map (fun _ => (false, [])) checks)).
Proof.
  intros Hdyn result r alias. subst result alias.
  rewrite (can_fence_dynamic run now dev host Hdyn). simpl.
  eexists. split; [reflexivity|].
  split; [rewrite <- host_alias_spec; apply string_in_list_spec|].
  pose proof (refresh_keeps_params run now dev) as Hparams.
  unfold refresh_dynamic_list in *. unfold list_stale, list_failed. fold r in Hparams |- *.
  destruct (Z.ltb_spec (targets_age dev) 0) as [Hneg|Hpos].
  { destruct (Z.leb_spec 0 (targets_age dev)); [lia|]. simpl.
    repeat split; congruence. }
  destruct (Z.leb_spec 0 (targets_age dev)); [|lia]. simpl.
  destruct (match targets dev with [] => true | _ => false end
            || (targets_age dev + 60 <? now)%Z); [|simpl; repeat split; congruence].
  destruct ((exec_rc r <? 0)%Z || negb (agent_rc r =? 0)%Z) eqn:Hfail; simpl.
  - split; [reflexivity|]. split; [discriminate|]. split; [discriminate|].
    intros _ _. repeat split.
    intros checks. apply disabled_stays_disabled; simpl; [|lia|reflexivity].
    unfold is_dynamic_list in *. simpl in Hparams |- *. exact Hdyn.
  - split; [reflexivity|]. split; [discriminate|]. split; [|discriminate].
    intros _ _. split; reflexivity.
Qed.

End HostCheckFacts.

(** A device without host-check parameters is asked about N2 at time 1000;
    its list action fails; three later checks then answer no without a run.
    A device that knows node2 as n2 and whose agent lists N2 is asked about
    node2: the list is fetched and the answer is yes. *)
Lemma dynamic_list_host_check_witness :
  (let result :=
     can_fence_host_with_device sample_parse_host_list sample_failing_agent 1000
       (Some sample_D1) (Some "N2") in
   exists dev',
     fst (fst result) = Some dev' /\
     snd (fst result) = false /\
     snd result = [("list", None)] /\
     targets_age dev' = (-1)%Z /\
     run_checks sample_parse_host_list dev'
       [(sample_listing_agent, 1001%Z, "N2"); (sample_listing_agent, 2000%Z, "N2");
        (sample_listing_agent, 99999%Z, "N3")]
     = (dev', [(false, []); (false, []); (false, [])])) /\
  (let result :=
     can_fence_host_with_device sample_parse_host_list sample_listing_agent 1000
       (Some sample_aliased_device) (Some "node2") in
   exists dev',
     fst (fst result) = Some dev' /\
     snd (fst result) = true /\
     snd result = [("list", None)] /\
     targets dev' = ["N2"] /\ targets_age dev' = 1000%Z).
Proof.
  split.
  - intros result.
    destruct (dynamic_list_host_check sample_parse_host_list sample_failing_agent 1000
                sample_D1 "N2" eq_refl)
      as (dev' & Hdev & Hcan & Hcalls & _ & _ & Hfail).
    assert (snd result <> []) as Hne by (subst result; rewrite Hcalls; discriminate).
    destruct (Hfail Hne eq_refl) as (_ & Hage & Hno & Hlater).
    exists dev'. split; [exact Hdev|]. split; [exact Hno|]. split; [exact Hcalls|].
    split; [exact Hage|]. apply Hlater.
  - intros result.
    destruct (dynamic_list_host_check sample_parse_host_list sample_listing_agent 1000
                sample_aliased_device "node2" eq_refl)
      as (dev' & Hdev & Hcan & Hcalls & _ & Hfresh & _).
    assert (snd result <> []) as Hne by (subst result; rewrite Hcalls; discriminate).
    destruct (Hfresh Hne eq_refl) as (Htargets & Hage).
    exists dev'. split; [exact Hdev|]. split.
    + apply Hcan. exists "N2". rewrite Htargets. split; [left; reflexivity | reflexivity].
    + split; [exact Hcalls|]. split; [exact Htargets | exact Hage].
Defined.

(** *** Dispatch and the work queue *)

(** X21.  [stonith_fence] hands the command to the first capable device in
    search order, at the tail of that device's queue, and with an empty
    [device_next]: whatever the agent returns later, [exec_child_done] finds
    no device to fall back on.  Without a capable device nothing is
    scheduled. *)
Theorem fence_has_no_fallback device rest cmd :
  cmd_device_next cmd = [] ->
  stonith_fence [] cmd = (st_err_none_available, [], None)
  /\ exists cmd',
       stonith_fence (device :: rest) cmd
       = (stonith_pending, device :: rest,
          Some (cmd', schedule_stonith_command cmd' device))
       /\ cmd_device cmd' = Some (dev_id device)
       /\ pending_ops (schedule_stonith_command cmd' device)
          = (pending_ops device ++ [cmd'])%list
       /\ forall rc, exec_child_retry cmd' rc = None.
Proof.
  intros Hnext. split; [reflexivity|].
  unfold stonith_fence.
  assert (Hsort : g_list_sort (device :: rest) sort_device_priority = device :: rest).
  { apply g_list_sort_real_never_positive.
    intros a b. rewrite sort_device_priority_zero. lia. }
  rewrite Hsort. eexists. split; [reflexivity|].
  split; [reflexivity|]. split; [reflexivity|].
  intros rc. unfold exec_child_retry. simpl. rewrite Hnext.
  destruct (negb (rc =? 0)%Z); reflexivity.
Qed.

Lemma fence_has_no_fallback_witness :
  stonith_fence [] sample_cmd = (st_err_none_available, [], None)
  /\ exists cmd',
       stonith_fence (sample_D2 :: [sample_D1]) sample_cmd
       = (stonith_pending, sample_D2 :: [sample_D1],
          Some (cmd', schedule_stonith_command cmd' sample_D2))
       /\ cmd_device cmd' = Some (dev_id sample_D2)
       /\ pending_ops (schedule_stonith_command cmd' sample_D2)
          = (pending_ops sample_D2 ++ [cmd'])%list
       /\ forall rc, exec_child_retry cmd' rc = None.
Proof.
  apply (fence_has_no_fallback sample_D2 [sample_D1] sample_cmd). reflexivity.
Defined.

Section SearchFacts.

Variable parse_host_list : option string -> list string.

Lemma can_fence_keeps_id run now dev host :
  exists dev',
    fst (fst (can_fence_host_with_device parse_host_list run now (Some dev) host))
    = Some dev'
    /\ dev_id dev' = dev_id dev
    /\ (host = None ->
        dev' = dev
        /\ snd (fst (can_fence_host_with_device parse_host_list run now (Some dev) host))
           = true).
Proof.
  unfold can_fence_host_with_device.
  destruct host as [host|]; [|exists dev; auto].
  destruct (safe_str_eq _ (Some "none")); [exists dev; split; [reflexivity|];
    split; [reflexivity|discriminate]|].
  destruct (safe_str_eq _ (Some "static-list")); [exists dev; split; [reflexivity|];
    split; [reflexivity|discriminate]|].
  destruct (safe_str_eq _ (Some "dynamic-list")).
  - unfold refresh_dynamic_list.
    destruct (targets_age dev <? 0)%Z; [exists dev; split; [reflexivity|];
      split; [reflexivity|discriminate]|].
    destruct (_ || _); [|exists dev; split; [reflexivity|];
      split; [reflexivity|discriminate]].
    destruct (_ || _); eexists; (split; [reflexivity|]); split;
      try reflexivity; discriminate.
  - destruct (safe_str_eq _ (Some "status")); exists dev; (split; [reflexivity|]);
      split; try reflexivity; discriminate.
Qed.

(** X22.  [search_devices] keeps the device table in shape: the devices
    afterwards are the same ids in the same order, and the capable list is a
    sublist of them in table order.  A search without a target takes every
    device for capable and changes none. *)
Theorem search_keeps_table_order run now device_list host :
  let r := search_devices parse_host_list run now device_list host in
  List.map dev_id (fst r) = List.map dev_id device_list
  /\ snd r `sublist_of` fst r
  /\ (host = None -> fst r = device_list /\ snd r = device_list).
Proof.
  cbv zeta. induction device_list as [|dev devices IH].
  - simpl. split; [reflexivity|]. split; [constructor|auto].
  - cbn [search_devices].
    destruct (can_fence_keeps_id run now dev host) as (dev' & Hd & Hid & Hnone).
    destruct (can_fence_host_with_device parse_host_list run now (Some dev) host)
      as [[d can] calls].
    simpl in Hd, Hnone. subst d.
    destruct (search_devices parse_host_list run now devices host) as [rest' capable].
    simpl in IH. destruct IH as (IHm & IHs & IHn).
    split; [simpl; congruence|]. split.
    + destruct can; simpl.
      * apply sublist_skip. exact IHs.
      * apply sublist_cons. exact IHs.
    + intros Hh. destruct (Hnone Hh) as [-> ->]. destruct (IHn Hh) as [-> ->].
      simpl. auto.
Qed.

End SearchFacts.

Section WorkQueueFacts.

Variable st_err_generic st_err_signal st_err_timeout : Z.
Variable stand_alone : bool.
Variable origin_of : async_command_t -> option string.
Variable run_async : stonith_device_t -> async_command_t -> Z * Z.

Local Abbreviation done :=
  (exec_child_done st_err_generic st_err_signal st_err_timeout stand_alone origin_of).
Local Abbreviation execute :=
  (stonith_device_execute st_err_generic st_err_signal st_err_timeout stand_alone origin_of
     run_async).
Local Abbreviation run :=
  (run_device st_err_generic st_err_signal st_err_timeout stand_alone origin_of run_async).

(** The reply [exec_child_done] sends for a command without fallback. *)
Lemma done_without_fallback table cmd id signum timedout rc :
  cmd_device cmd = Some id ->
  cmd_device_next cmd = [] ->
  exists rc' route released,
    done table cmd signum timedout rc
    = Some (match table !! id with
            | Some w => <[id := mk_work (work_device w) 0]> table
            | None => table
            end, (released ++ [Replied cmd rc' route])%list)
    /\ started released = [] /\ replied released = []
    /\ (route = Broadcast_notify
        <-> broadcast_action (cmd_action cmd) = true /\ stand_alone = false).
Proof.
  intros Hd Hn. unfold exec_child_done. rewrite Hd.
  assert (Hretry : forall x, exec_child_retry cmd x = None).
  { intros x. unfold exec_child_retry. rewrite Hn. destruct (negb _); reflexivity. }
  assert (Hroute : forall r : reply_route,
            r = (if broadcast_action (cmd_action cmd) && negb stand_alone
                 then Broadcast_notify
                 else match origin_of cmd with
                      | Some origin => To_origin origin
                      | None => To_local_client
                      end) ->
            r = Broadcast_notify
            <-> broadcast_action (cmd_action cmd) = true /\ stand_alone = false).
  { intros r ->. destruct (broadcast_action (cmd_action cmd)), stand_alone; simpl.
    - destruct (origin_of cmd); split; try discriminate; intros [_ H]; discriminate H.
    - split; auto.
    - destruct (origin_of cmd); split; try discriminate; intros [H _]; discriminate H.
    - destruct (origin_of cmd); split; try discriminate; intros [H _]; discriminate H. }
  destruct (table !! id) as [w|]; rewrite Hretry; do 3 eexists;
    (split; [reflexivity|]); (split; [reflexivity|]); (split; [reflexivity|]);
    apply Hroute; reflexivity.
Qed.

(** The five actions whose result is broadcast, by name. *)
Lemma broadcast_action_spec action :
  broadcast_action action = true <->
  In action ["reboot"; "poweroff"; "poweron"; "off"; "on"].
Proof.
  unfold broadcast_action. simpl. unfold streq.
  rewrite !orb_true_iff, !String.eqb_eq. intuition.
Qed.

(** X23.  What [exec_child_done] reports does not depend on the outcome in
    two ways: every positive return code gives the same result (the agent's
    exit code is not passed on, [st_err_generic] is), and for a command
    without fallback the reply is broadcast whenever the action is one of
    reboot, poweroff, poweron, off, on and the daemon is not stand-alone,
    whether the action worked or not; it is never broadcast by a stand-alone
    daemon or for an action that is none of these five names, not even up to
    the case of letters, and then goes to the origin of the command or, without
    one, to the local client.  The device of the command is idle afterwards. *)
Theorem child_outcome_is_flattened table cmd id signum timedout :
  cmd_device cmd = Some id ->
  cmd_device_next cmd = [] ->
  (forall rc1 rc2, (0 < rc1)%Z -> (0 < rc2)%Z ->
     done table cmd signum timedout rc1 = done table cmd signum timedout rc2)
  /\ forall rc,
       exists table' events rc' route,
         done table cmd signum timedout rc = Some (table', events)
         /\ replied events = [(cmd, rc')]
         /\ last events = Some (Replied cmd rc' route)
         /\ (signum = 0%Z -> rc' = if (0 <? rc)%Z then st_err_generic else rc)
         /\ (In (cmd_action cmd) ["reboot"; "poweroff"; "poweron"; "off"; "on"] ->
             stand_alone = false -> route = Broadcast_notify)
         /\ (stand_alone = true
             \/ ~ In (lower (cmd_action cmd)) ["reboot"; "poweroff"; "poweron"; "off"; "on"] ->
             route = match origin_of cmd with
                     | Some origin => To_origin origin
                     | None => To_local_client
                     end)
         /\ (forall w, table !! id = Some w ->
               table' !! id = Some (mk_work (work_device w) 0)).
Proof.
  intros Hd Hn.
  assert (Hretry : forall x, exec_child_retry cmd x = None).
  { intros x. unfold exec_child_retry. rewrite Hn. destruct (negb _); reflexivity. }
  split.
  - intros rc1 rc2 H1 H2. unfold exec_child_done. rewrite Hd.
    destruct (table !! id) as [w|]; rewrite !Hretry;
      destruct (negb (signum =? 0)%Z); try reflexivity;
      apply Z.ltb_lt in H1, H2; rewrite H1, H2; reflexivity.
  - intros rc. unfold exec_child_done. rewrite Hd.
    set (rc0 := if negb (signum =? 0)%Z
                then (if timedout then st_err_timeout else st_err_signal) else rc).
    set (route := if broadcast_action (cmd_action cmd) && negb stand_alone
                  then Broadcast_notify
                  else match origin_of cmd with
                       | Some origin => To_origin origin
                       | None => To_local_client
                       end).
    exists (match table !! id with
            | Some w => <[id := mk_work (work_device w) 0]> table
            | None => table
            end),
           ((match table !! id with Some _ => [Work_triggered id] | None => [] end)
            ++ [Replied cmd (if (0 <? rc0)%Z then st_err_generic else rc0) route])%list,
           (if (0 <? rc0)%Z then st_err_generic else rc0), route.
    split; [destruct (table !! id); rewrite Hretry; reflexivity|].
    split; [destruct (table !! id); reflexivity|].
    split; [apply last_snoc|].
    split; [intros ->; reflexivity|].
    split; [|split].
    + intros Hin ->. subst route.
      apply broadcast_action_spec in Hin. rewrite Hin. reflexivity.
    + intros Hno. subst route.
      destruct (broadcast_action (cmd_action cmd)) eqn:Hb; [|reflexivity].
      destruct Hno as [-> | Hno]; [reflexivity|]. exfalso. apply Hno.
      apply broadcast_action_spec in Hb.
      destruct Hb as [Hb|[Hb|[Hb|[Hb|[Hb|[]]]]]]; rewrite <- Hb; simpl; tauto.
    + intros w Hw. rewrite Hw. apply lookup_insert_eq.
Qed.

Lemma run_idle turns : forall table id w,
  table !! id = Some w ->
  active_pid w = 0%Z ->
  pending_ops (work_device w) = [] ->
  forall child_ends, run child_ends turns table id = Some (table, []).
Proof.
  induction turns as [|turns IH]; intros table id w Hw Ha Hp child_ends; [reflexivity|].
  cbn [run_device]. unfold stonith_device_execute.
  rewrite Hw, Ha, Hp. simpl.
  rewrite (IH table id w Hw Ha Hp). reflexivity.
Qed.

(** One command through the queue of an idle device. *)
Lemma execute_then_done child_ends table id dev cmd rest :
  table !! id = Some (mk_work dev 0) ->
  dev_id dev = id ->
  pending_ops dev = cmd :: rest ->
  cmd_device_next cmd = [] ->
  let cmd' := set_cmd_device cmd (Some id) in
  exists events rc',
    (match execute table id with
     | None => None
     | Some (table1, events1) =>
         match (match events1 with
                | [Started c] =>
                    let '(signum, timedout, rc) := child_ends c in
                    done table1 c signum timedout rc
                | _ => Some (table1, [])
                end) with
         | None => None
         | Some (table2, events2) => Some (table2, (events1 ++ events2)%list)
         end
     end)
    = Some (<[id := mk_work (set_pending_ops dev rest) 0]> table, events)
    /\ started events = [cmd']
    /\ replied events = [(cmd', rc')].
Proof.
  intros Hw Hid Hp Hn. cbv zeta.
  unfold stonith_device_execute. rewrite Hw. simpl. rewrite Hp.
  change (dev_id (set_pending_ops dev rest)) with (dev_id dev). rewrite Hid.
  set (cmd' := set_cmd_device cmd (Some id)).
  assert (Hd' : cmd_device cmd' = Some id) by reflexivity.
  assert (Hn' : cmd_device_next cmd' = []) by exact Hn.
  destruct (run_async (set_pending_ops dev rest) cmd') as [exec_rc rc].
  destruct (0 <? exec_rc)%Z.
  - destruct (child_ends cmd') as [[signum timedout] rc0].
    destruct (done_without_fallback
                (<[id := mk_work (set_pending_ops dev rest) exec_rc]> table)
                cmd' id signum timedout rc0 Hd' Hn')
      as (rc' & route & released & Heq & Hs & Hr & _).
    rewrite Heq, lookup_insert_eq, insert_insert_eq. simpl.
    do 2 eexists. split; [reflexivity|]. unfold started, replied in *.
    simpl. rewrite !omap_app, Hs, Hr. simpl. auto.
  - destruct (done_without_fallback
                (<[id := mk_work (set_pending_ops dev rest) 0]> table)
                cmd' id 0 false (if (rc <? 0)%Z then rc else exec_rc) Hd' Hn')
      as (rc' & route & released & Heq & Hs & Hr & _).
    rewrite Heq, lookup_insert_eq, insert_insert_eq. simpl.
    exists (Started cmd' :: released ++ [Replied cmd' rc' route])%list, rc'.
    split.
    + destruct released as [|e l]; simpl; rewrite ?app_nil_r; reflexivity.
    + change (Started cmd' :: released ++ [Replied cmd' rc' route])%list
        with ([Started cmd'] ++ released ++ [Replied cmd' rc' route])%list.
      unfold started, replied in *. rewrite !omap_app, Hs, Hr. simpl. auto.
Qed.

(** X24.  The queue of a device is first in, first out and loses nothing:
    on an idle device whose waiting commands have no fallback, the main loop
    starts each waiting command exactly once, in queue order, one at a time,
    answers each of them, and leaves the device idle with an empty queue;
    the other devices are not touched. *)
Theorem device_queue_is_fifo child_ends queue : forall table id dev extra,
  table !! id = Some (mk_work dev 0) ->
  dev_id dev = id ->
  pending_ops dev = queue ->
  Forall (fun cmd => cmd_device_next cmd = []) queue ->
  exists table' events,
    run child_ends (length queue + extra) table id = Some (table', events)
    /\ started events = List.map (fun cmd => set_cmd_device cmd (Some id)) queue
    /\ List.map fst (replied events) = started events
    /\ table' = <[id := mk_work (set_pending_ops dev []) 0]> table.
Proof.
  induction queue as [|cmd rest IH]; intros table id dev extra Hw Hid Hp Hall.
  - simpl. rewrite (run_idle extra table id _ Hw eq_refl Hp).
    do 2 eexists. split; [reflexivity|]. split; [reflexivity|]. split; [reflexivity|].
    symmetry. apply insert_id. rewrite Hw. f_equal.
    destruct dev. simpl in Hp. subst. reflexivity.
  - apply Forall_cons in Hall as [Hn Hall].
    destruct (execute_then_done child_ends table id dev cmd rest Hw Hid Hp Hn)
      as (events1 & rc' & Heq & Hs & Hr).
    cbn [length Nat.add run_device].
    set (table1 := <[id := mk_work (set_pending_ops dev rest) 0]> table) in *.
    destruct (IH table1 id (set_pending_ops dev rest) extra) as
      (table' & events2 & Hrun & Hs2 & Hr2 & Ht); try reflexivity.
    { apply lookup_insert_eq. }
    { exact Hid. }
    { exact Hall. }
    destruct (execute table id) as [[t1 e1]|]; [|discriminate].
    match type of Heq with
    | match ?X with _ => _ end = _ => destruct X as [[t2 e2]|] eqn:Hfin; [|discriminate]
    end.
    injection Heq as -> <-.
    rewrite Hrun. do 2 eexists. split; [rewrite app_assoc; reflexivity|].
    unfold started, replied in *.
    rewrite !(omap_app _ (e1 ++ e2)%list events2), Hs, Hr.
    rewrite map_app, Hr2, Hs2. simpl. split; [reflexivity|]. split; [reflexivity|].
    rewrite Ht. unfold table1. rewrite insert_insert_eq. reflexivity.
Qed.

End WorkQueueFacts.

(** A failed "off" on D1: whatever positive code the agent returned, the
    reply carries [st_err_generic] and is broadcast. *)
Lemma child_outcome_is_flattened_witness :
  let cmd := set_cmd_device sample_cmd (Some "D1") in
  let done := exec_child_done (-2) (-16) (-8) false sample_origin_of sample_queue cmd 0 false in
  (forall rc1 rc2, (0 < rc1)%Z -> (0 < rc2)%Z -> done rc1 = done rc2)
  /\ exists table' events,
       done 5%Z = Some (table', events)
       /\ replied events = [(cmd, (-2)%Z)]
       /\ last events = Some (Replied cmd (-2)%Z Broadcast_notify)
       /\ table' !! "D1" = Some (mk_work (set_pending_ops sample_D1 sample_waiting) 0).
Proof.
  intros cmd done.
  destruct (child_outcome_is_flattened (-2) (-16) (-8) false sample_origin_of sample_queue
              cmd "D1" 0 false eq_refl eq_refl) as [Hsame Hreply].
  split; [exact Hsame|].
  destruct (Hreply 5%Z) as (table' & events & rc' & route & Heq & Hr & Hl & Hrc & Hb & _ & Hw).
  exists table', events. split; [exact Heq|].
  rewrite (Hrc eq_refl) in Hr, Hl.
  rewrite (Hb ltac:(simpl; tauto) eq_refl) in Hl.
  split; [exact Hr|]. split; [exact Hl|].
  apply (Hw (mk_work (set_pending_ops sample_D1 sample_waiting) 0)). reflexivity.
Defined.

Lemma device_queue_is_fifo_witness :
  exists table' events,
    run_device (-2) (-16) (-8) false sample_origin_of sample_run_async sample_child_ends
      (length sample_waiting + 0) sample_queue "D1" = Some (table', events)
    /\ started events = List.map (fun cmd => set_cmd_device cmd (Some "D1")) sample_waiting
    /\ List.map fst (replied events) = started events
    /\ table' = <["D1" := mk_work (set_pending_ops
                                     (set_pending_ops sample_D1 sample_waiting) []) 0]>
                  sample_queue.
Proof.
  apply (device_queue_is_fifo (-2) (-16) (-8) false sample_origin_of sample_run_async
           sample_child_ends sample_waiting sample_queue "D1"
           (set_pending_ops sample_D1 sample_waiting) 0).
  - reflexivity.
  - reflexivity.
  - reflexivity.
  - repeat (apply List.Forall_cons; [reflexivity|]). apply List.Forall_nil.
Defined.

End FencingFacts.

(** ** The fencing host map *)
Module HostMapFacts.
Import Str Fencing.
Local Open Scope list_scope.

Lemma char_at_middle pre c rest : char_at (pre ++ c :: rest) (length pre) = c.
Proof. unfold char_at. rewrite list_lookup_middle; reflexivity. Qed.

Lemma char_at_end h : char_at h (length h) = NUL.
Proof. unfold char_at. rewrite lookup_ge_None_2; [reflexivity | lia]. Qed.

Lemma copy_token_middle pre tok rest :
  copy_token (pre ++ tok ++ rest) (length pre) (length pre + length tok)
  = string_of_list_ascii tok.
Proof.
  unfold copy_token. rewrite drop_app_length.
  replace (length pre + length tok - length pre)%nat with (length tok) by lia.
  rewrite take_app_length. reflexivity.
Qed.

Lemma plain_not_NUL c : plain c -> Ascii.eqb c NUL = false.
Proof. intros [H _]. apply Ascii.eqb_neq, H. Qed.

(** The [switch] has no case for a plain character. *)
Lemma plain_class c : plain c -> classify c = Other.
Proof.
  intros (Hnul & Heq & Hcolon & Hsemi & Hspace & Htab). unfold classify.
  apply Ascii.eqb_neq in Hnul, Heq, Hcolon, Hsemi, Hspace, Htab.
  rewrite Hnul, Heq, Hcolon, Hsemi, Hspace, Htab. reflexivity.
Qed.

Lemma separator_class c : is_separator c -> classify c = Delimiter /\ Ascii.eqb c NUL = false.
Proof. intros [H|[H|H]]; subst c; split; reflexivity. Qed.

Lemma assignment_class c : is_assignment c -> classify c = Assignment /\ Ascii.eqb c NUL = false.
Proof. intros [H|H]; subst c; split; reflexivity. Qed.

(** A turn on a character that is not the end of the string. *)
Lemma alias_loop_turn h pre c rest turns st :
  h = pre ++ c :: rest ->
  Ascii.eqb c NUL = false ->
  alias_loop h (S turns) (length pre) st
  = alias_loop h turns (length (pre ++ [c])) (alias_step h (length pre) st).
Proof.
  intros -> Hc. simpl. rewrite char_at_middle, Hc.
  rewrite length_app. simpl. rewrite Nat.add_1_r. reflexivity.
Qed.

(** The turn on the terminating NUL is the last one. *)
Lemma alias_loop_end h turns st :
  alias_loop h (S turns) (length h) st = alias_step h (length h) st.
Proof. simpl. rewrite char_at_end. reflexivity. Qed.

(** Plain characters are walked over without a change of state. *)
Lemma alias_loop_plain h tok : forall pre rest turns st,
  h = pre ++ tok ++ rest ->
  Forall plain tok ->
  alias_loop h (length tok + turns) (length pre) st
  = alias_loop h turns (length (pre ++ tok)) st.
Proof.
  induction tok as [|c tok IH]; intros pre rest turns st Hh Hplain.
  - rewrite app_nil_r. reflexivity.
  - apply Forall_cons in Hplain as [Hc Htok].
    change ((c :: tok) ++ rest) with (c :: (tok ++ rest)) in Hh.
    cbn [length Nat.add].
    rewrite (alias_loop_turn h pre c (tok ++ rest) _ st Hh (plain_not_NUL c Hc)).
    assert (alias_step h (length pre) st = st) as ->.
    { unfold alias_step. rewrite Hh.
      rewrite (char_at_middle pre c (tok ++ rest)), (plain_class c Hc). reflexivity. }
    rewrite (IH (pre ++ [c]) rest turns st).
    + rewrite <- app_assoc. reflexivity.
    + rewrite Hh, <- app_assoc. reflexivity.
    + exact Htok.
Qed.

(** The state once the characters of an entry have been read, before the
    delimiter behind it: a pair has left its name and the start of its value,
    a bare token nothing. *)
Lemma scan_entry h pre e rest turns st :
  h = pre ++ entry_chars e ++ rest ->
  entry_ok e ->
  as_name st = None ->
  as_last st = length pre ->
  exists st1 p tok,
    pre ++ entry_chars e = p ++ tok /\
    alias_loop h (length (entry_chars e) + turns) (length pre) st
    = alias_loop h turns (length (p ++ tok)) st1 /\
    as_last st1 = length p /\
    outcome st1 = outcome st /\
    as_name st1 = match e with
                  | Pair name _ _ => Some (string_of_list_ascii name)
                  | Bare _ => None
                  end /\
    match e with
    | Pair _ _ value => tok = value
    | Bare _ => True
    end.
Proof.
  intros Hh Hok Hname Hlast. destruct e as [name assign value|token]; simpl in *.
  - destruct Hok as (Hne & Hn & Ha & Hv).
    destruct (assignment_class assign Ha) as [Hclass Hnul].
    set (st1 := mk_alias_state (Some (string_of_list_ascii name))
                  (length (pre ++ name) + 1) (as_aliases st) (as_targets st)
                  (as_added st) (as_parse_errors st)).
    exists st1, ((pre ++ name) ++ [assign]), value.
    split; [rewrite <- !app_assoc; reflexivity|].
    split; [|split; [|split; [|split]]]; try reflexivity.
    + rewrite length_app. cbn [length].
      replace (length name + S (length value) + turns)%nat
        with (length name + S (length value + turns))%nat by lia.
      rewrite (alias_loop_plain h name pre (assign :: value ++ rest) _ st) by
        (rewrite ?Hh, <- ?app_assoc; auto).
      rewrite (alias_loop_turn h (pre ++ name) assign (value ++ rest) _ st)
        by (rewrite ?Hh, <- ?app_assoc; auto).
      assert (alias_step h (length (pre ++ name)) st = st1) as ->.
      { unfold alias_step. rewrite Hh.
        replace (pre ++ (name ++ assign :: value) ++ rest)
          with ((pre ++ name) ++ assign :: (value ++ rest))
          by (rewrite <- !app_assoc; reflexivity).
        rewrite char_at_middle, Hclass, Hlast.
        assert ((length pre <? length (pre ++ name))%nat = true) as ->.
        { apply Nat.ltb_lt. rewrite length_app. destruct name; [contradiction|simpl; lia]. }
        replace ((pre ++ name) ++ assign :: value ++ rest)
          with (pre ++ name ++ (assign :: value ++ rest))
          by (rewrite <- !app_assoc; reflexivity).
        rewrite length_app, copy_token_middle. rewrite <- length_app. reflexivity. }
      apply (alias_loop_plain h value ((pre ++ name) ++ [assign]) rest turns st1).
      * rewrite Hh, <- !app_assoc. reflexivity.
      * exact Hv.
    + simpl. rewrite !length_app. simpl. lia.
  - exists st, pre, token. split; [reflexivity|].
    split; [|split; [|split; [|split]]]; auto.
    apply (alias_loop_plain h token pre rest turns st Hh Hok).
Qed.

(** The turn on the delimiter behind a token. *)
Lemma delimiter_step h p tok st :
  classify (char_at h (length (p ++ tok))) = Delimiter ->
  (exists rest, h = p ++ tok ++ rest) ->
  as_last st = length p ->
  let st' := alias_step h (length (p ++ tok)) st in
  as_name st' = None /\
  as_last st' = S (length (p ++ tok)) /\
  outcome st'
  = match as_name st with
    | Some name =>
        (<[name := string_of_list_ascii tok]> (as_aliases st),
         option_map (fun t => t ++ [string_of_list_ascii tok]) (as_targets st))
    | None => outcome st
    end.
Proof.
  intros Hclass [rest Hh] Hlast st'. subst st'. unfold alias_step. rewrite Hclass.
  destruct (as_name st) as [name|]; simpl.
  - split; [reflexivity|]. split; [lia|].
    rewrite Hlast, Hh, length_app, copy_token_middle. reflexivity.
  - split; [reflexivity|]. split; [lia|]. reflexivity.
Qed.

Lemma scanned_outcome e st st1 st' tok :
  outcome st1 = outcome st ->
  as_name st1 = match e with
                | Pair name _ _ => Some (string_of_list_ascii name)
                | Bare _ => None
                end ->
  match e with Pair _ _ value => tok = value | Bare _ => True end ->
  outcome st'
  = match as_name st1 with
    | Some name =>
        (<[name := string_of_list_ascii tok]> (as_aliases st1),
         option_map (fun t => t ++ [string_of_list_ascii tok]) (as_targets st1))
    | None => outcome st1
    end ->
  outcome st' = record_entry (outcome st) e.
Proof.
  intros Hout Hname Htok ->. rewrite Hname.
  injection Hout as Ha Ht. unfold outcome.
  destruct e; simpl; subst; rewrite ?Ha, ?Ht; reflexivity.
Qed.

(** An entry and the separator behind it. *)
Lemma entry_then_separator h pre e sep rest turns st :
  h = pre ++ entry_chars e ++ sep :: rest ->
  entry_ok e -> is_separator sep ->
  as_name st = None -> as_last st = length pre ->
  exists st',
    alias_loop h (length (entry_chars e) + S turns) (length pre) st
    = alias_loop h turns (length (pre ++ entry_chars e ++ [sep])) st' /\
    as_name st' = None /\
    as_last st' = length (pre ++ entry_chars e ++ [sep]) /\
    outcome st' = record_entry (outcome st) e.
Proof.
  intros Hh Hok Hsep Hname Hlast.
  destruct (scan_entry h pre e (sep :: rest) (S turns) st Hh Hok Hname Hlast)
    as (st1 & p & tok & Hsplit & Hloop & Hlast1 & Hout & Hname1 & Htok).
  destruct (separator_class sep Hsep) as [Hclass Hnul].
  assert (h = (p ++ tok) ++ sep :: rest) as Hh'.
  { rewrite <- Hsplit, Hh, <- app_assoc. reflexivity. }
  assert (char_at h (length (p ++ tok)) = sep) as Hchar.
  { rewrite Hh' at 1. apply char_at_middle. }
  destruct (delimiter_step h p tok st1) as (Hn' & Hl' & Ho').
  { rewrite Hchar. exact Hclass. }
  { exists (sep :: rest). rewrite Hh', <- app_assoc. reflexivity. }
  { exact Hlast1. }
  exists (alias_step h (length (p ++ tok)) st1).
  split; [|split; [exact Hn'|split]].
  - rewrite Hloop. rewrite (alias_loop_turn h (p ++ tok) sep rest turns st1 Hh' Hnul).
    rewrite <- Hsplit, <- app_assoc. reflexivity.
  - rewrite Hl', <- Hsplit, !length_app. simpl. lia.
  - eapply scanned_outcome; eassumption.
Qed.

(** The last entry, with the end of the string behind it. *)
Lemma entry_then_end h pre e turns st :
  h = pre ++ entry_chars e ->
  entry_ok e ->
  as_name st = None -> as_last st = length pre ->
  outcome (alias_loop h (length (entry_chars e) + S turns) (length pre) st)
  = record_entry (outcome st) e.
Proof.
  intros Hh Hok Hname Hlast.
  destruct (scan_entry h pre e [] (S turns) st) as
    (st1 & p & tok & Hsplit & Hloop & Hlast1 & Hout & Hname1 & Htok); auto.
  { rewrite app_nil_r. exact Hh. }
  assert (h = p ++ tok) as Hh' by (rewrite <- Hsplit; exact Hh).
  rewrite Hloop.
  destruct (delimiter_step h p tok st1) as (Hn' & Hl' & Ho').
  { rewrite <- Hh', char_at_end. reflexivity. }
  { exists []. rewrite app_nil_r. exact Hh'. }
  { exact Hlast1. }
  rewrite <- Hh' in Ho' |- *. rewrite alias_loop_end.
  eapply scanned_outcome; eassumption.
Qed.

Lemma alias_loop_render entries final : forall pre st h,
  h = pre ++ render entries final ->
  entries_ok entries ->
  entry_ok final ->
  as_name st = None ->
  as_last st = length pre ->
  outcome (alias_loop h (S (length (render entries final))) (length pre) st)
  = record_entries (List.map fst entries ++ [final]) (outcome st).
Proof.
  induction entries as [|[e sep] entries IH]; intros pre st h Hh Hes Hfinal Hname Hlast.
  - cbn [render] in *.
    replace (S (length (entry_chars final))) with (length (entry_chars final) + 1) by lia.
    apply (entry_then_end h pre final 0 st Hh Hfinal Hname Hlast).
  - apply Forall_cons in Hes as [[He Hsep] Hes]. simpl in He, Hsep.
    cbn [render] in *. rewrite length_app. cbn [length].
    replace (S (length (entry_chars e) + S (length (render entries final))))
      with (length (entry_chars e) + S (S (length (render entries final)))) by lia.
    destruct (entry_then_separator h pre e sep (render entries final)
                (S (length (render entries final))) st Hh He Hsep Hname Hlast)
      as (st' & Hloop & Hname' & Hlast' & Hout).
    rewrite Hloop.
    rewrite (IH (pre ++ entry_chars e ++ [sep]) st' h); auto.
    + simpl. unfold record_entries. simpl. rewrite Hout. reflexivity.
    + rewrite Hh, <- !app_assoc. reflexivity.
Qed.

Lemma strlen_without_NUL l :
  Forall (fun c => Ascii.eqb c NUL = false) l -> strlen l = length l.
Proof.
  induction 1 as [|c l Hc _ IH]; simpl; [reflexivity|]. rewrite Hc, IH. reflexivity.
Qed.

Lemma entry_without_NUL e :
  entry_ok e -> Forall (fun c => Ascii.eqb c NUL = false) (entry_chars e).
Proof.
  destruct e as [name assign value|token]; simpl.
  - intros (_ & Hn & Ha & Hv). apply Forall_app. split.
    + eapply Forall_impl; [exact Hn | apply plain_not_NUL].
    + constructor; [apply assignment_class, Ha|].
      eapply Forall_impl; [exact Hv | apply plain_not_NUL].
  - intros Ht. eapply Forall_impl; [exact Ht | apply plain_not_NUL].
Qed.

Lemma render_without_NUL entries final :
  entries_ok entries -> entry_ok final ->
  Forall (fun c => Ascii.eqb c NUL = false) (render entries final).
Proof.
  intros Hes Hfinal. induction Hes as [|[e sep] entries [He Hsep] _ IH]; simpl.
  - apply entry_without_NUL, Hfinal.
  - apply Forall_app. split; [apply entry_without_NUL, He|].
    constructor; [apply separator_class, Hsep | exact IH].
Qed.

(** C9, as the code has it: in a host map whose entries are separated by a
    semicolon, a space or a tab, every NAME=VALUE or NAME:VALUE entry puts
    VALUE under NAME in the alias table (a later one replacing an earlier
    one) and VALUE at the end of the target list, in the order of the text; a
    token without an assignment character adds nothing, and neither do the
    empty tokens that trailing or repeated separators leave.  A character
    that is none of NUL, [=], [:], [;], space and tab, the comma among them,
    is part of its token. *)
Theorem host_map_pairs entries final targets :
  entries_ok entries ->
  entry_ok final ->
  build_port_aliases (Some (string_of_list_ascii (render entries final))) targets
  = record_entries (List.map fst entries ++ [final]) (∅, targets).
Proof.
  intros Hes Hfinal. unfold build_port_aliases.
  rewrite list_ascii_of_string_of_list_ascii.
  rewrite (strlen_without_NUL _ (render_without_NUL entries final Hes Hfinal)).
  apply (alias_loop_render entries final [] (mk_alias_state None 0 ∅ targets 0 [])
           (render entries final)); auto.
Qed.

Lemma sample_entries_ok : entries_ok sample_entries.
Proof.
  unfold entries_ok, sample_entries.
  repeat (apply Forall_cons; split; [split|]); try apply Forall_nil;
    simpl; unfold is_separator, is_assignment; auto.
  all: repeat split; try discriminate; auto.
  all: repeat (constructor; [unfold plain; repeat split; discriminate|]); constructor.
Defined.

(** The host map "node1:1;stray node2=2,3 " gives node1 the port 1 and node2
    the port "2,3"; the stray token and the trailing space add nothing. *)
Lemma host_map_pairs_witness :
  build_port_aliases (Some "node1:1;stray node2=2,3 "%string) (Some [])
  = (<["node2"%string := "2,3"%string]> (<["node1"%string := "1"%string]> ∅),
     Some ["1"%string; "2,3"%string]).
Proof.
  exact (host_map_pairs sample_entries (Bare []) (Some [])
           sample_entries_ok (List.Forall_nil _)).
Defined.

(** C9 as stated fails for the comma: in "a=1,b=2" the comma does not end the
    first entry, so neither a nor b becomes an alias and the only pair is
    "1,b" with the value 2. *)
Lemma comma_does_not_separate :
  let result := build_port_aliases (Some "a=1,b=2"%string) (Some []) in
  fst result !! "a"%string = None /\
  fst result !! "b"%string = None /\
  fst result = {[ "1,b"%string := "2"%string ]} /\
  snd result = Some ["2"%string].
Proof. vm_compute. repeat split; reflexivity. Qed.

End HostMapFacts.

(** ** The transition engine *)
Module TEFacts.
Import Str TE.
Local Open Scope list_scope.

(** C8: in the states S_STARTING, S_PENDING, S_NOT_DC, S_HALT, S_STOPPING,
    S_TERMINATE and S_ILLEGAL an abort changes nothing, neither the graph's
    abort priority and action nor anything else of the engine, and sets no
    trigger; and the graph trigger itself runs nothing in those states. *)
Theorem abort_is_suppressed
    (update_abort_priority : crm_graph_t -> Z -> transition_action -> string -> crm_graph_t)
    (run_graph : crm_graph_t -> transition_status * crm_graph_t)
    (job_limit : Z -> Z) st priority abort_action abort_text :
  In (fsa_state st)
     [S_STARTING; S_PENDING; S_NOT_DC; S_HALT; S_STOPPING; S_TERMINATE; S_ILLEGAL] ->
  abort_transition_graph update_abort_priority st priority abort_action abort_text = (st, [])
  /\ te_graph_trigger run_graph job_limit st = (st, []).
Proof.
  intros Hstate.
  assert (abort_suppressed (fsa_state st) = true) as Hs.
  { simpl in Hstate. intuition; match goal with H : _ = fsa_state st |- _ =>
      rewrite <- H; reflexivity end. }
  unfold abort_transition_graph, te_graph_trigger.
  destruct (transition_graph st); rewrite ?Hs; split; reflexivity.
Qed.

(** In S_NOT_DC an abort with infinite priority leaves scenario S6's graph
    with priority 0 and action [tg_done], and the trigger does not run it. *)
Lemma abort_is_suppressed_witness :
  let st := sample_te S_NOT_DC false sample_graph in
  abort_transition_graph spec_update_abort_priority st INFINITY tg_restart "Stonith failure"
  = (st, [])
  /\ te_graph_trigger sample_run_graph sample_job_limit st = (st, []).
Proof.
  intros st.
  apply (abort_is_suppressed spec_update_abort_priority sample_run_graph sample_job_limit
           st INFINITY tg_restart "Stonith failure").
  simpl. tauto.
Defined.

Section NotifyFacts.

Variable rb_halt_system_defined : bool.
Variable reboot_fails : bool.
Variable client_id : string.
Variable notify_peer_fenced : te_state -> stonith_event_t -> te_state * list te_effect.

Local Abbreviation notify :=
  (tengine_stonith_notify rb_halt_system_defined reboot_fails client_id notify_peer_fenced).
Local Abbreviation deliver_all :=
  (deliver rb_halt_system_defined reboot_fails client_id notify_peer_fenced).

Lemma deliver_stopped p events :
  (forall st, p <> Running st) -> deliver_all p events = (p, []).
Proof.
  intros Hp. destruct p as [st| |code]; [|destruct events; reflexivity..].
  exfalso. apply (Hp st). reflexivity.
Qed.

(** C5: a successful fencing notification whose target is this node makes
    the process log and flush, call [reboot(RB_HALT_SYSTEM)] where the build
    has it, and, when there is no such call or it comes back, exit with code
    100; whatever notifications follow are not processed. *)
Theorem self_fence_halts_or_exits st ev later :
  ev_result ev = pcmk_ok ->
  crm_str_eq (ev_target ev) (fsa_our_uname st) true = true ->
  deliver_all (Running st) (Some ev :: later)
  = (if rb_halt_system_defined && negb reboot_fails then Halted else Exited 100,
     [Log_crit "We were alegedly just fenced"; Qb_log_fini]
     ++ (if rb_halt_system_defined then [Reboot_halt_system] else [])).
Proof.
  intros Hok Hself. cbn [deliver]. unfold tengine_stonith_notify.
  assert (fsa_our_uname
            (match te_client_id st with
             | Some _ => st
             | None => set_te_client_id st (Some client_id)
             end) = fsa_our_uname st) as -> by (destruct (te_client_id st); reflexivity).
  rewrite Hok, Hself. simpl andb. cbv iota.
  destruct (rb_halt_system_defined && negb reboot_fails);
    rewrite deliver_stopped by discriminate; rewrite app_nil_r; reflexivity.
Qed.

End NotifyFacts.

(** Scenario S3 on a build without [RB_HALT_SYSTEM]: exit code 100, and the
    second notification is not processed. *)
Lemma self_fence_halts_or_exits_witness :
  deliver false false "crmd.4242" sample_notify_rest
    (Running (sample_te S_NOT_DC false sample_graph))
    [Some sample_self_fence; Some sample_self_fence]
  = (Exited 100, [Log_crit "We were alegedly just fenced"; Qb_log_fini]).
Proof.
  exact (self_fence_halts_or_exits false false "crmd.4242" sample_notify_rest
           (sample_te S_NOT_DC false sample_graph) sample_self_fence
           [Some sample_self_fence] eq_refl eq_refl).
Defined.

Lemma action_progress_refl a : action_progress a a.
Proof. unfold action_progress. tauto. Qed.

Lemma action_progress_trans a b c :
  action_progress a b -> action_progress b c -> action_progress a c.
Proof.
  unfold action_progress. intros (?&?&?&?&?) (?&?&?&?&?).
  repeat split; try congruence; auto.
Qed.

Lemma actions_progress_refl l : Forall2 action_progress l l.
Proof. induction l; constructor; auto using action_progress_refl. Qed.

Lemma actions_progress_trans l1 : forall l2 l3,
  Forall2 action_progress l1 l2 -> Forall2 action_progress l2 l3 ->
  Forall2 action_progress l1 l3.
Proof.
  induction l1; intros l2 l3 H12 H23;
    inversion H12; subst; inversion H23; subst; constructor;
    eauto using action_progress_trans.
Qed.

Lemma synapse_progress_refl s : synapse_progress s s.
Proof. split; [tauto | apply actions_progress_refl]. Qed.

Lemma synapse_progress_trans a b c :
  synapse_progress a b -> synapse_progress b c -> synapse_progress a c.
Proof.
  intros [? ?] [? ?]. split; [auto | eapply actions_progress_trans; eassumption].
Qed.

Lemma synapses_progress_refl l : Forall2 synapse_progress l l.
Proof. induction l; constructor; auto using synapse_progress_refl. Qed.

Lemma synapses_progress_trans l1 : forall l2 l3,
  Forall2 synapse_progress l1 l2 -> Forall2 synapse_progress l2 l3 ->
  Forall2 synapse_progress l1 l3.
Proof.
  induction l1; intros l2 l3 H12 H23;
    inversion H12; subst; inversion H23; subst; constructor;
    eauto using synapse_progress_trans.
Qed.

Lemma graph_progress_refl g : graph_progress g g.
Proof. split; [reflexivity | apply synapses_progress_refl]. Qed.

Lemma graph_progress_trans a b c :
  graph_progress a b -> graph_progress b c -> graph_progress a c.
Proof.
  intros [? ?] [? ?]. split; [congruence | eapply synapses_progress_trans; eassumption].
Qed.

(** Under progress the flags that make an action a pending fencing action
    can only go away. *)
Lemma pending_fence_progress a a' :
  action_progress a a' -> pending_fence a' = true -> pending_fence a = true.
Proof.
  intros (_ & Htype & Htask & Hconf & _). unfold pending_fence, is_crm, is_fence_task.
  rewrite Htype, Htask, !andb_true_iff, !negb_true_iff.
  intros [[Hcrm Hunconf] Hfence]. repeat split; auto.
  destruct (action_confirmed a); [|reflexivity]. rewrite Hconf in Hunconf; auto.
Qed.

Lemma settled_progress g g' i j :
  graph_progress g g' -> settled g i j -> settled g' i j.
Proof.
  intros [_ Hs] Hset s' a' Hs' Ha' Hunconf Hpending.
  destruct (Forall2_lookup_r _ _ _ _ _ Hs Hs') as (s & Hsi & Hconf & Hacts).
  destruct (Forall2_lookup_r _ _ _ _ _ Hacts Ha') as (a & Haj & Hprog).
  assert (action_failed a = true) as Hfailed.
  { apply (Hset s a Hsi Haj).
    - destruct (synapse_confirmed s); [|reflexivity]. rewrite Hconf in Hunconf; auto.
    - eapply pending_fence_progress; eassumption. }
  destruct Hprog as (_ & _ & _ & _ & Hf). auto.
Qed.

Lemma get_action_Some g i j a :
  get_action g i j = Some a <->
  exists s, synapses g !! i = Some s /\ actions s !! j = Some a.
Proof.
  unfold get_action. destruct (synapses g !! i) as [s|]; simpl.
  - split; [eauto | intros (s' & [= <-] & H); exact H].
  - split; [discriminate | intros (s' & [=] & _)].
Qed.

(** Storing an action that progressed is progress of the graph. *)
Lemma put_action_progress g i j a a' :
  get_action g i j = Some a -> action_progress a a' ->
  graph_progress g (put_action g i j a').
Proof.
  intros Hget Hprog. apply get_action_Some in Hget as (s & Hs & Ha).
  unfold put_action. rewrite Hs. split; [reflexivity|]. simpl.
  rewrite <- (list_insert_id (synapses g) i s Hs) at 1.
  apply Forall2_insert; [apply synapses_progress_refl|].
  split; [tauto|]. simpl.
  rewrite <- (list_insert_id (actions s) j a Ha) at 1.
  apply Forall2_insert; [apply actions_progress_refl | exact Hprog].
Qed.

Lemma put_action_get g i j a a' :
  get_action g i j = Some a -> get_action (put_action g i j a') i j = Some a'.
Proof.
  intros Hget. apply get_action_Some in Hget as (s & Hs & Ha).
  unfold put_action, get_action. rewrite Hs. simpl.
  rewrite list_lookup_insert_eq by (eapply lookup_lt_Some; eassumption). simpl.
  apply list_lookup_insert_eq. eapply lookup_lt_Some; eassumption.
Qed.

Lemma settled_of_get g i j a :
  get_action g i j = Some a ->
  (pending_fence a = true -> action_failed a = true) ->
  settled g i j.
Proof.
  intros Hget Hok s a' Hs Ha' _ Hpending.
  assert (get_action g i j = Some a') as Hget'
    by (apply get_action_Some; eauto).
  rewrite Hget in Hget'. injection Hget' as <-. auto.
Qed.

Lemma settled_of_none g i j : get_action g i j = None -> settled g i j.
Proof.
  intros Hnone s a Hs Ha. assert (get_action g i j = Some a) as Hget
    by (apply get_action_Some; eauto).
  rewrite Hnone in Hget. discriminate.
Qed.

(** The number of actions of a synapse does not change under progress. *)
Lemma progress_actions_length g g' i s s' :
  graph_progress g g' -> synapses g !! i = Some s -> synapses g' !! i = Some s' ->
  length (actions s') = length (actions s).
Proof.
  intros [_ Hs] Hsi Hsi'.
  destruct (Forall2_lookup_l _ _ _ _ _ Hs Hsi) as (s2 & Hs2 & _ & Hacts).
  rewrite Hsi' in Hs2. injection Hs2 as <-.
  symmetry. eapply Forall2_length, Hacts.
Qed.

(** A pending fencing action, by its fields. *)
Lemma pending_fence_spec a :
  pending_fence a = true <->
  action_type a = action_type_crm /\ action_confirmed a = false /\
  exists task, action_task a = Some task /\ lower task = "stonith".
Proof.
  unfold pending_fence, is_crm, is_fence_task.
  rewrite !andb_true_iff, negb_true_iff. split.
  - intros [[Hcrm Hconf] Hf].
    split; [destruct (action_type a); congruence|]. split; [exact Hconf|].
    destruct (action_task a) as [task|]; [|discriminate]. exists task.
    split; [reflexivity|].
    simpl in Hf. unfold strcaseeq in Hf. apply String.eqb_eq in Hf. exact Hf.
  - intros (Ht & Hc & task & Htask & Hl). rewrite Ht, Htask.
    split; [split; [reflexivity | exact Hc]|].
    simpl. unfold strcaseeq. rewrite Hl. reflexivity.
Qed.

Lemma awaited_spec g i j :
  awaited g i j <->
  exists s a, synapses g !! i = Some s /\ synapse_confirmed s = false /\
              actions s !! j = Some a /\ pending_fence a = true.
Proof.
  unfold awaited. split.
  - intros (s & a & Hs & Hc & Ha & H). exists s, a.
    repeat split; try assumption. apply pending_fence_spec. exact H.
  - intros (s & a & Hs & Hc & Ha & H). exists s, a.
    apply pending_fence_spec in H. tauto.
Qed.

(** An action of the graph and what it has become under progress. *)
Lemma progress_get_l g g' i j s a :
  graph_progress g g' -> synapses g !! i = Some s -> actions s !! j = Some a ->
  exists s' a',
    synapses g' !! i = Some s' /\ synapse_progress s s' /\
    actions s' !! j = Some a' /\ action_progress a a'.
Proof.
  intros [_ Hs] Hsi Haj.
  destruct (Forall2_lookup_l _ _ _ _ _ Hs Hsi) as (s' & Hs' & Hprog).
  destruct Hprog as [Hconf Hacts].
  destruct (Forall2_lookup_l _ _ _ _ _ Hacts Haj) as (a' & Ha' & Hap).
  exists s', a'. split; [exact Hs'|]. split; [split; assumption|]. split; assumption.
Qed.

Lemma progress_get_r g g' i j s' a' :
  graph_progress g g' -> synapses g' !! i = Some s' -> actions s' !! j = Some a' ->
  exists s a,
    synapses g !! i = Some s /\ synapse_progress s s' /\
    actions s !! j = Some a /\ action_progress a a'.
Proof.
  intros [_ Hs] Hsi Haj.
  destruct (Forall2_lookup_r _ _ _ _ _ Hs Hsi) as (s & Hs0 & Hprog).
  destruct Hprog as [Hconf Hacts].
  destruct (Forall2_lookup_r _ _ _ _ _ Hacts Haj) as (a & Ha & Hap).
  exists s, a. split; [exact Hs0|]. split; [split; assumption|]. split; assumption.
Qed.

Lemma failed_at_progress g g' i j :
  graph_progress g g' -> failed_at g i j -> failed_at g' i j.
Proof.
  intros Hp (a & Hget & Hfailed). apply get_action_Some in Hget as (s & Hs & Ha).
  destruct (progress_get_l g g' i j s a Hp Hs Ha) as (s' & a' & Hs' & _ & Ha' & Hap).
  exists a'. split; [apply get_action_Some; eauto|].
  destruct Hap as (_ & _ & _ & _ & Hf). auto.
Qed.

Lemma unique_ids_progress g g' :
  graph_progress g g' -> unique_action_ids g -> unique_action_ids g'.
Proof.
  intros Hp Hu i j i' j' a b Ha Hb Hid.
  apply get_action_Some in Ha as (sa & Hsa & Ha).
  apply get_action_Some in Hb as (sb & Hsb & Hb).
  destruct (progress_get_r g g' i j sa a Hp Hsa Ha) as (sa0 & a0 & Hsa0 & _ & Ha0 & Hpa).
  destruct (progress_get_r g g' i' j' sb b Hp Hsb Hb) as (sb0 & b0 & Hsb0 & _ & Hb0 & Hpb).
  apply (Hu i j i' j' a0 b0).
  - apply get_action_Some. eauto.
  - apply get_action_Some. eauto.
  - destruct Hpa as (Hia & _), Hpb as (Hib & _). congruence.
Qed.

(** A store through one link leaves the other links and the flags of the
    synapses alone. *)
Lemma put_action_other g i j a i' j' s b :
  synapses g !! i' = Some s -> actions s !! j' = Some b ->
  (i', j') <> (i, j) ->
  exists s', synapses (put_action g i j a) !! i' = Some s' /\
             synapse_confirmed s' = synapse_confirmed s /\
             actions s' !! j' = Some b.
Proof.
  intros Hs Hb Hne. unfold put_action.
  destruct (synapses g !! i) as [si|] eqn:Hsi; [|exists s; auto].
  simpl. destruct (decide (i' = i)) as [->|Hi].
  - rewrite Hsi in Hs. injection Hs as ->.
    rewrite list_lookup_insert_eq by (eapply lookup_lt_Some; eassumption).
    eexists. split; [reflexivity|]. split; [reflexivity|]. simpl.
    rewrite list_lookup_insert_ne; [exact Hb|]. congruence.
  - rewrite list_lookup_insert_ne by congruence. exists s. auto.
Qed.

Section FailFencing.

Variable update_graph : crm_graph_t -> crm_action_t -> crm_graph_t.
Variable update_abort_priority :
  crm_graph_t -> Z -> transition_action -> string -> crm_graph_t.

(** [update_graph] sets flags and nothing else, confirms nothing but actions
    with the id of the action it is given, and a synapse only once all its
    actions are confirmed; [update_abort_priority] leaves the synapses
    alone. *)
Hypothesis update_graph_progress : forall g a, graph_progress g (update_graph g a).
Hypothesis update_graph_by_id : confirms_by_id update_graph.
Hypothesis update_graph_whole : confirms_whole_synapses update_graph.
Hypothesis update_abort_priority_synapses :
  forall g priority abort_action text,
    synapses (update_abort_priority g priority abort_action text) = synapses g.

Local Abbreviation inner := (fail_synapse_actions update_graph).
Local Abbreviation outer := (fail_synapses update_graph).

(** The inner loop: the graph progresses; every link from [j] on is settled
    afterwards; and if [last_action] is still unset, nothing was touched
    and no link it went over held a pending fencing action. *)
Lemma inner_loop turns : forall g i j last g' last',
  inner turns g i j last = (g', last') ->
  graph_progress g g' /\
  ((forall s, synapses g !! i = Some s -> length (actions s) <= j + turns) ->
   forall j', j <= j' -> settled g' i j') /\
  (last' = None ->
   last = None /\ g' = g /\
   forall j' a, j <= j' < j + turns -> get_action g i j' = Some a ->
                pending_fence a = false).
Proof.
  induction turns as [|turns IH]; intros g i j last g' last' Hrun; simpl in Hrun.
  - injection Hrun as <- <-. split; [apply graph_progress_refl|]. split.
    + intros Hlen j' Hj'. apply settled_of_none. unfold get_action.
      destruct (synapses g !! i) as [s|] eqn:Hs; [simpl|reflexivity].
      apply lookup_ge_None_2. specialize (Hlen s eq_refl). lia.
    + intros ->. repeat split; auto. intros j' a Hj'. lia.
  - destruct (get_action g i j) as [action|] eqn:Hget.
    2:{ injection Hrun as <- <-. split; [apply graph_progress_refl|]. split.
        - intros _ j' Hj'. apply settled_of_none. unfold get_action in *.
          destruct (synapses g !! i) as [s|]; [simpl in *|reflexivity].
          apply lookup_ge_None_2. apply lookup_ge_None_1 in Hget. lia.
        - intros ->. repeat split; auto. intros j' a Hj' Ha.
          unfold get_action in *. destruct (synapses g !! i) as [s|]; [simpl in *|discriminate].
          apply lookup_ge_None_1 in Hget. apply lookup_lt_Some in Ha. lia. }
    assert (forall g1 last1,
              graph_progress g g1 ->
              settled g1 i j ->
              inner turns g1 i (S j) last1 = (g', last') ->
              graph_progress g g' /\
              ((forall s, synapses g !! i = Some s -> length (actions s) <= j + S turns) ->
               forall j', j <= j' -> settled g' i j')) as Hstep.
    { intros g1 last1 Hp1 Hset1 Hrun1.
      destruct (IH _ _ _ _ _ _ Hrun1) as (Hp & Hsettled & _).
      split; [eapply graph_progress_trans; eassumption|].
      intros Hlen j' Hj'. destruct (decide (j' = j)) as [->|Hne].
      - eapply settled_progress; eassumption.
      - apply Hsettled; [|lia]. intros s1 Hs1.
        apply get_action_Some in Hget as (s & Hs & _).
        rewrite (progress_actions_length g g1 i s s1 Hp1 Hs Hs1).
        specialize (Hlen s Hs). lia. }
    assert (pending_fence action = false ->
            inner turns g i (S j) last = (g', last') ->
            graph_progress g g' /\
            ((forall s, synapses g !! i = Some s -> length (actions s) <= j + S turns) ->
             forall j', j <= j' -> settled g' i j') /\
            (last' = None ->
             last = None /\ g' = g /\
             forall j' a, j <= j' < j + S turns -> get_action g i j' = Some a ->
                          pending_fence a = false)) as Hskip.
    { intros Hnot Hrun1.
      destruct (Hstep g last (graph_progress_refl g)
                  (settled_of_get g i j action Hget ltac:(congruence)) Hrun1) as [Hp Hs].
      split; [exact Hp|]. split; [exact Hs|].
      destruct (IH _ _ _ _ _ _ Hrun1) as (_ & _ & Hnone).
      intros Hl. destruct (Hnone Hl) as (-> & -> & Hrest). repeat split; auto.
      intros j' a Hj' Ha. destruct (decide (j' = j)) as [->|Hne].
      - rewrite Hget in Ha. injection Ha as <-. exact Hnot.
      - apply (Hrest j' a); [lia | exact Ha]. }
    destruct (negb (is_crm action) || action_confirmed action) eqn:Hskip1.
    { apply Hskip; [|exact Hrun]. unfold pending_fence.
      apply orb_true_iff in Hskip1 as [H|H].
      - apply negb_true_iff in H. rewrite H. reflexivity.
      - rewrite H, andb_false_r. reflexivity. }
    destruct (is_fence_task action) eqn:Hfence.
    2:{ apply Hskip; [|exact Hrun]. unfold pending_fence.
        rewrite Hfence, andb_false_r. reflexivity. }
    set (failed := set_action_failed action) in *.
    assert (graph_progress g (update_graph (put_action g i j failed) failed)) as Hp1.
    { eapply graph_progress_trans; [|apply update_graph_progress].
      apply (put_action_progress g i j action failed Hget).
      unfold action_progress, failed. simpl. tauto. }
    assert (settled (update_graph (put_action g i j failed) failed) i j) as Hs1.
    { eapply settled_progress; [apply update_graph_progress|].
      apply (settled_of_get _ i j failed); [|reflexivity].
      eapply put_action_get, Hget. }
    destruct (Hstep _ _ Hp1 Hs1 Hrun) as [Hp Hs].
    split; [exact Hp|]. split; [exact Hs|].
    destruct (IH _ _ _ _ _ _ Hrun) as (_ & _ & Hnone).
    intros Hl. destruct (Hnone Hl) as (Habs & _). discriminate.
Qed.

(** The outer loop, likewise, over the synapses from [i] on. *)
Lemma outer_loop turns : forall g i last g' last',
  outer turns g i last = (g', last') ->
  graph_progress g g' /\
  (length (synapses g) <= i + turns -> forall i' j', i <= i' -> settled g' i' j') /\
  (last' = None ->
   last = None /\ g' = g /\
   forall i' s, i <= i' < i + turns -> synapses g !! i' = Some s ->
                synapse_confirmed s = true \/ existsb pending_fence (actions s) = false).
Proof.
  induction turns as [|turns IH]; intros g i last g' last' Hrun; simpl in Hrun.
  - injection Hrun as <- <-. split; [apply graph_progress_refl|]. split.
    + intros Hlen i' j' Hi' s a Hs. apply lookup_lt_Some in Hs. lia.
    + intros ->. repeat split; auto. intros i' s Hi'. lia.
  - destruct (synapses g !! i) as [synapse|] eqn:Hsyn.
    2:{ injection Hrun as <- <-. split; [apply graph_progress_refl|]. split.
        - intros _ i' j' Hi' s a Hs. apply lookup_ge_None_1 in Hsyn.
          apply lookup_lt_Some in Hs. lia.
        - intros ->. repeat split; auto. intros i' s Hi' Hs.
          apply lookup_ge_None_1 in Hsyn. apply lookup_lt_Some in Hs. lia. }
    destruct (synapse_confirmed synapse) eqn:Hconf.
    + destruct (IH _ _ _ _ _ Hrun) as (Hp & Hsettled & Hnone).
      split; [exact Hp|]. split.
      * intros Hlen i' j' Hi'. destruct (decide (i' = i)) as [->|Hne].
        -- apply (settled_progress g g' i j' Hp).
           intros s a Hs _ Hunconf. rewrite Hsyn in Hs. injection Hs as <-. congruence.
        -- apply Hsettled; lia.
      * intros Hl. destruct (Hnone Hl) as (-> & -> & Hrest). repeat split; auto.
        intros i' s Hi' Hs. destruct (decide (i' = i)) as [->|Hne].
        -- rewrite Hsyn in Hs. injection Hs as <-. left. exact Hconf.
        -- apply (Hrest i' s); [lia | exact Hs].
    + destruct (inner (length (actions synapse)) g i 0 last) as [g1 last1] eqn:Hinner.
      destruct (inner_loop _ _ _ _ _ _ _ Hinner)
        as (Hp1 & Hs1 & Hnone1).
      destruct (IH _ _ _ _ _ Hrun) as (Hp & Hsettled & Hnone).
      split; [eapply graph_progress_trans; eassumption|]. split.
      * intros Hlen i' j' Hi'. destruct (decide (i' = i)) as [->|Hne].
        -- apply (settled_progress g1 g' i j' Hp). apply Hs1; [|lia].
           intros s Hs. rewrite Hsyn in Hs. injection Hs as <-. lia.
        -- apply Hsettled; [|lia].
           destruct Hp1 as [_ Hp1]. apply Forall2_length in Hp1. lia.
      * intros Hl. destruct (Hnone Hl) as (-> & -> & Hrest).
        destruct (Hnone1 eq_refl) as (-> & -> & Hrest1). repeat split; auto.
        intros i' s Hi' Hs. destruct (decide (i' = i)) as [->|Hne].
        -- rewrite Hsyn in Hs. injection Hs as <-. right.
           apply not_true_is_false. intros Hex.
           apply existsb_exists in Hex as (a & Ha & Hpend).
           apply list_elem_of_In, list_elem_of_lookup_1 in Ha as [j Hj].
           rewrite (Hrest1 j a) in Hpend; [discriminate| |].
           ++ apply lookup_lt_Some in Hj. lia.
           ++ apply get_action_Some. eauto.
        -- apply (Hrest i' s); [lia | exact Hs].
Qed.

Lemma all_settled g :
  (forall i j, settled g i j) -> pending_fences_failed g.
Proof.
  intros Hall s a Hs Hunconf Ha Hpending.
  apply list_elem_of_lookup_1 in Hs as [i Hi].
  apply list_elem_of_lookup_1 in Ha as [j Hj].
  apply (Hall i j s a); assumption.
Qed.

(** [fail_incompletable_stonith]'s loops on a graph that has a pending
    fencing action: all of them end up failed, and [last_action] is set. *)
Lemma fail_synapses_all g g' last' :
  outer (length (synapses g)) g 0 None = (g', last') ->
  graph_progress g g' /\ pending_fences_failed g' /\
  (has_pending_fence g = true -> last' <> None).
Proof.
  intros Hrun. destruct (outer_loop _ _ _ _ _ _ Hrun) as (Hp & Hsettled & Hnone).
  split; [exact Hp|]. split.
  - apply all_settled. intros i j. apply Hsettled; lia.
  - intros Hpending ->. destruct (Hnone eq_refl) as (_ & _ & Hrest).
    unfold has_pending_fence in Hpending.
    apply existsb_exists in Hpending as (s & Hs & Hboth).
    apply andb_true_iff in Hboth as [Hunconf Hex]. apply negb_true_iff in Hunconf.
    apply list_elem_of_In, list_elem_of_lookup_1 in Hs as [i Hi].
    destruct (Hrest i s) as [H|H]; [|exact Hi|congruence|congruence].
    apply lookup_lt_Some in Hi. lia.
Qed.


(** Marking one action failed and telling the transitioner leaves every
    other awaited action awaited. *)
Lemma awaited_after_mark g i j action i' j' :
  unique_action_ids g ->
  get_action g i j = Some action ->
  (i', j') <> (i, j) ->
  awaited g i' j' ->
  awaited (update_graph (put_action g i j (set_action_failed action))
             (set_action_failed action)) i' j'.
Proof.
  intros Hu Hget Hne Haw. apply awaited_spec in Haw as (s & b & Hs & Hunconf & Hb & Hpend).
  apply awaited_spec.
  set (failed := set_action_failed action). set (gp := put_action g i j failed).
  destruct (put_action_other g i j failed i' j' s b Hs Hb Hne) as (sp & Hsp & Hcp & Hbp).
  fold gp in Hsp.
  destruct (progress_get_l gp (update_graph gp failed) i' j' sp b
              (update_graph_progress gp failed) Hsp Hbp)
    as (s1 & b1 & Hs1 & Hsprog & Hb1 & Hbprog).
  assert (action_id b <> action_id failed) as Hid.
  { intros Heq. apply Hne.
    destruct (Hu i' j' i j b action) as [-> ->];
      [apply get_action_Some; eauto | exact Hget | exact Heq | reflexivity]. }
  assert (action_confirmed b1 = action_confirmed b) as Hconf.
  { apply (update_graph_by_id gp failed i' j' b b1);
      [apply get_action_Some; eauto | apply get_action_Some; eauto | exact Hid]. }
  assert (pending_fence b1 = true) as Hpend1.
  { destruct Hbprog as (_ & Ht & Htask & _).
    unfold pending_fence, is_crm, is_fence_task in *. rewrite Ht, Htask, Hconf. exact Hpend. }
  exists s1, b1. split; [exact Hs1|]. split; [|split; [exact Hb1 | exact Hpend1]].
  destruct (synapse_confirmed s1) eqn:Hc1; [|reflexivity]. exfalso.
  assert (Forall (fun x => action_confirmed x = true) (actions s1)) as Hall.
  { apply (update_graph_whole gp failed i' sp s1 Hsp Hs1); [congruence | exact Hc1]. }
  rewrite Forall_forall in Hall.
  specialize (Hall b1 (list_elem_of_lookup_2 _ _ _ Hb1)).
  apply pending_fence_spec in Hpend1 as (_ & Hc & _). congruence.
Qed.

Lemma awaited_here g i j action :
  awaited g i j -> get_action g i j = Some action -> pending_fence action = true.
Proof.
  intros Haw Hget. apply awaited_spec in Haw as (s & a & Hs & _ & Ha & Hpend).
  assert (get_action g i j = Some a) as Hget' by (apply get_action_Some; eauto).
  congruence.
Qed.

Lemma awaited_in_range g i j :
  awaited g i j ->
  exists s, synapses g !! i = Some s /\ synapse_confirmed s = false /\
            j < length (actions s).
Proof.
  intros Haw. apply awaited_spec in Haw as (s & a & Hs & Hc & Ha & _).
  exists s. split; [exact Hs|]. split; [exact Hc|]. eapply lookup_lt_Some, Ha.
Qed.

(** The inner loop, link by link: what was awaited in the graph the callback
    found, and lies behind, is marked failed; what lies ahead is still
    awaited. *)
Lemma inner_marks g0 turns : forall g i j last g' last',
  inner turns g i j last = (g', last') ->
  unique_action_ids g0 ->
  graph_progress g0 g ->
  (forall i' j', i' < i \/ (i' = i /\ j' < j) -> awaited g0 i' j' -> failed_at g i' j') ->
  (forall i' j', ~ (i' < i \/ (i' = i /\ j' < j)) -> awaited g0 i' j' -> awaited g i' j') ->
  (forall s, synapses g !! i = Some s -> length (actions s) <= j + turns) ->
  graph_progress g0 g' /\
  (forall i' j', i' <= i -> awaited g0 i' j' -> failed_at g' i' j') /\
  (forall i' j', i < i' -> awaited g0 i' j' -> awaited g' i' j').
Proof.
  induction turns as [|turns IH]; intros g i j last g' last' Hrun Hu Hp Hbehind Hahead Hlen;
    simpl in Hrun.
  - injection Hrun as <- <-. split; [exact Hp|]. split.
    + intros i' j' Hi' Haw.
      destruct (decide (i' < i \/ (i' = i /\ j' < j))) as [Hb|Hnb]; [auto|].
      exfalso. destruct (awaited_in_range g i' j' (Hahead i' j' Hnb Haw)) as (s & Hs & _ & Hj').
      assert (i' = i) as -> by lia. specialize (Hlen s Hs). lia.
    + intros i' j' Hi'. apply Hahead. lia.
  - destruct (get_action g i j) as [action|] eqn:Hget.
    2:{ injection Hrun as <- <-. split; [exact Hp|]. split.
        - intros i' j' Hi' Haw.
          destruct (decide (i' < i \/ (i' = i /\ j' < j))) as [Hb|Hnb]; [auto|].
          exfalso.
          destruct (awaited_in_range g i' j' (Hahead i' j' Hnb Haw)) as (s & Hs & _ & Hj').
          assert (i' = i) as -> by lia.
          unfold get_action in Hget. rewrite Hs in Hget. simpl in Hget.
          apply lookup_ge_None_1 in Hget. lia.
        - intros i' j' Hi'. apply Hahead. lia. }
    assert (pending_fence action = false ->
            inner turns g i (S j) last = (g', last') ->
            graph_progress g0 g' /\
            (forall i' j', i' <= i -> awaited g0 i' j' -> failed_at g' i' j') /\
            (forall i' j', i < i' -> awaited g0 i' j' -> awaited g' i' j')) as Hskip.
    { intros Hnot Hrun1. apply (IH _ _ _ _ _ _ Hrun1 Hu Hp).
      - intros i' j' Hb Haw.
        destruct (decide (i' = i /\ j' = j)) as [[-> ->]|Hne]; [|apply Hbehind; [lia|exact Haw]].
        exfalso. assert (awaited g i j) as Haw' by (apply Hahead; [lia | exact Haw]).
        rewrite (awaited_here g i j action Haw' Hget) in Hnot. discriminate.
      - intros i' j' Hnb. apply Hahead. lia.
      - intros s Hs. specialize (Hlen s Hs). lia. }
    destruct (negb (is_crm action) || action_confirmed action) eqn:Hskip1.
    { apply Hskip; [|exact Hrun]. unfold pending_fence.
      apply orb_true_iff in Hskip1 as [H|H].
      - apply negb_true_iff in H. rewrite H. reflexivity.
      - rewrite H, andb_false_r. reflexivity. }
    destruct (is_fence_task action) eqn:Hfence.
    2:{ apply Hskip; [|exact Hrun]. unfold pending_fence.
        rewrite Hfence, andb_false_r. reflexivity. }
    set (failed := set_action_failed action) in *.
    set (g1 := update_graph (put_action g i j failed) failed) in *.
    assert (graph_progress g g1) as Hp1.
    { eapply graph_progress_trans; [|apply update_graph_progress].
      apply (put_action_progress g i j action failed Hget).
      unfold action_progress, failed. simpl. tauto. }
    assert (failed_at g1 i j) as Hhere.
    { apply (failed_at_progress (put_action g i j failed) g1 i j);
        [apply update_graph_progress|].
      exists failed. split; [eapply put_action_get, Hget | reflexivity]. }
    apply (IH _ _ _ _ _ _ Hrun Hu (graph_progress_trans _ _ _ Hp Hp1)).
    + intros i' j' Hb Haw.
      destruct (decide (i' = i /\ j' = j)) as [[-> ->]|Hne]; [exact Hhere|].
      apply (failed_at_progress g g1 i' j' Hp1). apply Hbehind; [lia | exact Haw].
    + intros i' j' Hnb Haw.
      apply (awaited_after_mark g i j action i' j' (unique_ids_progress g0 g Hp Hu) Hget).
      * intros [= -> ->]. apply Hnb. lia.
      * apply Hahead; [lia | exact Haw].
    + intros s1 Hs1. apply get_action_Some in Hget as (s & Hs & _).
      rewrite (progress_actions_length g g1 i s s1 Hp1 Hs Hs1).
      specialize (Hlen s Hs). lia.
Qed.

(** The outer loop, synapse by synapse: at the end every action that was
    awaited in the graph the callback found is marked failed. *)
Lemma outer_marks g0 turns : forall g i last g' last',
  outer turns g i last = (g', last') ->
  unique_action_ids g0 ->
  graph_progress g0 g ->
  (forall i' j', i' < i -> awaited g0 i' j' -> failed_at g i' j') ->
  (forall i' j', i <= i' -> awaited g0 i' j' -> awaited g i' j') ->
  length (synapses g) <= i + turns ->
  graph_progress g0 g' /\ forall i' j', awaited g0 i' j' -> failed_at g' i' j'.
Proof.
  induction turns as [|turns IH]; intros g i last g' last' Hrun Hu Hp Hbehind Hahead Hlen;
    simpl in Hrun.
  - injection Hrun as <- <-. split; [exact Hp|]. intros i' j' Haw.
    destruct (decide (i' < i)) as [Hb|Hnb]; [auto|]. exfalso.
    destruct (awaited_in_range g i' j' (Hahead i' j' ltac:(lia) Haw)) as (s & Hs & _).
    apply lookup_lt_Some in Hs. lia.
  - destruct (synapses g !! i) as [synapse|] eqn:Hsyn.
    2:{ injection Hrun as <- <-. split; [exact Hp|]. intros i' j' Haw.
        destruct (decide (i' < i)) as [Hb|Hnb]; [auto|]. exfalso.
        destruct (awaited_in_range g i' j' (Hahead i' j' ltac:(lia) Haw)) as (s & Hs & _).
        apply lookup_ge_None_1 in Hsyn. apply lookup_lt_Some in Hs. lia. }
    destruct (synapse_confirmed synapse) eqn:Hconf.
    + apply (IH _ _ _ _ _ Hrun Hu Hp); [| |lia].
      * intros i' j' Hi' Haw.
        destruct (decide (i' = i)) as [->|Hne]; [|apply Hbehind; [lia | exact Haw]].
        exfalso.
        destruct (awaited_in_range g i j' (Hahead i j' ltac:(lia) Haw)) as (s & Hs & Hc & _).
        congruence.
      * intros i' j' Hi'. apply Hahead. lia.
    + destruct (inner (length (actions synapse)) g i 0 last) as [g1 last1] eqn:Hinner.
      destruct (inner_marks g0 _ _ _ _ _ _ _ Hinner Hu Hp) as (Hp1 & Hbehind1 & Hahead1).
      * intros i' j' [Hb|[_ Hb]]; [apply Hbehind; exact Hb | lia].
      * intros i' j' Hnb. apply Hahead. lia.
      * intros s Hs. rewrite Hsyn in Hs. injection Hs as <-. lia.
      * apply (IH _ _ _ _ _ Hrun Hu Hp1).
        -- intros i' j' Hi'. apply Hbehind1. lia.
        -- intros i' j' Hi'. apply Hahead1. lia.
        -- destruct Hp as [_ Hp], Hp1 as [_ Hp1].
           apply Forall2_length in Hp, Hp1. lia.
Qed.

(** [fail_incompletable_stonith]'s loops: every action that was awaited is
    marked failed at the end, and with one awaited [last_action] is set. *)
Lemma fail_synapses_marks g g' last' :
  unique_action_ids g ->
  outer (length (synapses g)) g 0 None = (g', last') ->
  graph_progress g g' /\
  (forall i j, awaited g i j -> failed_at g' i j) /\
  ((exists i j, awaited g i j) -> last' <> None).
Proof.
  intros Hu Hrun.
  destruct (outer_marks g _ _ _ _ _ _ Hrun Hu (graph_progress_refl g)) as [Hp Hall];
    [intros i' j' Hi'; lia | auto | lia |].
  split; [exact Hp|]. split; [exact Hall|].
  intros (i & j & Haw).
  destruct (fail_synapses_all g g' last' Hrun) as (_ & _ & Hlast). apply Hlast.
  apply awaited_spec in Haw as (s & a & Hs & Hc & Ha & Hpend).
  unfold has_pending_fence. apply existsb_exists. exists s.
  split; [eapply list_elem_of_In, list_elem_of_lookup_2, Hs|].
  rewrite Hc. simpl. apply existsb_exists. exists a.
  split; [eapply list_elem_of_In, list_elem_of_lookup_2, Ha | exact Hpend].
Qed.

(** The states in which an abort is suppressed, by name. *)
Lemma abort_suppressed_spec state :
  abort_suppressed state = true <->
  In state [S_STARTING; S_PENDING; S_NOT_DC; S_HALT; S_STOPPING; S_TERMINATE; S_ILLEGAL].
Proof.
  simpl. split.
  - destruct state; simpl; try discriminate; tauto.
  - intros H. repeat (destruct H as [<-|H]; [reflexivity|]). contradiction.
Qed.

(** C3, as the code has it.  When the fencer's connection is destroyed on a
    node that is not the DC, the callback only notes the disconnection (and
    asks for a reconnection): the graph is left as it is.  On the DC, with a
    graph whose actions have distinct ids and that holds an awaited fencing
    action (type crm, task stonith, unconfirmed, in an unconfirmed synapse),
    every such action is marked failed in the graph the callback leaves, and
    [abort_transition_graph] is called with priority INFINITY and action
    [tg_restart]: in a state in which aborts are suppressed this changes
    nothing more; with a graph that is already complete it drops the pending
    computation and restarts the transition timer or asks for a new
    computation; otherwise it hands the graph to [update_abort_priority]
    with these two values and triggers the graph. *)
Theorem fencer_loss_fails_pending_fencing st :
  let result := tengine_stonith_connection_destroy update_graph update_abort_priority st in
  let reconnect :=
    if st_required st then [Log_crit "Fencing daemon connection failed"; Trigger_stonith_reconnect]
    else [] in
  let disconnected := set_stonith_connected st false in
  let suppressed :=
    In (fsa_state st)
       [S_STARTING; S_PENDING; S_NOT_DC; S_HALT; S_STOPPING; S_TERMINATE; S_ILLEGAL] in
  (am_i_dc st = false -> result = (disconnected, reconnect)) /\
  (am_i_dc st = true ->
   forall g,
   transition_graph st = Some g ->
   unique_action_ids g ->
   (exists i j, awaited g i j) ->
   exists marked,
     graph_progress g marked /\
     (forall i j, awaited g i j -> failed_at marked i j) /\
     (forall g', transition_graph (fst result) = Some g' ->
                 forall i j, awaited g i j -> failed_at g' i j) /\
     (suppressed ->
      result = (set_graph disconnected (Some marked), reconnect ++ [Trigger_transition])) /\
     (~ suppressed -> complete g = true ->
      result
      = (set_fsa_pe_ref (set_graph disconnected (Some marked)) None,
         reconnect
         ++ (if (0 <? transition_timer_period_ms st)%Z then [Timer_stop; Timer_start]
             else [Fsa_input_I_PE_CALC])
         ++ [Trigger_transition])) /\
     (~ suppressed -> complete g = false ->
      result
      = (set_graph (set_fsa_pe_ref (set_graph disconnected (Some marked)) None)
           (Some (update_abort_priority marked INFINITY tg_restart "Stonith failure")),
         reconnect ++ [Trigger_transition; Trigger_transition]))).
Proof.
  intros result reconnect disconnected suppressed.
  split.
  { intros Hdc. subst result. unfold tengine_stonith_connection_destroy.
    cbn [am_i_dc set_stonith_connected]. rewrite Hdc. reflexivity. }
  intros Hdc g Hgraph Hu Hawaited.
  destruct (outer (length (synapses g)) g 0 None) as [marked last'] eqn:Hrun.
  destruct (fail_synapses_marks g marked last' Hu Hrun) as (Hp & Hfailed & Hlast).
  specialize (Hlast Hawaited).
  exists marked. split; [exact Hp|]. split; [exact Hfailed|].
  assert (result
          = (let '(st', effects) :=
               abort_transition_graph update_abort_priority
                 (set_graph disconnected (Some marked))
                 INFINITY tg_restart "Stonith failure" in
             (st', reconnect ++ effects ++ [Trigger_transition]))) as Hresult.
  { subst result reconnect disconnected. unfold tengine_stonith_connection_destroy.
    cbn [am_i_dc set_stonith_connected]. rewrite Hdc.
    unfold fail_incompletable_stonith.
    change (transition_graph (set_stonith_connected st false)) with (transition_graph st).
    rewrite Hgraph, Hrun.
    destruct last' as [l|]; [|contradiction].
    destruct (abort_transition_graph _ _ _ _ _). reflexivity. }
  assert (complete marked = complete g) as Hc by (destruct Hp; assumption).
  rewrite Hresult. unfold abort_transition_graph.
  cbn [transition_graph set_graph fsa_state set_stonith_connected set_fsa_pe_ref
       transition_timer_period_ms]. rewrite Hc.
  subst disconnected. cbn [fsa_state set_stonith_connected].
  destruct (abort_suppressed (fsa_state st)) eqn:Hs.
  - apply abort_suppressed_spec in Hs.
    split; [|split; [|split]].
    + simpl. intros g' [= <-]. exact Hfailed.
    + intros _. reflexivity.
    + intros Hn. contradiction.
    + intros Hn. contradiction.
  - assert (~ suppressed) as Hns.
    { intros H. apply abort_suppressed_spec in H. congruence. }
    destruct (complete g).
    + split; [|split; [|split]].
      * destruct (0 <? _)%Z; simpl; intros g' [= <-]; exact Hfailed.
      * intros H. contradiction.
      * intros _ _. destruct (0 <? _)%Z; reflexivity.
      * intros _ [=].
    + split; [|split; [|split]].
      * simpl. intros g' [= <-] i j Haw. destruct (Hfailed i j Haw) as (a & Hget & Hf).
        exists a. split; [|exact Hf]. unfold get_action in *.
        rewrite update_abort_priority_synapses. exact Hget.
      * intros H. contradiction.
      * intros _ [=].
      * intros _ _. reflexivity.
Qed.

End FailFencing.

Lemma sample_update_graph_progress g a : graph_progress g (sample_update_graph g a).
Proof. apply graph_progress_refl. Qed.

Lemma spec_update_abort_priority_synapses g priority abort_action text :
  synapses (spec_update_abort_priority g priority abort_action text) = synapses g.
Proof. reflexivity. Qed.

(** The sample transitioner does what the callback relies on. *)
Lemma confirm_action_progress id a : action_progress a (confirm_action id a).
Proof.
  unfold confirm_action, action_progress.
  destruct (action_id a =? id)%Z; simpl; tauto.
Qed.

Lemma confirm_synapse_progress id s : synapse_progress s (confirm_synapse id s).
Proof.
  unfold confirm_synapse. destruct (synapse_confirmed s) eqn:Hc.
  - apply synapse_progress_refl.
  - split; [congruence|]. simpl. apply Forall2_fmap_r, Forall_Forall2_diag, Forall_forall.
    intros a _. apply confirm_action_progress.
Qed.

Lemma sample_confirming_progress g a :
  graph_progress g (sample_confirming_update_graph g a).
Proof.
  split; [reflexivity|]. simpl. apply Forall2_fmap_r, Forall_Forall2_diag, Forall_forall.
  intros s _. apply confirm_synapse_progress.
Qed.

Lemma sample_confirming_by_id : confirms_by_id sample_confirming_update_graph.
Proof.
  intros g a i j b b' Hb Hb' Hid.
  apply get_action_Some in Hb as (s & Hs & Hb).
  apply get_action_Some in Hb' as (s' & Hs' & Hb').
  simpl in Hs'. rewrite list_lookup_fmap, Hs in Hs'. injection Hs' as <-.
  unfold confirm_synapse in Hb'. destruct (synapse_confirmed s); [congruence|].
  simpl in Hb'. rewrite list_lookup_fmap, Hb in Hb'. injection Hb' as <-.
  unfold confirm_action. destruct (Z.eqb_spec (action_id b) (action_id a)); [contradiction|].
  reflexivity.
Qed.

Lemma sample_confirming_whole : confirms_whole_synapses sample_confirming_update_graph.
Proof.
  intros g a i s s' Hs Hs' Hunconf Hconf.
  simpl in Hs'. rewrite list_lookup_fmap, Hs in Hs'. injection Hs' as <-.
  unfold confirm_synapse in *. rewrite Hunconf in *. simpl in *.
  apply Forall_forall. intros b Hb. rewrite forallb_forall in Hconf.
  apply Hconf, list_elem_of_In, Hb.
Qed.

Lemma sample_graph_unique_ids : unique_action_ids sample_graph.
Proof.
  intros i j i' j' a b Ha Hb Hid.
  destruct i as [|[|[|i]]]; destruct j as [|j]; try discriminate Ha;
    destruct i' as [|[|[|i']]]; destruct j' as [|j']; try discriminate Hb;
    injection Ha as <-; injection Hb as <-; try discriminate Hid; split; reflexivity.
Qed.

(** Scenario S6 on the DC in S_TRANSITION_ENGINE: the fencing action F is
    marked failed (and confirmed by the transitioner), the graph gets
    priority INFINITY and [tg_restart], and the graph is triggered. *)
Lemma fencer_loss_fails_pending_fencing_witness :
  let st := sample_te S_TRANSITION_ENGINE true sample_graph in
  let result := tengine_stonith_connection_destroy sample_confirming_update_graph
                  spec_update_abort_priority st in
  exists g',
    transition_graph (fst result) = Some g' /\
    failed_at g' 1 0 /\
    get_action g' 1 0 = Some (mk_action 2 action_type_crm true true (Some "stonith")) /\
    abort_priority g' = INFINITY /\
    completion_action g' = tg_restart /\
    snd result
    = [Log_crit "Fencing daemon connection failed"; Trigger_stonith_reconnect;
       Trigger_transition; Trigger_transition].
Proof.
  intros st result.
  assert (awaited sample_graph 1 0) as Haw.
  { eexists _, _. split; [reflexivity|]. split; [reflexivity|]. split; [reflexivity|].
    split; [reflexivity|]. split; [reflexivity|]. exists "stonith". split; reflexivity. }
  destruct (fencer_loss_fails_pending_fencing sample_confirming_update_graph
              spec_update_abort_priority
              sample_confirming_progress sample_confirming_by_id sample_confirming_whole
              spec_update_abort_priority_synapses st)
    as (_ & Hdc).
  destruct (Hdc eq_refl sample_graph eq_refl sample_graph_unique_ids
              (ex_intro _ 1 (ex_intro _ 0 Haw)))
    as (marked & _ & _ & Hall & _).
  eexists. split; [reflexivity|]. split; [apply (Hall _ eq_refl 1 0 Haw)|].
  repeat split; reflexivity.
Defined.

(** C3 as stated fails where the code has its guards.  On a node that is not
    the DC the callback leaves the graph alone: F stays pending and not
    failed, and nothing is aborted.  On the DC with a graph that is already
    complete, F is marked failed but the graph keeps its abort priority and
    action, and a new computation is asked for instead. *)
Lemma fencer_loss_outside_dc_marks_nothing :
  let st := sample_te S_NOT_DC false sample_graph in
  let finished := sample_te S_IDLE true (set_complete sample_graph true) in
  has_pending_fence sample_graph = true /\
  tengine_stonith_connection_destroy sample_update_graph spec_update_abort_priority st
  = (set_stonith_connected st false,
     [Log_crit "Fencing daemon connection failed"; Trigger_stonith_reconnect]) /\
  (let result := tengine_stonith_connection_destroy sample_update_graph
                   spec_update_abort_priority finished in
   (transition_graph (fst result)
      ≫= fun g => Some (abort_priority g, completion_action g, get_action g 1 0))
   = Some (0%Z, tg_done, Some (mk_action 2 action_type_crm false true (Some "stonith"))) /\
   snd result
   = [Log_crit "Fencing daemon connection failed"; Trigger_stonith_reconnect;
      Fsa_input_I_PE_CALC; Trigger_transition]).
Proof. vm_compute. repeat split; reflexivity. Qed.

(** *** The graph trigger, timers and the fencer connection *)

Section TriggerFacts.

Variable run_graph : crm_graph_t -> transition_status * crm_graph_t.
Variable throttle_get_total_job_limit : Z -> Z.

(** X15.  [te_graph_trigger] hands [run_graph] a throttled batch limit only
    for the duration of the call: whatever [run_graph] and the throttle do,
    the graph's [batch_limit] afterwards is the configured one.  And when the
    controller is notified, the graph has been marked complete. *)
Theorem graph_trigger_restores_batch_limit st :
  let r := te_graph_trigger run_graph throttle_get_total_job_limit st in
  option_map batch_limit (transition_graph (fst r))
  = option_map batch_limit (transition_graph st)
  /\ (snd r = [] \/
      snd r = [Notify_crmd]
      /\ option_map complete (transition_graph (fst r)) = Some true).
Proof.
  cbv zeta. unfold te_graph_trigger.
  destruct (transition_graph st) as [g|] eqn:Hg; [|simpl; rewrite Hg; auto].
  destruct (abort_suppressed (fsa_state st)); [simpl; rewrite Hg; auto|].
  destruct (complete g) eqn:Hc; simpl.
  - auto.
  - destruct (run_graph _) as [graph_rc g'] eqn:Hr.
    destruct graph_rc; simpl; auto.
Qed.

End TriggerFacts.

(** X16.  [stop_te_timer] removes the source of a timer at most once: it
    leaves [source_id] at 0, and a second call on the same timer removes
    nothing and returns FALSE. *)
Theorem stop_te_timer_once timer :
  let first := stop_te_timer timer in
  let second := stop_te_timer (fst (fst first)) in
  option_map source_id (fst (fst first)) = option_map (fun _ => 0%N) timer
  /\ second = (fst (fst first), false, [])
  /\ (snd (fst first) = true <-> exists t, timer = Some t /\ snd first = [source_id t]
                                        /\ source_id t <> 0%N).
Proof.
  cbv zeta. destruct timer as [t|]; simpl.
  - destruct (source_id t =? 0)%N eqn:Hs; simpl.
    + rewrite Hs. simpl. apply N.eqb_eq in Hs. rewrite Hs.
      repeat split; try discriminate.
      intros (t' & [= <-] & _ & Hne). congruence.
    + apply N.eqb_neq in Hs. repeat split. intros _. exists t. auto.
  - repeat split; try discriminate. intros (t & H & _). discriminate.
Qed.

Lemma connect_loop_spec connect user_data turns :
  forall lpc slept,
    let r := connect_loop connect user_data turns lpc slept in
    (attempts r <= lpc + turns)%nat
    /\ (registered r = true <->
        exists k, (lpc <= k < lpc + turns)%nat /\ (user_data = true -> k = lpc)
          /\ connect k = pcmk_ok
          /\ forall j, (lpc <= j < k)%nat -> connect j <> pcmk_ok)
    /\ (reconnect_set r = true <->
        (0 < turns)%nat /\ user_data = true /\ connect lpc <> pcmk_ok).
Proof.
  induction turns as [|turns IH]; intros lpc slept; cbv zeta; cbn [connect_loop].
  - simpl. split; [lia|]. split.
    + split; [discriminate|]. intros (k & Hk & _). lia.
    + split; [discriminate|]. intros (H & _). lia.
  - destruct (connect lpc =? pcmk_ok)%Z eqn:Hc.
    + apply Z.eqb_eq in Hc. simpl. split; [lia|]. split.
      * split; [|reflexivity]. intros _. exists lpc.
        split; [lia|]. split; [reflexivity|]. split; [exact Hc|]. intros j Hj. lia.
      * split; [discriminate|]. intros (_ & _ & H). contradiction.
    + apply Z.eqb_neq in Hc. destruct user_data; simpl.
      * split; [lia|]. split.
        -- split; [discriminate|]. intros (k & Hk & Hu & Hok & _).
           rewrite (Hu eq_refl) in Hok. contradiction.
        -- split; [|reflexivity]. intros _. split; [lia|]. auto.
      * destruct (IH (S lpc) (S (S slept))) as (Ha & Hr & Hs). cbv zeta in Ha, Hr, Hs.
        split; [lia|]. split.
        -- rewrite Hr. split.
           ++ intros (k & Hk & Hu & Hok & Hbefore). exists k.
              split; [lia|]. split; [discriminate|]. split; [exact Hok|].
              intros j Hj. destruct (decide (j = lpc)) as [->|Hne]; [exact Hc|].
              apply Hbefore. lia.
           ++ intros (k & Hk & Hu & Hok & Hbefore). exists k.
              assert (k <> lpc) by (intros ->; contradiction).
              split; [lia|]. split; [discriminate|]. split; [exact Hok|].
              intros j Hj. apply Hbefore. lia.
        -- rewrite Hs. split; intros (_ & H & _); discriminate.
Qed.

(** X17.  [te_connect_stonith] tries to sign in at most 30 times.  The
    notifications are registered exactly when the fencer was disconnected
    and some attempt succeeded: the first one when a retry was asked for
    ([user_data] not NULL), else any of the 30.  The reconnect trigger is set
    exactly when a retry was asked for and the first attempt failed. *)
Theorem te_connect_stonith_bounded st connect user_data :
  let r := te_connect_stonith st connect user_data in
  (attempts r <= 30)%nat
  /\ (registered r = true <->
      stonith_connected st = false
      /\ exists k, (k < 30)%nat /\ (user_data = true -> k = 0%nat)
           /\ connect k = pcmk_ok
           /\ forall j, (j < k)%nat -> connect j <> pcmk_ok)
  /\ (reconnect_set r = true <->
      stonith_connected st = false /\ user_data = true /\ connect 0%nat <> pcmk_ok).
Proof.
  cbv zeta. unfold te_connect_stonith.
  destruct (stonith_connected st).
  - simpl. split; [lia|]. split; split; try discriminate.
    + intros (H & _). discriminate.
    + intros (H & _). discriminate.
  - destruct (connect_loop_spec connect user_data 30 0 0) as (Ha & Hr & Hs).
    cbv zeta in Ha, Hr, Hs. split; [lia|]. split.
    + rewrite Hr. split.
      * intros (k & Hk & Hu & Hok & Hb). split; [reflexivity|]. exists k.
        split; [lia|]. split; [exact Hu|]. split; [exact Hok|].
        intros j Hj. apply Hb. lia.
      * intros (_ & k & Hk & Hu & Hok & Hb). exists k.
        split; [lia|]. split; [exact Hu|]. split; [exact Hok|].
        intros j Hj. apply Hb. lia.
    + rewrite Hs. split.
      * intros (_ & Hu & Hc). auto.
      * intros (_ & Hu & Hc). split; [lia|]. auto.
Qed.

End TEFacts.

(** ** Late replies on the remote executor transport *)
Module LrmdClientFacts.
Import Str LrmdClient.
Local Open Scope Z_scope.

Lemma notify_is_not_reply m : is_type m "notify" = true -> is_type m "reply" = false.
Proof.
  unfold is_type. destruct (msg_type m) as [t|]; simpl; [|discriminate].
  unfold strcaseeq. intros H. apply String.eqb_eq in H. rewrite H. reflexivity.
Qed.






(** *** Request ids, awaited replies and queued notifications *)

(** X18.  [lrmd_tls_send] never uses a request id below 1 and never the id
    of the request before: the counter goes up by one and wraps from
    [INT_MAX] to 1, also when the send fails. *)
Theorem request_ids_stay_positive n send_rc :
  let id := global_remote_msg_id n in
  let id' := global_remote_msg_id (fst (fst (lrmd_tls_send n send_rc))) in
  1 <= id' /\ id' <> id
  /\ (id' = id + 1 \/ id' = 1 /\ (id = INT_MAX \/ id < 0)).
Proof.
  cbv zeta. unfold lrmd_tls_send, int_incr.
  assert (H : forall x, global_remote_msg_id
                 (fst (fst (if negb (send_rc =? pcmk_rc_ok)
                            then (lrmd_tls_disconnect (set_msg_id n x), - ENOTCONN,
                                  [Err_send_failed])
                            else (set_msg_id n x, pcmk_ok, [])))) = x).
  { intros x. destruct (negb _); reflexivity. }
  rewrite H. unfold INT_MAX, INT_MIN.
  destruct (Z.eqb_spec (global_remote_msg_id n) 2147483647) as [He|Hne].
  - simpl. lia.
  - destruct (Z.leb_spec (global_remote_msg_id n + 1) 0); lia.
Qed.

Lemma recv_reply_step id xml s n :
  passes_by id xml = true ->
  exists n' effects,
    lrmd_tls_recv_reply n id (Message xml :: s)
    = (let '(reply, disconnected, n2, effects2) := lrmd_tls_recv_reply n' id s in
       (reply, disconnected, n2, (effects ++ effects2)%list))
    /\ pending_notify n'
       = (pending_notify n ++ List.filter (fun m => is_type m "notify") [xml])%list
    /\ tls_session n' = tls_session n
    /\ conn_type n' = conn_type n
    /\ process_notify n' = process_notify n
    /\ global_remote_msg_id n' = global_remote_msg_id n.
Proof.
  intros Hx. unfold passes_by in Hx. cbn [lrmd_tls_recv_reply List.filter].
  destruct (msg_type xml) as [t|] eqn:Ht.
  - destruct (is_type xml "notify") eqn:Hn.
    + eexists _, _. split; [reflexivity|]. repeat split; reflexivity.
    + destruct (is_type xml "reply") eqn:Hr; cbn [negb].
      * simpl in Hx. apply negb_true_iff in Hx. rewrite Hx. cbn [negb].
        destruct (0 <? expected_late_replies n).
        -- eexists _, _. split; [reflexivity|]. simpl. rewrite app_nil_r.
           repeat split; reflexivity.
        -- eexists _, _. split; [reflexivity|]. simpl. rewrite app_nil_r.
           repeat split; reflexivity.
      * eexists _, _. split; [reflexivity|]. simpl. rewrite app_nil_r.
        repeat split; reflexivity.
  - assert (Hn : is_type xml "notify" = false).
    { unfold is_type. rewrite Ht. reflexivity. }
    rewrite Hn. eexists _, _. split; [reflexivity|]. simpl. rewrite app_nil_r.
    repeat split; reflexivity.
Qed.

Lemma recv_reply_passes_by id msgs rest : forall n,
  forallb (passes_by id) msgs = true ->
  exists n1 effects1,
    lrmd_tls_recv_reply n id (List.map Message msgs ++ rest)%list
    = (let '(reply, disconnected, n2, effects2) := lrmd_tls_recv_reply n1 id rest in
       (reply, disconnected, n2, (effects1 ++ effects2)%list))
    /\ pending_notify n1
       = (pending_notify n ++ List.filter (fun m => is_type m "notify") msgs)%list
    /\ tls_session n1 = tls_session n
    /\ conn_type n1 = conn_type n
    /\ process_notify n1 = process_notify n
    /\ global_remote_msg_id n1 = global_remote_msg_id n.
Proof.
  induction msgs as [|xml msgs IH]; intros n Hall.
  - exists n, []. simpl. rewrite app_nil_r.
    destruct (lrmd_tls_recv_reply n id rest) as [[[r d] n2] e2]. repeat split; reflexivity.
  - cbn [forallb] in Hall. apply andb_true_iff in Hall as [Hx Hall].
    cbn [List.map app].
    destruct (recv_reply_step id xml (List.map Message msgs ++ rest)%list n Hx)
      as (n' & effects & Heq & Hp & Hs & Hc & Hpn & Hg).
    destruct (IH n' Hall) as (n1 & effects1 & Heq1 & Hp1 & Hs1 & Hc1 & Hpn1 & Hg1).
    exists n1, (effects ++ effects1)%list. rewrite Heq, Heq1.
    destruct (lrmd_tls_recv_reply n1 id rest) as [[[r d] n2] e2].
    rewrite app_assoc. split; [reflexivity|].
    split; [|repeat split; congruence].
    rewrite Hp1, Hp, <- app_assoc. f_equal.
    cbn [List.filter]. destruct (is_type xml "notify"); reflexivity.
Qed.

Lemma dispatch_messages_keeps msgs : forall n,
  pending_notify (fst (dispatch_messages n msgs)) = pending_notify n
  /\ tls_session (fst (dispatch_messages n msgs)) = tls_session n.
Proof.
  induction msgs as [|xml msgs IH]; intros n; [auto|].
  cbn [dispatch_messages].
  destruct (is_type xml "notify").
  - specialize (IH n). destruct (dispatch_messages n msgs). exact IH.
  - destruct (is_type xml "reply").
    + destruct (0 <? expected_late_replies n).
      * specialize (IH (set_late_replies n (int_decr (expected_late_replies n)))).
        destruct (dispatch_messages _ msgs). exact IH.
      * specialize (IH n). destruct (dispatch_messages n msgs). exact IH.
    + specialize (IH n). destruct (dispatch_messages n msgs). exact IH.
Qed.

(** X19.  Notifications that arrive while [lrmd_tls_recv_reply] waits for a
    reply are not lost: when the reply comes they are all in
    [pending_notify], behind those already there and in the order of
    arrival; the next [lrmd_tls_dispatch] on the connection hands them to
    the callback first, in that order, before any message it reads itself,
    and leaves the list empty; until then [lrmd_poll] says there is work. *)
Theorem queued_notifies_are_dispatched_in_order n id msgs reply rest :
  forallb (passes_by id) msgs = true ->
  is_type reply "reply" = true ->
  remote_msg_id reply = id ->
  let received :=
    lrmd_tls_recv_reply n id (List.map Message msgs ++ Message reply :: rest)%list in
  let n' := snd (fst received) in
  let queued :=
    (pending_notify n ++ List.filter (fun m => is_type m "notify") msgs)%list in
  fst (fst (fst received)) = Some reply
  /\ snd (fst (fst received)) = false
  /\ pending_notify n' = queued
  /\ (forall legacy ipc_ready ready_rc,
        conn_type n = pcmk__client_tls -> queued <> [] ->
        lrmd_poll legacy n' ipc_ready ready_rc = (1, []))
  /\ (forall later read_rc,
        tls_session n = true ->
        let dispatched := lrmd_tls_dispatch n' later read_rc in
        snd dispatched
        = (List.map Dispatch queued ++ snd (dispatch_messages n' later))%list
        /\ pending_notify (fst (fst dispatched)) = []).
Proof.
  intros Hall Hr Hid. cbv zeta.
  destruct (recv_reply_passes_by id msgs (Message reply :: rest) n Hall)
    as (n1 & effects1 & Heq & Hp & Hs & Hc & Hpn & Hg).
  rewrite Heq. cbn [lrmd_tls_recv_reply].
  assert (Ht : exists t, msg_type reply = Some t).
  { unfold is_type in Hr. destruct (msg_type reply) as [t|]; [eauto|discriminate]. }
  destruct Ht as [t Ht]. rewrite Ht.
  assert (Hn : is_type reply "notify" = false).
  { destruct (is_type reply "notify") eqn:Hn; [|reflexivity].
    rewrite (notify_is_not_reply _ Hn) in Hr. discriminate. }
  rewrite Hn, Hr, Hid, Z.eqb_refl. simpl.
  split; [reflexivity|]. split; [reflexivity|]. split; [exact Hp|]. split.
  - intros legacy ipc_ready ready_rc Htls Hq. unfold lrmd_poll.
    rewrite Hc, Htls, Hp.
    destruct (pending_notify n ++ List.filter _ msgs)%list; [congruence|reflexivity].
  - intros later read_rc Hconn. unfold lrmd_tls_dispatch, remote_executor_connected.
    rewrite Hs, Hconn. simpl.
    assert (Hd : dispatch_messages (set_pending_notify n1 []) later
                 = (set_pending_notify (fst (dispatch_messages n1 later)) [],
                    snd (dispatch_messages n1 later))).
    { clear. revert n1. induction later as [|xml later IH]; intros n1; [reflexivity|].
      cbn [dispatch_messages].
      destruct (is_type xml "notify").
      - rewrite IH. destruct (dispatch_messages n1 later). reflexivity.
      - destruct (is_type xml "reply").
        + simpl. destruct (0 <? expected_late_replies n1).
          * change (set_late_replies (set_pending_notify n1 [])
                      (int_decr (expected_late_replies n1)))
              with (set_pending_notify
                      (set_late_replies n1 (int_decr (expected_late_replies n1))) []).
            rewrite IH. destruct (dispatch_messages _ later). reflexivity.
          * rewrite IH. destruct (dispatch_messages n1 later). reflexivity.
        + rewrite IH. destruct (dispatch_messages n1 later). reflexivity. }
    rewrite Hd, Hp.
    destruct (read_rc =? ENOTCONN); simpl; auto.
Qed.

(** X20.  [lrmd_tls_send_recv] ends in one of three ways: the connection
    was down and nothing is sent (-1); or the send failed, or no reply could
    be had, and then the connection is torn down and -ENOTCONN returned; or
    pcmk_ok with a reply that carries the id of the request just sent.  It
    never returns -ECOMM: the function has no way to come back without a
    reply and with the connection up. *)
Theorem send_recv_outcomes n send_rc stream :
  let r := lrmd_tls_send_recv n send_rc stream in
  let n' := fst (fst (fst r)) in
  let rc := snd (fst (fst r)) in
  let reply := snd (fst r) in
  (rc = -1 /\ reply = None /\ n' = n /\ remote_executor_connected n = false)
  \/ (rc = - ENOTCONN /\ reply = None /\ remote_executor_connected n' = false
      /\ pending_notify n' = [])
  \/ (rc = pcmk_ok /\ remote_executor_connected n' = true
      /\ exists xml, reply = Some xml /\ is_type xml "reply" = true
           /\ remote_msg_id xml = global_remote_msg_id n').
Proof.
  cbv zeta. unfold lrmd_tls_send_recv.
  destruct (remote_executor_connected n) eqn:Hconn; simpl; [|auto].
  unfold lrmd_tls_send.
  set (id := if int_incr (global_remote_msg_id n) <=? 0 then 1
             else int_incr (global_remote_msg_id n)).
  destruct (send_rc =? pcmk_rc_ok); simpl.
  - assert (H : forall stream m,
              tls_session m = true ->
              let '(xml, disconnected, m', _) :=
                lrmd_tls_recv_reply m (global_remote_msg_id m) stream in
              global_remote_msg_id m' = global_remote_msg_id m
              /\ tls_session m' = true
              /\ (disconnected = true /\ xml = None
                  \/ disconnected = false
                     /\ exists x, xml = Some x /\ is_type x "reply" = true
                          /\ remote_msg_id x = global_remote_msg_id m)).
    { clear. induction stream as [|i stream IH]; intros m Hm.
      - simpl. auto.
      - destruct i as [xml| | |xml]; cbn [lrmd_tls_recv_reply]; auto.
        destruct (msg_type xml) as [t|] eqn:Ht.
        + destruct (is_type xml "notify").
          * specialize (IH (set_pending_notify m (pending_notify m ++ [xml])) Hm).
            simpl in IH.
            destruct (lrmd_tls_recv_reply _ (global_remote_msg_id m) stream)
              as [[[r d] m'] e]. exact IH.
          * destruct (is_type xml "reply") eqn:Hr; simpl.
            -- destruct (Z.eqb_spec (remote_msg_id xml) (global_remote_msg_id m)) as [He|Hne];
                 simpl.
               ++ split; [reflexivity|]. split; [exact Hm|]. right. eauto.
               ++ destruct (0 <? expected_late_replies m).
                  ** specialize (IH (set_late_replies m (int_decr (expected_late_replies m)))
                                    Hm).
                     simpl in IH.
                     destruct (lrmd_tls_recv_reply _ (global_remote_msg_id m) stream)
                       as [[[r d] m'] e]. exact IH.
                  ** specialize (IH m Hm).
                     destruct (lrmd_tls_recv_reply m (global_remote_msg_id m) stream)
                       as [[[r d] m'] e]. exact IH.
            -- specialize (IH m Hm).
               destruct (lrmd_tls_recv_reply m (global_remote_msg_id m) stream)
                 as [[[r d] m'] e]. exact IH.
        + specialize (IH m Hm).
          destruct (lrmd_tls_recv_reply m (global_remote_msg_id m) stream)
            as [[[r d] m'] e]. exact IH. }
    specialize (H stream (set_msg_id n id) Hconn).
    change (global_remote_msg_id (set_msg_id n id)) with id in H.
    destruct (lrmd_tls_recv_reply (set_msg_id n id) id stream) as [[[xml d] m'] e].
    destruct H as (Hg & Hs & [[-> ->]|[-> (x & -> & Hr & Hx)]]); simpl.
    + right. left. repeat split; reflexivity.
    + right. right. split; [reflexivity|]. split; [exact Hs|].
      exists x. split; [reflexivity|]. split; [exact Hr|]. congruence.
  - right. left. repeat split; reflexivity.
Qed.

Lemma queued_notifies_are_dispatched_in_order_witness :
  let n := sample_native 0 in
  let received :=
    lrmd_tls_recv_reply n 18
      (List.map Message [sample_notify] ++ Message (sample_reply 18) :: [])%list in
  let n' := snd (fst received) in
  let queued :=
    (pending_notify n ++ List.filter (fun m => is_type m "notify") [sample_notify])%list in
  fst (fst (fst received)) = Some (sample_reply 18)
  /\ snd (fst (fst received)) = false
  /\ pending_notify n' = queued
  /\ (forall legacy ipc_ready ready_rc,
        conn_type n = pcmk__client_tls -> queued <> [] ->
        lrmd_poll legacy n' ipc_ready ready_rc = (1, []))
  /\ (forall later read_rc,
        tls_session n = true ->
        let dispatched := lrmd_tls_dispatch n' later read_rc in
        snd dispatched
        = (List.map Dispatch queued ++ snd (dispatch_messages n' later))%list
        /\ pending_notify (fst (fst dispatched)) = []).
Proof.
  apply (queued_notifies_are_dispatched_in_order (sample_native 0) 18 [sample_notify]
           (sample_reply 18) []); reflexivity.
Defined.

End LrmdClientFacts.

(** ** The queue of outgoing CPG messages *)
Module CpgFacts.
Import Cpg.

Lemma send_loop_spec mcast budget : forall queue sent rc last,
  let r := send_loop mcast budget queue sent rc last in
  let queue' := fst (fst (fst (fst r))) in
  let sent' := snd (fst (fst (fst r))) in
  let rc' := snd (fst (fst r)) in
  exists gone,
    queue = (gone ++ queue')%list
    /\ accepted (snd r) = gone
    /\ sent' = (sent + length gone)%nat
    /\ (length gone <= budget)%nat
    /\ Forall (fun iov => mcast iov = CS_OK) gone
    /\ ((exists iov rest, queue' = iov :: rest /\ rc' = mcast iov /\ rc' <> CS_OK)
        \/ (queue' = [] \/ length gone = budget)
           /\ (gone <> [] -> rc' = CS_OK) /\ (gone = [] -> rc' = rc))
    /\ (forall e, e ∈ snd r -> exists iov x, e = Mcast iov x).
Proof.
  induction budget as [|budget IH]; intros queue sent rc last; cbv zeta.
  - exists []. simpl. split; [reflexivity|]. split; [reflexivity|].
    split; [lia|]. split; [lia|]. split; [constructor|]. split.
    + right. split; [right; reflexivity|]. split; [congruence|reflexivity].
    + intros e He. apply elem_of_nil in He. destruct He.
  - destruct queue as [|iov rest].
    + exists []. simpl. split; [reflexivity|]. split; [reflexivity|].
      split; [lia|]. split; [lia|]. split; [constructor|]. split.
      * right. split; [left; reflexivity|]. split; [congruence|reflexivity].
      * intros e He. apply elem_of_nil in He. destruct He.
    + cbn [send_loop].
      destruct (Z.eqb_spec (mcast iov) CS_OK) as [Hok|Hno]; cbn [negb].
      * specialize (IH rest (S sent) (mcast iov) (to_uint32 (last + 1))).
        cbv zeta in IH.
        destruct (send_loop mcast budget rest (S sent) (mcast iov) (to_uint32 (last + 1)))
          as [[[[q s] r] l] c].
        simpl in IH |- *.
        destruct IH as (gone & Hq & Ha & Hs & Hl & Hall & Hrc & Hcalls).
        exists (iov :: gone). unfold accepted in *. cbn [omap list_omap].
        rewrite Hok, Z.eqb_refl.
        change (list_omap ?f ?l) with (omap f l). rewrite Ha.
        split; [simpl; congruence|]. split; [reflexivity|].
        split; [simpl; lia|]. split; [simpl; lia|].
        split; [constructor; assumption|]. split.
        -- destruct Hrc as [H|(Hend & Hsome & Hnone)]; [left; exact H|].
           right. split; [destruct Hend; [left; assumption|right; simpl; lia]|].
           split; [|discriminate]. intros _.
           destruct gone as [|g gone']; [rewrite Hnone by reflexivity; exact Hok|].
           apply Hsome. discriminate.
        -- intros e He. apply elem_of_cons in He as [->|He]; [eauto|apply Hcalls, He].
      * exists []. simpl. split; [reflexivity|]. split.
        { unfold accepted. simpl. apply Z.eqb_neq in Hno. rewrite Hno. reflexivity. }
        split; [lia|]. split; [lia|]. split; [constructor|]. split.
        { left. exists iov, rest. auto. }
        { intros e He. apply list_elem_of_singleton in He. subst. eauto. }
Qed.

Lemma to_int_small x : (-2147483648 <= x < 2147483648)%Z -> to_int x = x.
Proof. intros H. unfold to_int. rewrite Z.mod_small by lia. lia. Qed.

Lemma to_uint32_small x : (0 <= x < 4294967296)%Z -> to_uint32 x = x.
Proof. intros H. unfold to_uint32. apply Z.mod_small. lia. Qed.

Lemma accepted_app a b : accepted (a ++ b) = (accepted a ++ accepted b)%list.
Proof. unfold accepted. apply omap_app. Qed.

(** A flush moves a prefix of the queue to the cluster. *)
Lemma flush_moves_prefix mcast handle source st :
  let r := crm_cs_flush mcast handle source st in
  cs_message_queue st = (accepted (snd r) ++ cs_message_queue (fst (fst r)))%list.
Proof.
  cbv zeta. unfold crm_cs_flush.
  destruct (handle =? 0)%Z; [reflexivity|].
  destruct (negb (cs_message_timer st =? 0)%Z); [reflexivity|].
  pose proof (send_loop_spec mcast CS_SEND_MAX (cs_message_queue st) 0 0%Z (last_sent st))
    as H. cbv zeta in H.
  destruct (send_loop mcast CS_SEND_MAX (cs_message_queue st) 0 0%Z (last_sent st))
    as [[[[q s] r] l] c].
  simpl in H. destruct H as (gone & Hq & Ha & _).
  destruct q as [|iov rest]; simpl.
  - rewrite Ha. exact Hq.
  - rewrite accepted_app, Ha. simpl. rewrite app_nil_r. exact Hq.
Qed.

(** X25.  With a live handle and no timer pending, [crm_cs_flush] hands the
    cluster a prefix of the queue, at most [CS_SEND_MAX] messages, each one
    accepted, and keeps the rest in order; it stops early only at a message
    the cluster refused, and then returns that refusal.  A timer is set
    exactly when messages are left, with a delay between 100 and 1000
    milliseconds. *)
Theorem flush_sends_a_prefix mcast handle source st :
  handle <> 0%Z ->
  cs_message_timer st = 0%Z ->
  source <> 0%Z ->
  (Z.of_nat (length (cs_message_queue st)) < 100000000)%Z ->
  let r := crm_cs_flush mcast handle source st in
  let st' := fst (fst r) in
  let gone := accepted (snd r) in
  cs_message_queue st = (gone ++ cs_message_queue st')%list
  /\ (length gone <= CS_SEND_MAX)%nat
  /\ Forall (fun iov => mcast iov = CS_OK) gone
  /\ (forall iov rest, cs_message_queue st' = iov :: rest ->
        (length gone < CS_SEND_MAX)%nat ->
        mcast iov <> CS_OK /\ snd (fst r) = mcast iov)
  /\ (cs_message_timer st' <> 0%Z <-> cs_message_queue st' <> [])
  /\ (forall delay, Timeout_add delay ∈ snd r ->
        (100 <= delay <= 1000)%Z /\ cs_message_queue st' <> []).
Proof.
  intros Hh Ht Hs Hlen. cbv zeta.
  split; [apply flush_moves_prefix|].
  unfold crm_cs_flush.
  destruct (Z.eqb_spec handle 0) as [|_]; [contradiction|].
  rewrite Ht. change (negb (0 =? 0)%Z) with false. cbv iota.
  pose proof (send_loop_spec mcast CS_SEND_MAX (cs_message_queue st) 0 0%Z (last_sent st))
    as H. cbv zeta in H.
  destruct (send_loop mcast CS_SEND_MAX (cs_message_queue st) 0 0%Z (last_sent st))
    as [[[[q s] r] l] c].
  simpl in H.
  destruct H as (gone & Hq & Ha & Hsent & Hl & Hall & Hrc & Hcalls).
  destruct q as [|iov rest]; cbn [fst snd cs_message_queue cs_message_timer].
  - rewrite Ha. split; [exact Hl|]. split; [exact Hall|].
    split; [intros ? ? H; discriminate|]. split; [split; intros H; congruence|].
    intros delay Hd. destruct (Hcalls _ Hd) as (i & x & H). discriminate.
  - rewrite accepted_app, Ha. cbn [accepted omap list_omap]. rewrite app_nil_r.
    split; [exact Hl|]. split; [exact Hall|]. split.
    + intros iov' rest' [= <- <-] Hlt.
      destruct Hrc as [(i & r' & [= <- <-] & Hr & Hne)|([Hend|Hend] & _)].
      * subst r. auto.
      * discriminate.
      * lia.
    + split; [split; [discriminate|intros _; exact Hs]|].
      intros delay Hd. apply elem_of_app in Hd as [Hd|Hd].
      * destruct (Hcalls _ Hd) as (i & x & H). discriminate.
      * apply list_elem_of_singleton in Hd. injection Hd as ->.
        split; [|discriminate].
        destruct (negb (r =? CS_OK)%Z); [|lia].
        assert (Hlen' : length (cs_message_queue st) = (length gone + S (length rest))%nat).
        { rewrite Hq, length_app. reflexivity. }
        unfold CS_SEND_MAX in *.
        rewrite (to_int_small (Z.of_nat (length (cs_message_queue st)))) by lia.
        rewrite (to_int_small (Z.of_nat (length (cs_message_queue st)) - Z.of_nat s))
          by lia.
        rewrite (to_int_small (10 * _)) by lia.
        rewrite (to_int_small (Z.of_nat 200 + _)) by lia.
        rewrite to_uint32_small by lia. lia.
Qed.

(** X26.  The queue is first in, first out across any sequence of
    [send_cpg_iov] calls and timer callbacks, whatever the cluster answers
    and whether or not the handle is alive: the messages the cluster has
    accepted, followed by those still queued, are the messages that were
    queued at the start followed by those handed over since, in order.
    Nothing is dropped, repeated or overtaken. *)
Theorem cpg_queue_is_fifo ops : forall st,
  let r := run_ops ops st in
  (accepted (snd r) ++ cs_message_queue (fst r))%list
  = (cs_message_queue st ++ handed_over ops)%list.
Proof.
  induction ops as [|[op [[handle mcast] source]] ops IH]; intros st; cbv zeta.
  - simpl. rewrite app_nil_r. reflexivity.
  - cbn [run_ops].
    assert (Hstep : forall st0,
              let r := crm_cs_flush mcast handle source st0 in
              forall st1 calls1, (fst (fst r), snd r) = (st1, calls1) ->
              (let '(st2, calls2) := run_ops ops st1 in
               (accepted (calls1 ++ calls2) ++ cs_message_queue st2)%list)
              = (cs_message_queue st0 ++ handed_over ops)%list).
    { intros st0 r st1 calls1 [= <- <-].
      specialize (IH (fst (fst r))). cbv zeta in IH.
      destruct (run_ops ops (fst (fst r))) as [st2 calls2]. simpl in IH.
      rewrite accepted_app, <- app_assoc, IH, app_assoc.
      f_equal. symmetry. apply flush_moves_prefix. }
    destruct op as [iov|].
    + unfold send_cpg_iov.
      set (st0 := mk_cs (cs_message_queue st ++ [iov]) (cs_message_timer st) (last_sent st)).
      specialize (Hstep st0). cbv zeta in Hstep.
      destruct (crm_cs_flush mcast handle source st0) as [[st1 rc] calls1].
      specialize (Hstep st1 calls1 eq_refl).
      destruct (run_ops ops st1) as [st2 calls2]. simpl.
      rewrite Hstep. unfold st0, handed_over. simpl.
      rewrite <- app_assoc. reflexivity.
    + unfold crm_cs_flush_cb.
      set (st0 := mk_cs (cs_message_queue st) 0 (last_sent st)).
      specialize (Hstep st0). cbv zeta in Hstep.
      destruct (crm_cs_flush mcast handle source st0) as [[st1 rc] calls1].
      specialize (Hstep st1 calls1 eq_refl).
      destruct (run_ops ops st1) as [st2 calls2]. simpl.
      rewrite Hstep. reflexivity.
Qed.

Lemma flush_sends_a_prefix_witness :
  let r := crm_cs_flush sample_mcast 7 3 sample_cs in
  let st' := fst (fst r) in
  let gone := accepted (snd r) in
  cs_message_queue sample_cs = (gone ++ cs_message_queue st')%list
  /\ (length gone <= CS_SEND_MAX)%nat
  /\ Forall (fun iov => sample_mcast iov = CS_OK) gone
  /\ (forall iov rest, cs_message_queue st' = iov :: rest ->
        (length gone < CS_SEND_MAX)%nat ->
        sample_mcast iov <> CS_OK /\ snd (fst r) = sample_mcast iov)
  /\ (cs_message_timer st' <> 0%Z <-> cs_message_queue st' <> [])
  /\ (forall delay, Timeout_add delay ∈ snd r ->
        (100 <= delay <= 1000)%Z /\ cs_message_queue st' <> []).
Proof.
  apply (flush_sends_a_prefix sample_mcast 7 3 sample_cs).
  - discriminate.
  - reflexivity.
  - discriminate.
  - reflexivity.
Defined.

End CpgFacts.

(** ** The arguments handed to a fencing agent *)
Module StClientFacts.
Import Str StrFacts StClient.

Lemma append_cons c (a b : string) : String c a ++ b = String c (a ++ b).
Proof. reflexivity. Qed.

Lemma append_assoc (a b c : string) : (a ++ b) ++ c = a ++ b ++ c.
Proof.
  induction a as [|x a IH]; [reflexivity|]. rewrite !append_cons, IH. reflexivity.
Qed.


Lemma has_char_app c a b : has_char c (a ++ b) = has_char c a || has_char c b.
Proof.
  induction a as [|x a IH]; [reflexivity|].
  rewrite append_cons. cbn [has_char]. rewrite IH, orb_assoc. reflexivity.
Qed.

(** A line without line feed, with its line feed, is one line of the text. *)
Lemma text_lines_line line rest :
  one_line line -> text_lines (line ++ String LF rest) = line :: text_lines rest.
Proof.
  unfold one_line. induction line as [|c line IH]; [reflexivity|].
  cbn [has_char]. intros H. apply orb_false_iff in H as [Hc Hl].
  rewrite append_cons. cbn [text_lines]. rewrite Hc, (IH Hl). reflexivity.
Qed.










Lemma terminated_tail c r : terminated (String c r) -> terminated r.
Proof.
  intros [H|([|d t] & H)]; [discriminate| |].
  - injection H as _ ->. left. reflexivity.
  - injection H as _ ->. right. eexists. reflexivity.
Qed.

Lemma terminated_head c r : terminated (String c r) -> c <> LF -> r <> "".
Proof.
  intros [H|([|d t] & H)] Hc; [discriminate| |].
  - injection H as -> _. contradiction.
  - injection H as _ ->. destruct t; discriminate.
Qed.

Lemma text_lines_nonempty s : s <> "" -> text_lines s <> [].
Proof.
  destruct s as [|c r]; [contradiction|]. intros _. cbn [text_lines].
  destruct (Ascii.eqb c LF); [discriminate|].
  destruct (text_lines r); discriminate.
Qed.

(** Behind a terminated text, new lines start afresh. *)
Lemma text_lines_app t x :
  terminated t -> text_lines (t ++ x) = (text_lines t ++ text_lines x)%list.
Proof.
  induction t as [|c r IH]; [reflexivity|].
  intros Ht. specialize (IH (terminated_tail c r Ht)).
  rewrite append_cons. cbn [text_lines].
  destruct (Ascii.eqb c LF) eqn:Hc.
  - rewrite IH. reflexivity.
  - apply Ascii.eqb_neq in Hc.
    pose proof (text_lines_nonempty r (terminated_head c r Ht Hc)) as Hne.
    rewrite IH. destruct (text_lines r); [contradiction|]. reflexivity.
Qed.

Lemma append_arg_terminated key value args :
  terminated (default "" args) -> terminated (default "" (append_arg key value args)).
Proof.
  intros Ht. unfold append_arg.
  destruct key as [k|]; [|exact Ht]. destruct value as [v|]; [|exact Ht].
  destruct (strstr k "pcmk_"); [exact Ht|].
  destruct (strstr k CRM_META); [exact Ht|].
  destruct (safe_str_eq (Some k) (Some "crm_feature_set")); [exact Ht|].
  right. exists (default "" args ++ k ++ "=" ++ v). simpl.
  rewrite !append_assoc. reflexivity.
Qed.

(** The last line after a record with a public key has been appended. *)
Lemma append_arg_last key value args :
  terminated (default "" args) ->
  strstr key "pcmk_" = false ->
  strstr key CRM_META = false ->
  safe_str_eq (Some key) (Some "crm_feature_set") = false ->
  one_line (key ++ "=" ++ value) ->
  exists text,
    append_arg (Some key) (Some value) args = Some text /\
    last (text_lines text) = Some (key ++ "=" ++ value).
Proof.
  intros Ht H1 H2 H3 Hline. unfold append_arg. rewrite H1, H2, H3.
  eexists. split; [reflexivity|].
  rewrite text_lines_app by exact Ht.
  replace (key ++ "=" ++ value ++ String LF "") with ((key ++ "=" ++ value) ++ String LF "")
    by (rewrite !append_assoc; reflexivity).
  rewrite (text_lines_line _ "" Hline). apply last_snoc.
Qed.

(** A check on every entry of a table that can be run. *)
Lemma map_Forall_checked {A} (P : string -> A -> Prop) (check : string -> A -> bool)
    (m : gmap string A) :
  (forall k v, check k v = true -> P k v) ->
  forallb (fun entry => check (fst entry) (snd entry)) (map_to_list m) = true ->
  map_Forall P m.
Proof.
  intros Hcheck Hall k v Hkv. apply Hcheck.
  rewrite forallb_forall in Hall.
  apply (Hall (k, v)). apply list_elem_of_In, elem_of_map_to_list, Hkv.
Qed.

Section Args.

Variable STONITH_ATTR_ACTION_OP : string.
Variable crm_meta_name : string -> string.

Local Abbreviation host_args := (append_host_specific_args crm_meta_name).
Local Abbreviation args_for := (make_args STONITH_ATTR_ACTION_OP crm_meta_name).






Lemma foreach_append_arg_terminated (d : gmap string string) :
  terminated
    (default "" (map_fold (fun key value args => append_arg (Some key) (Some value) args)
                   None d)).
Proof.
  apply (map_fold_weak_ind
           (fun (r : option string) (_ : gmap string string) => terminated (default "" r))).
  - left. reflexivity.
  - intros k v m r _ Hr. apply append_arg_terminated, Hr.
Qed.

(** X28.  With the default way of naming the victim (no pcmk_host_argument,
    no pcmk_arg_map) and a victim and port name without line feed,
    [make_args] does not overwrite a port the device was configured with:
    when "port" is set to anything but "dynamic" (in any case of letters),
    the last line of the text is nodename=victim, so nothing names the victim
    as a port behind the configured one; when "port" is not set, or is
    "dynamic", the last line is port=alias, the alias being the port map's
    entry for the victim, or the victim itself without one. *)
Theorem configured_port_is_kept action victim d port_map :
  d !! "pcmk_host_argument" = None ->
  d !! "pcmk_arg_map" = None ->
  one_line victim ->
  from_option (map_Forall (fun _ alias => one_line alias)) True port_map ->
  let alias := default victim (port_map ≫= fun m => m !! victim) in
  exists text,
    args_for action (Some victim) (Some d) port_map = Some text /\
    (forall v, d !! "port" = Some v -> lower v <> "dynamic" ->
       last (text_lines text) = Some ("nodename=" ++ victim)) /\
    (d !! "port" = None \/ (exists v, d !! "port" = Some v /\ lower v = "dynamic") ->
       last (text_lines text) = Some ("port=" ++ alias)).
Proof.
  intros Hh Hm Hvictim Hports alias.
  assert (one_line alias) as Halias.
  { subst alias. destruct port_map as [m|]; [|exact Hvictim]. simpl in Hports |- *.
    destruct (m !! victim) as [a|] eqn:Ha; [apply (Hports _ _ Ha) | exact Hvictim]. }
  assert (alias = match port_map with
                  | Some m => match m !! victim with Some a => a | None => victim end
                  | None => victim
                  end) as Halias_eq.
  { subst alias. destruct port_map as [m|]; [|reflexivity]. simpl.
    destruct (m !! victim); reflexivity. }
  unfold make_args, append_const_arg, STONITH_ATTR_HOSTARG, STONITH_ATTR_ARGMAP.
  rewrite Hh, Hm, <- Halias_eq. clearbody alias.
  set (args1 := append_arg (Some STONITH_ATTR_ACTION_OP) _ _).
  assert (terminated (default "" args1)) as Ht1
    by apply append_arg_terminated, foreach_append_arg_terminated.
  clearbody args1.
  destruct (append_arg_last "nodename" victim args1 Ht1 eq_refl eq_refl eq_refl)
    as (text2 & Hargs2 & Hlast2).
  { unfold one_line in *. rewrite has_char_app. exact Hvictim. }
  rewrite Hargs2.
  assert (terminated (default "" (Some text2))) as Ht2
    by (rewrite <- Hargs2; apply append_arg_terminated, Ht1).
  destruct (append_arg_last "port" alias (Some text2) Ht2 eq_refl eq_refl eq_refl)
    as (text3 & Hargs3 & Hlast3).
  { unfold one_line in *. rewrite has_char_app. exact Halias. }
  destruct (d !! "port") as [v|].
  - destruct (safe_str_eq (Some v) (Some "dynamic")) eqn:Hdyn.
    + exists text3. split; [exact Hargs3|]. split.
      * intros v' [= <-] Hne. exfalso. apply Hne.
        simpl in Hdyn. unfold strcaseeq in Hdyn. apply String.eqb_eq in Hdyn. exact Hdyn.
      * intros _. exact Hlast3.
    + exists text2. split; [reflexivity|]. split.
      * intros _ _ _. exact Hlast2.
      * intros [H|(v' & [= <-] & Hlow)]; [discriminate|].
        simpl in Hdyn. unfold strcaseeq in Hdyn. rewrite Hlow in Hdyn. discriminate Hdyn.
  - exists text3. split; [exact Hargs3|]. split.
    + intros v [=].
    + intros _. exact Hlast3.
Qed.

End Args.


Lemma sample_port_map_clean :
  map_Forall (fun (_ : string) alias => one_line alias) sample_port_map.
Proof.
  apply (map_Forall_checked _ (fun _ alias => negb (has_char LF alias))).
  - intros k v H. apply negb_true_iff in H. exact H.
  - vm_compute. reflexivity.
Defined.


(** The sample device has port 3 configured: the text ends with the victim's
    name and there is no second port line. *)
Lemma configured_port_is_kept_witness :
  exists text,
    make_args "option" sample_crm_meta_name "reboot" (Some "node2")
      (Some sample_device_args) (Some sample_port_map) = Some text /\
    last (text_lines text) = Some "nodename=node2".
Proof.
  destruct (configured_port_is_kept "option" sample_crm_meta_name "reboot" "node2"
              sample_device_args (Some sample_port_map) eq_refl eq_refl eq_refl
              sample_port_map_clean) as (text & Htext & Hkept & _).
  exists text. split; [exact Htext|].
  apply (Hkept "3"); [reflexivity | discriminate].
Defined.

End StClientFacts.
